(** * The native bridge of the React Native SDK ([src/js/wrapper.ts])

    A shallow embedding of the [NATIVE] wrapper object: the JavaScript values
    it handles, the [JSON] functions it calls, its three mutable fields, the
    calls it makes on the [RNSentry] native module, and each of its methods.

    Conventions of the model.
    - A JavaScript value is [undefined], [null], a boolean, a number, a
      string, an array or a plain object.  Numbers are the integers (those a
      double holds exactly and prints in plain decimal); strings are sequences
      of code units below 256; functions and class instances are not values of
      the model, and inherited (prototype) properties are not read.
    - An object is the list of its own enumerable properties in insertion
      order, without repeated keys.
    - A method of [NATIVE] is a program: a tree whose nodes read or write the
      wrapper's fields, call the native module and wait for its reply, or log
      a warning, and whose leaves return a value or throw. *)

From Stdlib Require Import String Ascii List ZArith Bool Lia.
From Stdlib Require Import DecimalString DecimalZ DecimalNat.
From Stdlib Require DecimalPos DecimalFacts Finite QArith.
Import ListNotations.

Local Open Scope string_scope.
Local Open Scope list_scope.

(** ** JavaScript values *)

Module JS.

Unset Elimination Schemes.
Inductive value : Type :=
| VUndefined
| VNull
| VBool (b : bool)
| VNum (n : Z)
| VStr (s : string)
| VArr (items : list value)
| VObj (props : list (string * value)).
Set Elimination Schemes.

(** An object: own enumerable properties, in insertion order. *)
Definition Obj : Type := list (string * value).

Section value_induction.
Variable P : value -> Prop.
Hypothesis Hundefined : P VUndefined.
Hypothesis Hnull : P VNull.
Hypothesis Hbool : forall b, P (VBool b).
Hypothesis Hnum : forall n, P (VNum n).
Hypothesis Hstr : forall s, P (VStr s).
Hypothesis Harr : forall items, Forall P items -> P (VArr items).
Hypothesis Hobj : forall props, Forall (fun kv => P (snd kv)) props -> P (VObj props).

Fixpoint value_ind (v : value) : P v :=
  match v with
  | VUndefined => Hundefined
  | VNull => Hnull
  | VBool b => Hbool b
  | VNum n => Hnum n
  | VStr s => Hstr s
  | VArr items =>
      Harr items
        ((fix go (l : list value) : Forall P l :=
            match l with
            | [] => Forall_nil P
            | x :: l' => Forall_cons x (value_ind x) (go l')
            end) items)
  | VObj props =>
      Hobj props
        ((fix go (l : Obj) : Forall (fun kv => P (snd kv)) l :=
            match l with
            | [] => Forall_nil _
            | kv :: l' => Forall_cons kv (value_ind (snd kv)) (go l')
            end) props)
  end.
End value_induction.

(** Errors a method can throw (or reject its promise with). *)
Inductive Error : Type :=
| NativeClientError      (* "Native Client is not available, can't start on native." *)
| DisabledNativeError    (* "Native is disabled" *)
| TypeError              (* raised by the runtime *)
| SyntaxError            (* raised by JSON.parse *)
| Rejection (reason : value).  (* a native promise that rejected *)

Inductive Result (A : Type) : Type :=
| Ok (a : A)
| Err (e : Error).
Arguments Ok {A} a.
Arguments Err {A} e.

Definition rbind {A B} (r : Result A) (f : A -> Result B) : Result B :=
  match r with
  | Ok a => f a
  | Err e => Err e
  end.

Fixpoint rmap {A B} (f : A -> Result B) (l : list A) : Result (list B) :=
  match l with
  | [] => Ok []
  | x :: l' =>
      rbind (f x) (fun y => rbind (rmap f l') (fun ys => Ok (y :: ys)))
  end.

(** *** Numbers and strings *)

Definition string_of_nat (n : nat) : string :=
  NilZero.string_of_uint (Nat.to_uint n).

(** [Number.prototype.toString] on an integer. *)
Definition string_of_Z (n : Z) : string :=
  NilZero.string_of_int (Z.to_int n).

Definition chars (s : string) : list ascii := list_ascii_of_string s.

Fixpoint join (sep : string) (l : list string) : string :=
  match l with
  | [] => EmptyString
  | [s] => s
  | s :: l' => (s ++ sep ++ join sep l')%string
  end.

(** *** Objects *)

(** The own property [k] of [o], when there is one. *)
Fixpoint get (o : Obj) (k : string) : option value :=
  match o with
  | [] => None
  | (k', v) :: o' => if String.eqb k k' then Some v else get o' k
  end.

(** [o[k] = v]: an existing key keeps its place, a new one goes last. *)
Fixpoint set (o : Obj) (k : string) (v : value) : Obj :=
  match o with
  | [] => [(k, v)]
  | (k', v') :: o' =>
      if String.eqb k k' then (k', v) :: o' else (k', v') :: set o' k v
  end.

(** [delete o[k]]. *)
Fixpoint delete (o : Obj) (k : string) : Obj :=
  match o with
  | [] => []
  | (k', v') :: o' =>
      if String.eqb k k' then delete o' k else (k', v') :: delete o' k
  end.

(** [Object.keys(o)]. *)
Definition keys (o : Obj) : list string := map fst o.

(** [{ ...o, k1: v1, ..., kn: vn }]: the properties are set in order. *)
Definition assign (o : Obj) (kvs : list (string * value)) : Obj :=
  fold_left (fun acc kv => set acc (fst kv) (snd kv)) kvs o.

(** An object literal [{ k1: v1, ..., kn: vn }]. *)
Definition literal (kvs : list (string * value)) : Obj := assign [] kvs.

(** [const { k1, ..., kn, ...rest } = o]: the rest object. *)
Definition rest (o : Obj) (ks : list string) : Obj :=
  fold_left delete ks o.

Fixpoint indexed (i : nat) (l : list value) : Obj :=
  match l with
  | [] => []
  | v :: l' => (string_of_nat i, v) :: indexed (S i) l'
  end.

(** The own enumerable properties of a value, as a spread [{ ...v }] and
    [Object.keys(v)] see them: those of an object, the indexed elements of an
    array, the indexed characters of a string, none otherwise. *)
Definition ownProps (v : value) : Obj :=
  match v with
  | VObj o => o
  | VArr l => indexed 0 l
  | VStr s => indexed 0 (map (fun c => VStr (String c EmptyString)) (chars s))
  | _ => []
  end.

(** [v[k]] on a value that is neither [undefined] nor [null]. *)
Definition member (v : value) (k : string) : value :=
  match get (ownProps v) k with
  | Some x => x
  | None =>
      if String.eqb k "length" then
        match v with
        | VArr l => VNum (Z.of_nat (List.length l))
        | VStr s => VNum (Z.of_nat (String.length s))
        | _ => VUndefined
        end
      else VUndefined
  end.

(** [v.k]: a [TypeError] on [undefined] and [null]. *)
Definition getProp (v : value) (k : string) : Result value :=
  match v with
  | VUndefined | VNull => Err TypeError
  | _ => Ok (member v k)
  end.

(** [v?.k] and [v?.[k]]. *)
Definition optProp (v : value) (k : string) : value :=
  match v with
  | VUndefined | VNull => VUndefined
  | _ => member v k
  end.

(** [o.k] on an object. *)
Definition prop (o : Obj) (k : string) : value := member (VObj o) k.

(** [ToBoolean]. *)
Definition truthy (v : value) : bool :=
  match v with
  | VUndefined | VNull => false
  | VBool b => b
  | VNum n => negb (Z.eqb n 0)
  | VStr s => negb (String.eqb s EmptyString)
  | VArr _ | VObj _ => true
  end.

(** [typeof v === 'string']. *)
Definition is_string (v : value) : bool :=
  match v with
  | VStr _ => true
  | _ => false
  end.

(** [a ?? b]. *)
Definition nullish (a b : value) : value :=
  match a with
  | VUndefined | VNull => b
  | _ => a
  end.

(** [ToString], as [Array.prototype.join] and [ToPrimitive] use it. *)
Fixpoint ToString (v : value) : string :=
  match v with
  | VUndefined => "undefined"
  | VNull => "null"
  | VBool true => "true"
  | VBool false => "false"
  | VNum n => string_of_Z n
  | VStr s => s
  | VArr l =>
      join ","
        (map (fun x =>
                match x with
                | VUndefined | VNull => EmptyString
                | _ => ToString x
                end) l)
  | VObj _ => "[object Object]"
  end.

(** *** [x != false] *)

Definition is_white (c : ascii) : bool :=
  let n := nat_of_ascii c in
  (Nat.eqb n 9 || Nat.eqb n 10 || Nat.eqb n 11 || Nat.eqb n 12
   || Nat.eqb n 13 || Nat.eqb n 32 || Nat.eqb n 160)%bool.

Definition is_digit (c : ascii) : bool :=
  let n := nat_of_ascii c in (Nat.leb 48 n && Nat.leb n 57)%bool.

Definition is_zero_digit (c : ascii) : bool := Ascii.eqb c "0"%char.

Fixpoint drop_white (l : list ascii) : list ascii :=
  match l with
  | c :: l' => if is_white c then drop_white l' else l
  | [] => []
  end.

Definition trim (l : list ascii) : list ascii :=
  rev (drop_white (rev (drop_white l))).

Fixpoint span (p : ascii -> bool) (l : list ascii) : list ascii * list ascii :=
  match l with
  | c :: l' =>
      if p c then let (a, b) := span p l' in (c :: a, b) else ([], l)
  | [] => ([], [])
  end.

(** An exponent part: empty, or [e] or [E], an optional sign, digits. *)
Definition is_exponent (l : list ascii) : bool :=
  match l with
  | [] => true
  | c :: l' =>
      if (Ascii.eqb c "e"%char || Ascii.eqb c "E"%char)%bool then
        let ds :=
          match l' with
          | s :: l'' =>
              if (Ascii.eqb s "+"%char || Ascii.eqb s "-"%char)%bool
              then l'' else l'
          | [] => []
          end in
        (negb (Nat.eqb (List.length ds) 0) && forallb is_digit ds)%bool
      else false
  end.

(** An unsigned decimal literal of value zero: digits, an optional point and
    more digits, an optional exponent, with every mantissa digit [0]. *)
Definition is_zero_decimal (l : list ascii) : bool :=
  let (int_part, l1) := span is_digit l in
  let (frac_part, l2) :=
    match l1 with
    | c :: l1' =>
        if Ascii.eqb c "."%char then span is_digit l1' else ([], l1)
    | [] => ([], [])
    end in
  (negb (Nat.eqb (List.length int_part + List.length frac_part) 0)
   && forallb is_zero_digit int_part
   && forallb is_zero_digit frac_part
   && is_exponent l2)%bool.

(** A literal [0x..], [0o..] or [0b..] of value zero. *)
Definition is_zero_radix (l : list ascii) : bool :=
  match l with
  | z :: x :: ds =>
      (Ascii.eqb z "0"%char
       && (Ascii.eqb x "x"%char || Ascii.eqb x "X"%char
           || Ascii.eqb x "o"%char || Ascii.eqb x "O"%char
           || Ascii.eqb x "b"%char || Ascii.eqb x "B"%char)
       && negb (Nat.eqb (List.length ds) 0)
       && forallb is_zero_digit ds)%bool
  | _ => false
  end.

(** [ToNumber(s)] is zero: [s] is blank, or a numeric literal of value zero. *)
Definition string_is_zero (s : string) : bool :=
  match trim (chars s) with
  | [] => true
  | (c :: l') as l =>
      if (Ascii.eqb c "+"%char || Ascii.eqb c "-"%char)%bool
      then is_zero_decimal l'
      else (is_zero_decimal l || is_zero_radix l)%bool
  end.

(** [x == false]: a boolean compares as such, [undefined] and [null] are
    equal to neither boolean, anything else is converted to a number. *)
Definition loose_eq_false (x : value) : bool :=
  match x with
  | VUndefined | VNull => false
  | VBool b => negb b
  | VNum n => Z.eqb n 0
  | VStr s => string_is_zero s
  | VArr _ | VObj _ => string_is_zero (ToString x)
  end.

(** [x != false]. *)
Definition loose_ne_false (x : value) : bool := negb (loose_eq_false x).

End JS.

(** ** [JSON.stringify] and [JSON.parse] *)

Module JSON.
Import JS.

Definition dquote : ascii := "034"%char.
Definition backslash : ascii := "092"%char.

Definition hex_digit (n : nat) : ascii :=
  nth n (chars "0123456789abcdef") "0"%char.

Definition str (l : list ascii) : string := string_of_list_ascii l.

(** The text of one code unit inside a quoted string. *)
Definition escape (c : ascii) : list ascii :=
  let n := nat_of_ascii c in
  if Nat.eqb n 34 then [backslash; dquote]
  else if Nat.eqb n 92 then [backslash; backslash]
  else if Nat.eqb n 8 then [backslash; "b"%char]
  else if Nat.eqb n 12 then [backslash; "f"%char]
  else if Nat.eqb n 10 then [backslash; "n"%char]
  else if Nat.eqb n 13 then [backslash; "r"%char]
  else if Nat.eqb n 9 then [backslash; "t"%char]
  else if Nat.ltb n 32 then
    [backslash; "u"%char; "0"%char; "0"%char;
     hex_digit (n / 16); hex_digit (n mod 16)]
  else [c].

Definition quote (s : string) : string :=
  str (dquote :: flat_map escape (chars s) ++ [dquote]).

(** The JSON text of a value; [None] where [JSON.stringify] returns
    [undefined].  A property whose value has no text is left out of its
    object; an array element that has none is written [null]. *)
Fixpoint text (v : value) : option string :=
  match v with
  | VUndefined => None
  | VNull => Some "null"
  | VBool true => Some "true"
  | VBool false => Some "false"
  | VNum n => Some (string_of_Z n)
  | VStr s => Some (quote s)
  | VArr l =>
      Some ("[" ++ join ","
                     (map (fun x =>
                             match text x with
                             | Some t => t
                             | None => "null"
                             end) l)
                ++ "]")%string
  | VObj o =>
      Some ("{" ++ join ","
                     ((fix members (o : Obj) : list string :=
                         match o with
                         | [] => []
                         | (k, x) :: o' =>
                             match text x with
                             | Some t => (quote k ++ ":" ++ t)%string :: members o'
                             | None => members o'
                             end
                         end) o)
                ++ "}")%string
  end.

(** The text of an array element. *)
Definition element (x : value) : string :=
  match text x with
  | Some t => t
  | None => "null"
  end.

(** The texts of the properties of an object. *)
Definition members (o : Obj) : list string :=
  (fix members (o : Obj) : list string :=
     match o with
     | [] => []
     | (k, x) :: o' =>
         match text x with
         | Some t => (quote k ++ ":" ++ t)%string :: members o'
         | None => members o'
         end
     end) o.

(** [JSON.stringify(v)], as the value it returns. *)
Definition stringify (v : value) : value :=
  match text v with
  | Some t => VStr t
  | None => VUndefined
  end.

(** *** The parser *)

Definition is_ws (c : ascii) : bool :=
  let n := nat_of_ascii c in
  (Nat.eqb n 9 || Nat.eqb n 10 || Nat.eqb n 13 || Nat.eqb n 32)%bool.

Fixpoint skip_ws (l : list ascii) : list ascii :=
  match l with
  | c :: l' => if is_ws c then skip_ws l' else l
  | [] => []
  end.

Definition hex_value (c : ascii) : option nat :=
  let n := nat_of_ascii c in
  if (Nat.leb 48 n && Nat.leb n 57)%bool then Some (n - 48)
  else if (Nat.leb 97 n && Nat.leb n 102)%bool then Some (n - 87)
  else if (Nat.leb 65 n && Nat.leb n 70)%bool then Some (n - 55)
  else None.

(** The characters of a string, after its opening quote. *)
Fixpoint parse_chars (l : list ascii) : option (list ascii * list ascii) :=
  match l with
  | [] => None
  | c :: l1 =>
      if Ascii.eqb c dquote then Some ([], l1)
      else if Ascii.eqb c backslash then
        match l1 with
        | e :: l2 =>
            let continue (x : ascii) (l' : list ascii) :=
              match parse_chars l' with
              | Some (cs, r) => Some (x :: cs, r)
              | None => None
              end in
            if Ascii.eqb e dquote then continue dquote l2
            else if Ascii.eqb e backslash then continue backslash l2
            else if Ascii.eqb e "/"%char then continue "/"%char l2
            else if Ascii.eqb e "b"%char then continue "008"%char l2
            else if Ascii.eqb e "f"%char then continue "012"%char l2
            else if Ascii.eqb e "n"%char then continue "010"%char l2
            else if Ascii.eqb e "r"%char then continue "013"%char l2
            else if Ascii.eqb e "t"%char then continue "009"%char l2
            else if Ascii.eqb e "u"%char then
              match l2 with
              | h1 :: h2 :: h3 :: h4 :: l3 =>
                  match hex_value h1, hex_value h2, hex_value h3, hex_value h4 with
                  | Some 0, Some 0, Some a, Some b =>
                      continue (ascii_of_nat (16 * a + b)) l3
                  | _, _, _, _ => None
                  end
              | _ => None
              end
            else None
        | [] => None
        end
      else if Nat.ltb (nat_of_ascii c) 32 then None
      else
        match parse_chars l1 with
        | Some (cs, r) => Some (c :: cs, r)
        | None => None
        end
  end.

(** An integer: an optional minus sign, then [0] or a digit string that does
    not start with [0]; a fraction or an exponent is not a number of the
    model. *)
Definition parse_number (l : list ascii) : option (Z * list ascii) :=
  let (neg, l1) :=
    match l with
    | c :: l' => if Ascii.eqb c "-"%char then (true, l') else (false, l)
    | [] => (false, [])
    end in
  let (ds, r) := span is_digit l1 in
  let follows :=
    match r with
    | c :: _ =>
        (Ascii.eqb c "."%char || Ascii.eqb c "e"%char || Ascii.eqb c "E"%char)%bool
    | [] => false
    end in
  match ds with
  | [] => None
  | d :: ds' =>
      if (follows || (is_zero_digit d && negb (Nat.eqb (List.length ds') 0)))%bool
      then None
      else
        match NilZero.uint_of_string (str ds) with
        | Some u =>
            let n := Z.of_uint u in
            Some (if neg then Z.opp n else n, r)
        | None => None
        end
  end.

Definition expect (w : string) (l : list ascii) : option (list ascii) :=
  let n := String.length w in
  if String.eqb (str (firstn n l)) w then Some (skipn n l) else None.

Fixpoint parse_value (fuel : nat) (l : list ascii) : option (value * list ascii) :=
  match fuel with
  | 0 => None
  | S fuel' =>
      match skip_ws l with
      | [] => None
      | (c :: l1) as l0 =>
          if Ascii.eqb c "n"%char then
            option_map (fun r => (VNull, r)) (expect "null" l0)
          else if Ascii.eqb c "t"%char then
            option_map (fun r => (VBool true, r)) (expect "true" l0)
          else if Ascii.eqb c "f"%char then
            option_map (fun r => (VBool false, r)) (expect "false" l0)
          else if Ascii.eqb c dquote then
            option_map (fun x => (VStr (str (fst x)), snd x)) (parse_chars l1)
          else if Ascii.eqb c "["%char then
            match skip_ws l1 with
            | c' :: l2 =>
                if Ascii.eqb c' "]"%char then Some (VArr [], l2)
                else option_map (fun x => (VArr (fst x), snd x))
                                (parse_elements fuel' l1)
            | [] => None
            end
          else if Ascii.eqb c "{"%char then
            match skip_ws l1 with
            | c' :: l2 =>
                if Ascii.eqb c' "}"%char then Some (VObj [], l2)
                else option_map (fun x => (VObj (fst x), snd x))
                                (parse_members fuel' [] l1)
            | [] => None
            end
          else option_map (fun x => (VNum (fst x), snd x)) (parse_number l0)
      end
  end

with parse_elements (fuel : nat) (l : list ascii) : option (list value * list ascii) :=
  match fuel with
  | 0 => None
  | S fuel' =>
      match parse_value fuel' l with
      | Some (v, l1) =>
          match skip_ws l1 with
          | c :: l2 =>
              if Ascii.eqb c ","%char then
                option_map (fun x => (v :: fst x, snd x)) (parse_elements fuel' l2)
              else if Ascii.eqb c "]"%char then Some ([v], l2)
              else None
          | [] => None
          end
      | None => None
      end
  end

with parse_members (fuel : nat) (acc : Obj) (l : list ascii) : option (Obj * list ascii) :=
  match fuel with
  | 0 => None
  | S fuel' =>
      match skip_ws l with
      | q :: l1 =>
          if Ascii.eqb q dquote then
            match parse_chars l1 with
            | Some (k, l2) =>
                match skip_ws l2 with
                | c :: l3 =>
                    if Ascii.eqb c ":"%char then
                      match parse_value fuel' l3 with
                      | Some (v, l4) =>
                          let acc' := set acc (str k) v in
                          match skip_ws l4 with
                          | c' :: l5 =>
                              if Ascii.eqb c' ","%char then parse_members fuel' acc' l5
                              else if Ascii.eqb c' "}"%char then Some (acc', l5)
                              else None
                          | [] => None
                          end
                      | None => None
                      end
                    else None
                | [] => None
                end
            | None => None
            end
          else None
      | [] => None
      end
  end.

(** *** What a text denotes *)

(** The value that the text of [v] denotes: a property whose value is
    [undefined] is gone, an array element that is [undefined] is [null]. *)
Fixpoint clone (v : value) : value :=
  match v with
  | VUndefined => VNull
  | VArr l => VArr (map clone l)
  | VObj o =>
      VObj ((fix props (o : Obj) : Obj :=
               match o with
               | [] => []
               | (k, VUndefined) :: o' => props o'
               | (k, x) :: o' => (k, clone x) :: props o'
               end) o)
  | _ => v
  end.

Definition cloneProps (o : Obj) : Obj :=
  (fix props (o : Obj) : Obj :=
     match o with
     | [] => []
     | (k, VUndefined) :: o' => props o'
     | (k, x) :: o' => (k, clone x) :: props o'
     end) o.

(** No [undefined] occurs in the value: the values that a text denotes. *)
Fixpoint definite (v : value) : bool :=
  match v with
  | VUndefined => false
  | VArr l => forallb definite l
  | VObj o => forallb (fun kv => definite (snd kv)) o
  | _ => true
  end.

(** No object of the value has a repeated key. *)
Fixpoint wellFormed (v : value) : Prop :=
  match v with
  | VArr l =>
      (fix all (l : list value) : Prop :=
         match l with
         | [] => True
         | x :: l' => wellFormed x /\ all l'
         end) l
  | VObj o =>
      NoDup (keys o) /\
      (fix all (o : Obj) : Prop :=
         match o with
         | [] => True
         | (_, x) :: o' => wellFormed x /\ all o'
         end) o
  | _ => True
  end.

(** The same, as a check. *)
Fixpoint distinct (l : list string) : bool :=
  match l with
  | [] => true
  | k :: l' => (negb (existsb (String.eqb k) l') && distinct l')%bool
  end.

Fixpoint wellFormedb (v : value) : bool :=
  match v with
  | VArr l => forallb wellFormedb l
  | VObj o =>
      (distinct (keys o) && forallb (fun kv => wellFormedb (snd kv)) o)%bool
  | _ => true
  end.

(** Fuel that suffices to parse the text of a value. *)
Fixpoint need (v : value) : nat :=
  match v with
  | VArr l =>
      S ((fix sum (l : list value) : nat :=
            match l with
            | [] => 0
            | x :: l' => S (need x + sum l')
            end) l)
  | VObj o =>
      S ((fix sum (o : Obj) : nat :=
            match o with
            | [] => 0
            | (_, VUndefined) :: o' => sum o'
            | (_, x) :: o' => S (need x + sum o')
            end) o)
  | _ => 1
  end.

(** What may follow a value inside a text: nothing, or a separator. *)
Definition follow (rest : list ascii) : Prop :=
  match rest with
  | [] => True
  | c :: _ => c = ","%char \/ c = "]"%char \/ c = "}"%char
  end.

(** The text of [x], followed by a separator, parses to the value it
    denotes. *)
Definition parses (x : value) : Prop :=
  wellFormed x ->
  forall fuel rest,
    need x <= fuel -> follow rest ->
    parse_value fuel (chars (element x) ++ rest) = Some (clone x, rest).

(** [JSON.parse(s)]: one value, then only white space. *)
Definition parse_text (s : string) : Result value :=
  let l := chars s in
  match parse_value (2 * List.length l + 2) l with
  | Some (v, r) =>
      match skip_ws r with
      | [] => Ok v
      | _ :: _ => Err SyntaxError
      end
  | None => Err SyntaxError
  end.

(** [JSON.parse(x)] on the value [x]: the argument is converted to a string
    first, so that [JSON.parse(undefined)] is a syntax error. *)
Definition parse (x : value) : Result value := parse_text (ToString x).

End JSON.

(** ** The native module and the wrapper's state *)

(** The methods of [RNSentry] that the wrapper calls, with their arguments. *)
Module Native.
Import JS.

Inductive Call : Type :=
| captureEnvelope (envelope : value)
| getStringBytesLength (payloadString : value)
| initNativeSdk (filteredOptions : value)
| fetchNativeRelease
| fetchNativeSdkInfo
| fetchNativeDeviceContexts
| fetchNativeAppStart
| fetchNativeFrames
| crash
| setUser (defaultUserKeys otherUserKeys : value)
| setTag (key : string) (value : JS.value)
| setExtra (key : string) (extra : value)
| addBreadcrumb (breadcrumb : value)
| clearBreadcrumbs
| setContext (key : string) (context : value)
| closeNativeSdk
| disableNativeFramesTracking.

(** The native side: what each call answers.  [Ok v] is a call that returns
    [v] or whose promise resolves with [v]; [Err e] one that throws or whose
    promise rejects. *)
Definition Handler : Type := Call -> Result value.

End Native.

Module Bridge.
Import JS.

(** The mutable fields of [NATIVE]. *)
Record Wrapper : Type := {
  enableNative : bool;
  nativeIsReady : value;
  platform : string
}.

Definition with_enableNative (b : bool) (w : Wrapper) : Wrapper :=
  {| enableNative := b; nativeIsReady := nativeIsReady w; platform := platform w |}.

Definition with_nativeIsReady (v : value) (w : Wrapper) : Wrapper :=
  {| enableNative := enableNative w; nativeIsReady := v; platform := platform w |}.

(** The fields as the object literal initialises them, on a given platform. *)
Definition initial (os : string) : Wrapper :=
  {| enableNative := true; nativeIsReady := VBool false; platform := os |}.

(** A method body. *)
Inductive Prog (A : Type) : Type :=
| Return (a : A)
| Throw (e : Error)
| This (k : Wrapper -> Prog A)                       (* read the fields *)
| SetEnableNative (b : bool) (k : Prog A)            (* this.enableNative = b *)
| SetNativeIsReady (v : value) (k : Prog A)          (* this.nativeIsReady = v *)
| Call (c : Native.Call) (k : Result value -> Prog A) (* RNSentry.c(...), and its reply *)
| Warn (msg : string) (k : Prog A).                  (* logger.warn(msg) *)
Arguments Return {A} a.
Arguments Throw {A} e.
Arguments This {A} k.
Arguments SetEnableNative {A} b k.
Arguments SetNativeIsReady {A} v k.
Arguments Call {A} c k.
Arguments Warn {A} msg k.

Fixpoint bind {A B} (p : Prog A) (f : A -> Prog B) : Prog B :=
  match p with
  | Return a => f a
  | Throw e => Throw e
  | This k => This (fun w => bind (k w) f)
  | SetEnableNative b k => SetEnableNative b (bind k f)
  | SetNativeIsReady v k => SetNativeIsReady v (bind k f)
  | Call c k => Call c (fun r => bind (k r) f)
  | Warn msg k => Warn msg (bind k f)
  end.

Notation "x <- p ;; q" := (bind p (fun x => q))
  (at level 61, p at next level, right associativity).

(** A call whose failure is the caller's failure: [await RNSentry.c(...)], or
    a plain [RNSentry.c(...)]. *)
Definition await (c : Native.Call) : Prog value :=
  Call c (fun r => match r with Ok v => Return v | Err e => Throw e end).

(** A pure computation that may throw. *)
Definition lift {A} (r : Result A) : Prog A :=
  match r with
  | Ok a => Return a
  | Err e => Throw e
  end.

(** What an observer sees of an execution, in order. *)
Inductive Event : Type :=
| ECall (c : Native.Call) (reply : Result value)
| ESetEnableNative (b : bool)
| ESetNativeIsReady (v : value)
| EWarn (msg : string).

(** *** Small steps *)

(** One step of a method body.  The native side may answer a call with any
    reply. *)
Inductive step {A : Type} : Prog A * Wrapper -> list Event -> Prog A * Wrapper -> Prop :=
| step_this k w :
    step (This k, w) [] (k w, w)
| step_enable b k w :
    step (SetEnableNative b k, w) [ESetEnableNative b] (k, with_enableNative b w)
| step_ready v k w :
    step (SetNativeIsReady v k, w) [ESetNativeIsReady v] (k, with_nativeIsReady v w)
| step_call c k r w :
    step (Call c k, w) [ECall c r] (k r, w)
| step_warn msg k w :
    step (Warn msg k, w) [EWarn msg] (k, w).

Inductive steps {A : Type} : Prog A * Wrapper -> list Event -> Prog A * Wrapper -> Prop :=
| steps_refl cfg : steps cfg [] cfg
| steps_step cfg1 t1 cfg2 t2 cfg3 :
    step cfg1 t1 cfg2 -> steps cfg2 t2 cfg3 -> steps cfg1 (t1 ++ t2) cfg3.

(** *** Running against a native module *)

(** The whole execution against the module [m]: the outcome, the final fields
    and the trace. *)
Fixpoint run {A} (m : Native.Handler) (p : Prog A) (w : Wrapper)
  : Result A * Wrapper * list Event :=
  match p with
  | Return a => (Ok a, w, [])
  | Throw e => (Err e, w, [])
  | This k => run m (k w) w
  | SetEnableNative b k =>
      let '(r, w', t) := run m k (with_enableNative b w) in
      (r, w', ESetEnableNative b :: t)
  | SetNativeIsReady v k =>
      let '(r, w', t) := run m k (with_nativeIsReady v w) in
      (r, w', ESetNativeIsReady v :: t)
  | Call c k =>
      let '(r, w', t) := run m (k (m c)) w in
      (r, w', ECall c (m c) :: t)
  | Warn msg k =>
      let '(r, w', t) := run m k w in
      (r, w', EWarn msg :: t)
  end.

(** [NativeModules.RNSentry]: the module, or [undefined].  Calling a method
    of [undefined] is a [TypeError]. *)
Definition exec {A} (RNSentry : option Native.Handler) (p : Prog A) (w : Wrapper)
  : Result A * Wrapper * list Event :=
  run (match RNSentry with
       | Some m => m
       | None => fun _ => Err TypeError
       end) p w.

Definition outcome {A} (x : Result A * Wrapper * list Event) : Result A := fst (fst x).
Definition final {A} (x : Result A * Wrapper * list Event) : Wrapper := snd (fst x).
Definition trace {A} (x : Result A * Wrapper * list Event) : list Event := snd x.

(** The leaf an execution ends in. *)
Definition leaf {A} (r : Result A) : Prog A :=
  match r with
  | Ok a => Return a
  | Err e => Throw e
  end.

(** A method body that never assigns [true] to [enableNative]. *)
Inductive clearsOnly {A : Type} : Prog A -> Prop :=
| co_return a : clearsOnly (Return a)
| co_throw e : clearsOnly (Throw e)
| co_this k : (forall w, clearsOnly (k w)) -> clearsOnly (This k)
| co_enable k : clearsOnly k -> clearsOnly (SetEnableNative false k)
| co_ready v k : clearsOnly k -> clearsOnly (SetNativeIsReady v k)
| co_call c k : (forall r, clearsOnly (k r)) -> clearsOnly (Call c k)
| co_warn msg k : clearsOnly k -> clearsOnly (Warn msg k).

(** The native calls of a trace. *)
Definition calls (t : list Event) : list Native.Call :=
  flat_map (fun e => match e with ECall c _ => [c] | _ => [] end) t.

End Bridge.

(** ** The wrapper's methods *)

(** Modelled from the spec: the members of the [Severity] enum of
    [@sentry/types], which is not under [src/].  It is a string enum; the
    spec names its members [critical], [log], [fatal] and [debug]. *)
Module Severity.
Definition Fatal : string := "fatal".
Definition Critical : string := "critical".
Definition Log : string := "log".
Definition Debug : string := "debug".
End Severity.

Module NATIVE.
Import JS Bridge.

(** [v === s] for a string constant [s]. *)
Definition strict_eq_string (v : value) (s : string) : bool :=
  match v with
  | VStr t => String.eqb t s
  | _ => false
  end.

(** [_processLevel(level)] *)
Definition _processLevel (level : value) : value :=
  if strict_eq_string level Severity.Critical then VStr Severity.Fatal
  else if strict_eq_string level Severity.Log then VStr Severity.Debug
  else level.

(** [x.level ? this._processLevel(x.level) : undefined] *)
Definition processedLevel (level : value) : value :=
  if truthy level then _processLevel level else VUndefined.

(** The callback of [event.breadcrumbs?.map(...)]:
    [{ ...breadcrumb, level: breadcrumb.level ? ... : undefined }]. *)
Definition processBreadcrumb (breadcrumb : value) : Result value :=
  rbind (getProp breadcrumb "level") (fun level =>
  Ok (VObj (assign (ownProps breadcrumb) [("level", processedLevel level)]))).

(** [event.breadcrumbs?.map(...)]: [undefined] when there is no list, a
    [TypeError] on a value that has no [map]. *)
Definition processBreadcrumbs (breadcrumbs : value) : Result value :=
  match breadcrumbs with
  | VUndefined | VNull => Ok VUndefined
  | VArr l => rbind (rmap processBreadcrumb l) (fun l' => Ok (VArr l'))
  | _ => Err TypeError
  end.

(** [_processLevels(event)] *)
Definition _processLevels (event : Obj) : Result Obj :=
  let level := processedLevel (prop event "level") in
  rbind (processBreadcrumbs (prop event "breadcrumbs")) (fun breadcrumbs =>
  Ok (assign event [("level", level); ("breadcrumbs", breadcrumbs)])).

(** [typeof value === 'string' ? value : JSON.stringify(value)] *)
Definition stringified (value : JS.value) : JS.value :=
  if is_string value then value else JSON.stringify value.

(** [_serializeObject(data)].  The assignment [serialized[dataKey] = ...]
    is modelled by [set], which is what it does for every key other than
    [__proto__]: for an own key of that name the assignment reaches the
    setter of the prototype and creates no property.  What is stated of every
    key of an object at once (the keys are kept, a string stays as it is)
    assumes that the object has no such key. *)
Definition _serializeObject (data : Obj) : Obj :=
  fold_left
    (fun serialized dataKey =>
       let value := prop data dataKey in
       set serialized dataKey (stringified value))
    (keys data) [].

(** [_isModuleLoaded(module)]: [!!module]. *)
Definition _isModuleLoaded (module : option Native.Handler) : bool :=
  match module with
  | Some _ => true
  | None => false
  end.

(** *** The parts of [sendEvent] *)

(** [{ event_id: event.event_id, sdk: event.sdk }] *)
Definition header (event : Obj) : Obj :=
  literal [("event_id", prop event "event_id"); ("sdk", prop event "sdk")].

(** [event.exception?.values?.[0]?.mechanism?.handled] *)
Definition handled (event : Obj) : value :=
  optProp (optProp (optProp (optProp (prop event "exception") "values") "0")
                   "mechanism") "handled".

(** The Android branch's
    [if (handled != false && event.breadcrumbs) { event.breadcrumbs = []; }] *)
Definition clearing (event : Obj) : bool :=
  (loose_ne_false (handled event) && truthy (prop event "breadcrumbs"))%bool.

Definition clearBreadcrumbsUnlessCrash (event : Obj) : Obj :=
  if clearing event then set event "breadcrumbs" (VArr []) else event.

(** [{ ...event, message: { message: event.message } }] *)
Definition wrapMessage (event : Obj) : Obj :=
  assign event [("message", VObj (literal [("message", prop event "message")]))].

(** The payload of the Android branch and of the iOS branch, before it is
    written out. *)
Definition androidPayload (event : Obj) : Obj :=
  wrapMessage (clearBreadcrumbsUnlessCrash event).

Definition iosPayload (event : Obj) : Obj := wrapMessage event.

(** [{ content_type: 'application/json', length, type: payload.type ?? 'event' }] *)
Definition item (payload : Obj) (length : value) : Obj :=
  literal [("content_type", VStr "application/json");
           ("length", length);
           ("type", nullish (prop payload "type") (VStr "event"))].

Definition newline : string := String "010"%char EmptyString.

(** The template [`${headerString}\n${itemString}\n${payloadString}`]. *)
Definition envelopeString (headerString itemString payloadString : value) : value :=
  VStr (ToString headerString ++ newline ++ ToString itemString ++ newline
        ++ ToString payloadString)%string.

Definition skipped : value :=
  VObj (literal [("reason", VStr "Event was skipped as native SDK is not enabled.");
                 ("status", VStr "skipped")]).

Definition response (envelopeWasSent : value) : value :=
  if truthy envelopeWasSent
  then VObj (literal [("status", VStr "success")])
  else VObj (literal [("status", VStr "failed")]).

(** The Android branch, from the event whose levels are processed and whose
    [sdkProcessingMetadata] is deleted. *)
Definition sendAndroid (event : Obj) : Prog value :=
  let headerString := JSON.stringify (VObj (header event)) in
  let payload := androidPayload event in
  let payloadString := JSON.stringify (VObj payload) in
  Call (Native.getStringBytesLength payloadString) (fun reply =>
    let length :=
      match reply with
      | Ok n => n
      | Err _ => member payloadString "length"
      end in
    let itemString := JSON.stringify (VObj (item payload length)) in
    await (Native.captureEnvelope
             (envelopeString headerString itemString payloadString))).

(** The iOS and Mac branch. *)
Definition sendIOS (event : Obj) : Prog value :=
  let payload := iosPayload event in
  serializedPayload <- lift (JSON.parse (JSON.stringify (VObj payload))) ;;
  await (Native.captureEnvelope
           (VObj (literal [("header", VObj (header event));
                           ("payload", serializedPayload)]))).

(** [const event = this._processLevels(_event);
    delete event.sdkProcessingMetadata;]: the event both branches start
    from. *)
Definition prepared (_event : Obj) : Result Obj :=
  rbind (_processLevels _event) (fun event =>
  Ok (delete event "sdkProcessingMetadata")).

(** The envelope string of the Android branch, given the reply to
    [getStringBytesLength]. *)
Definition androidEnvelope (event : Obj) (reply : Result value) : value :=
  let payload := androidPayload event in
  let payloadString := JSON.stringify (VObj payload) in
  let length :=
    match reply with
    | Ok n => n
    | Err _ => member payloadString "length"
    end in
  envelopeString (JSON.stringify (VObj (header event)))
                 (JSON.stringify (VObj (item payload length)))
                 payloadString.

(** The envelope object of the iOS branch. *)
Definition iosEnvelope (event : Obj) (serializedPayload : value) : value :=
  VObj (literal [("header", VObj (header event));
                 ("payload", serializedPayload)]).

(** A breadcrumb object whose level is one that [_processLevel] leaves
    alone. *)
Definition hasNativeLevel (breadcrumb : value) : Prop :=
  exists (o : Obj) (level : value),
    breadcrumb = VObj o /\ get o "level" = Some level /\
    truthy level = true /\ _processLevel level = level.

(** *** The parts of [setUser] *)

(** From [const { id, ip_address, email, username, ...otherKeys } = user]:
    [this._serializeObject({ email, id, ip_address, username })]. *)
Definition defaultUserKeys (user : Obj) : Obj :=
  let id := prop user "id" in
  let ip_address := prop user "ip_address" in
  let email := prop user "email" in
  let username := prop user "username" in
  _serializeObject
    (literal [("email", email); ("id", id);
              ("ip_address", ip_address); ("username", username)]).

(** The keys that the destructuring takes out of the user. *)
Definition defaultKeys : list string := ["id"; "ip_address"; "email"; "username"].

(** [this._serializeObject(otherKeys)] *)
Definition otherUserKeys (user : Obj) : Obj :=
  let otherKeys := rest user ["id"; "ip_address"; "email"; "username"] in
  _serializeObject otherKeys.

Section methods.

(** [const RNSentry = NativeModules.RNSentry]: resolved once, when the module
    is loaded. *)
Variable RNSentry : option Native.Handler.

(** [sendEvent(_event)] *)
Definition sendEvent (_event : Obj) : Prog value :=
  This (fun this =>
    if negb (enableNative this) then Return skipped
    else if negb (_isModuleLoaded RNSentry) then Throw NativeClientError
    else
      event <- lift (_processLevels _event) ;;
      let event := delete event "sdkProcessingMetadata" in
      envelopeWasSent <-
        (if String.eqb (platform this) "android"
         then sendAndroid event
         else sendIOS event) ;;
      Return (response envelopeWasSent)).

Definition warnIf (condition : value) (msg : string) (k : Prog value) : Prog value :=
  if truthy condition then Warn msg k else k.

(** [initNativeSdk(originalOptions)] *)
Definition initNativeSdk (originalOptions : Obj) : Prog value :=
  let options :=
    assign (literal [("enableNative", VBool true);
                     ("autoInitializeNativeSdk", VBool true)])
           originalOptions in
  if negb (truthy (prop options "enableNative")) then
    warnIf (prop options "enableNativeNagger")
      "Note: Native Sentry SDK is disabled."
      (SetEnableNative false (Return (VBool false)))
  else if negb (truthy (prop options "autoInitializeNativeSdk")) then
    warnIf (prop options "enableNativeNagger")
      "Note: Native Sentry SDK was not initialized automatically, you will need to initialize it manually. If you wish to disable the native SDK and get rid of this warning, pass enableNative: false"
      (Return (VBool false))
  else if negb (truthy (prop options "dsn")) then
    Warn "Warning: No DSN was provided. The Sentry SDK will be disabled. Native SDK will also not be initalized."
      (Return (VBool false))
  else if negb (_isModuleLoaded RNSentry) then Throw NativeClientError
  else
    let filteredOptions :=
      rest options ["beforeSend"; "beforeBreadcrumb"; "integrations";
                    "defaultIntegrations"; "transport"] in
    nativeIsReady <- await (Native.initNativeSdk (VObj filteredOptions)) ;;
    SetNativeIsReady nativeIsReady (Return nativeIsReady).

(** The two guards of the [fetchNative...] methods. *)
Definition fetching (body : Wrapper -> Prog value) : Prog value :=
  This (fun this =>
    if negb (enableNative this) then Throw DisabledNativeError
    else if negb (_isModuleLoaded RNSentry) then Throw NativeClientError
    else body this).

(** [fetchNativeRelease()] *)
Definition fetchNativeRelease : Prog value :=
  fetching (fun _ => await Native.fetchNativeRelease).

(** [fetchNativeSdkInfo()] *)
Definition fetchNativeSdkInfo : Prog value :=
  fetching (fun this =>
    if negb (String.eqb (platform this) "ios") then Return VNull
    else await Native.fetchNativeSdkInfo).

(** [fetchNativeDeviceContexts()] *)
Definition fetchNativeDeviceContexts : Prog value :=
  fetching (fun this =>
    if negb (String.eqb (platform this) "ios") then Return (VObj [])
    else await Native.fetchNativeDeviceContexts).

(** [fetchNativeAppStart()] *)
Definition fetchNativeAppStart : Prog value :=
  fetching (fun _ => await Native.fetchNativeAppStart).

(** [fetchNativeFrames()] *)
Definition fetchNativeFrames : Prog value :=
  fetching (fun _ => await Native.fetchNativeFrames).

(** The two guards of the scope methods and of [nativeCrash]. *)
Definition forwarding (body : Prog value) : Prog value :=
  This (fun this =>
    if negb (enableNative this) then Return VUndefined
    else if negb (_isModuleLoaded RNSentry) then Throw NativeClientError
    else body).

(** A call made for its effect: the method returns [undefined]. *)
Definition forward (c : Native.Call) : Prog value :=
  _ <- await c ;; Return VUndefined.

(** [nativeCrash()] *)
Definition nativeCrash : Prog value :=
  forwarding (forward Native.crash).

(** [setUser(user)]; [None] is [null]. *)
Definition setUser (user : option Obj) : Prog value :=
  forwarding
    (match user with
     | Some user =>
         forward (Native.setUser (VObj (defaultUserKeys user))
                                 (VObj (otherUserKeys user)))
     | None => forward (Native.setUser VNull VNull)
     end).

(** [setTag(key, value)] *)
Definition setTag (key : string) (value : JS.value) : Prog JS.value :=
  forwarding (forward (Native.setTag key (stringified value))).

(** [setExtra(key, extra)] *)
Definition setExtra (key : string) (extra : value) : Prog value :=
  forwarding (forward (Native.setExtra key (stringified extra))).

(** [addBreadcrumb(breadcrumb)] *)
Definition addBreadcrumb (breadcrumb : Obj) : Prog value :=
  forwarding
    (let level := processedLevel (prop breadcrumb "level") in
     let data :=
       if truthy (prop breadcrumb "data")
       then VObj (_serializeObject (ownProps (prop breadcrumb "data")))
       else VUndefined in
     forward (Native.addBreadcrumb
                (VObj (assign breadcrumb [("level", level); ("data", data)])))).

(** [clearBreadcrumbs()] *)
Definition clearBreadcrumbs : Prog value :=
  forwarding (forward Native.clearBreadcrumbs).

(** [setContext(key, context)]; [None] is [null]. *)
Definition setContext (key : string) (context : option Obj) : Prog value :=
  forwarding
    (forward (Native.setContext key
                (match context with
                 | Some context => VObj (_serializeObject context)
                 | None => VNull
                 end))).

(** [closeNativeSdk()]: the flag is cleared in the [then] callback. *)
Definition closeNativeSdk : Prog value :=
  This (fun this =>
    if negb (enableNative this) then Return VUndefined
    else if negb (_isModuleLoaded RNSentry) then Return VUndefined
    else
      Call Native.closeNativeSdk (fun reply =>
        match reply with
        | Ok _ => SetEnableNative false (Return VUndefined)
        | Err e => Throw e
        end)).

(** [disableNativeFramesTracking()] *)
Definition disableNativeFramesTracking : Prog value :=
  This (fun this =>
    if negb (enableNative this) then Return VUndefined
    else if negb (_isModuleLoaded RNSentry) then Return VUndefined
    else forward Native.disableNativeFramesTracking).

(** [isNativeTransportAvailable()] *)
Definition isNativeTransportAvailable : Prog value :=
  This (fun this =>
    Return (VBool (enableNative this && _isModuleLoaded RNSentry))).

(** A call of a method of the wrapper. *)
Inductive Method : Type :=
| SendEvent (_event : Obj)
| InitNativeSdk (originalOptions : Obj)
| FetchNativeRelease
| FetchNativeSdkInfo
| FetchNativeDeviceContexts
| FetchNativeAppStart
| FetchNativeFrames
| NativeCrash
| SetUser (user : option Obj)
| SetTag (key : string) (value : JS.value)
| SetExtra (key : string) (extra : value)
| AddBreadcrumb (breadcrumb : Obj)
| ClearBreadcrumbs
| SetContext (key : string) (context : option Obj)
| CloseNativeSdk
| DisableNativeFramesTracking
| IsNativeTransportAvailable.

Definition invoke (method : Method) : Prog value :=
  match method with
  | SendEvent e => sendEvent e
  | InitNativeSdk o => initNativeSdk o
  | FetchNativeRelease => fetchNativeRelease
  | FetchNativeSdkInfo => fetchNativeSdkInfo
  | FetchNativeDeviceContexts => fetchNativeDeviceContexts
  | FetchNativeAppStart => fetchNativeAppStart
  | FetchNativeFrames => fetchNativeFrames
  | NativeCrash => nativeCrash
  | SetUser u => setUser u
  | SetTag k v => setTag k v
  | SetExtra k v => setExtra k v
  | AddBreadcrumb b => addBreadcrumb b
  | ClearBreadcrumbs => clearBreadcrumbs
  | SetContext k c => setContext k c
  | CloseNativeSdk => closeNativeSdk
  | DisableNativeFramesTracking => disableNativeFramesTracking
  | IsNativeTransportAvailable => isNativeTransportAvailable
  end.

End methods.

(** *** The gate, method by method *)

(** The methods that test [enableNative] first: every method but
    [initNativeSdk], which tests the option of that name, and
    [isNativeTransportAvailable], which reports the gate. *)
Definition gated (method : Method) : bool :=
  match method with
  | InitNativeSdk _ | IsNativeTransportAvailable => false
  | _ => true
  end.

(** The platform-conditional reads. *)
Definition is_fetch (method : Method) : bool :=
  match method with
  | FetchNativeRelease | FetchNativeSdkInfo | FetchNativeDeviceContexts
  | FetchNativeAppStart | FetchNativeFrames => true
  | _ => false
  end.

(** The two methods that return when the module is absent. *)
Definition is_shutdown (method : Method) : bool :=
  match method with
  | CloseNativeSdk | DisableNativeFramesTracking => true
  | _ => false
  end.

(** The options for which [initNativeSdk] goes on to start native: native
    enabled, automatic initialisation, and a DSN. *)
Definition startsNative (originalOptions : Obj) : bool :=
  let options :=
    assign (literal [("enableNative", VBool true);
                     ("autoInitializeNativeSdk", VBool true)])
           originalOptions in
  (truthy (prop options "enableNative")
   && truthy (prop options "autoInitializeNativeSdk")
   && truthy (prop options "dsn"))%bool.

(** What a gated method does while native is disabled. *)
Definition whenDisabled (method : Method) : Result value :=
  match method with
  | SendEvent _ => Ok skipped
  | FetchNativeRelease | FetchNativeSdkInfo | FetchNativeDeviceContexts
  | FetchNativeAppStart | FetchNativeFrames => Err DisabledNativeError
  | _ => Ok VUndefined
  end.

(** What a gated method does while native is enabled and the module is
    absent. *)
Definition whenUnavailable (method : Method) : Result value :=
  match method with
  | CloseNativeSdk | DisableNativeFramesTracking => Ok VUndefined
  | _ => Err NativeClientError
  end.

End NATIVE.

(** ** Sample inputs *)

Module Samples.
Import JS Bridge NATIVE.

(** A native module that accepts everything. *)
Definition accepting : Native.Handler :=
  fun c =>
    match c with
    | Native.getStringBytesLength s => Ok (member s "length")
    | _ => Ok (VBool true)
    end.

Definition android : Wrapper := initial "android".
Definition ios : Wrapper := initial "ios".
Definition disabled : Wrapper := with_enableNative false ios.

Definition crumb (level : string) : value :=
  VObj [("category", VStr "touch"); ("level", VStr level);
        ("message", VStr "Touch event within element: Button")].

Definition exceptionHandled (flag : value) : value :=
  VObj [("values",
         VArr [VObj [("type", VStr "Error");
                     ("mechanism", VObj [("type", VStr "generic");
                                         ("handled", flag)])]])].

(** An event with one breadcrumb of the given level and an exception whose
    mechanism has the given [handled] flag. *)
Definition eventWith (flag : value) (level : string) : Obj :=
  [("event_id", VStr "abc123");
   ("level", VStr "error");
   ("exception", exceptionHandled flag);
   ("breadcrumbs", VArr [crumb level]);
   ("message", VStr "boom");
   ("sdk", VObj [("name", VStr "sentry.javascript.react-native")]);
   ("sdkProcessingMetadata", VObj [("internal", VBool true)])].

(** The same event, with no [handled] flag in its mechanism. *)
Definition eventUnflagged (level : string) : Obj :=
  [("event_id", VStr "abc123");
   ("level", VStr "error");
   ("exception",
    VObj [("values",
           VArr [VObj [("type", VStr "Error");
                       ("mechanism", VObj [("type", VStr "generic")])]])]);
   ("breadcrumbs", VArr [crumb level]);
   ("message", VStr "boom");
   ("sdk", VObj [("name", VStr "sentry.javascript.react-native")])].

(** The event as both branches of [sendEvent] start from it. *)
Definition preparedOf (_event : Obj) : Obj :=
  match prepared _event with
  | Ok event => event
  | Err _ => []
  end.

(** The breadcrumbs of a payload text. *)
Definition breadcrumbsOfText (payloadString : value) : Result value :=
  rbind (JSON.parse payloadString) (fun payload =>
  Ok (member payload "breadcrumbs")).

Definition fullUser : Obj :=
  [("id", VStr "1"); ("email", VStr "e@x.com"); ("ip_address", VStr "1.2.3.4");
   ("username", VStr "u"); ("plan", VStr "pro")].

Definition partialUser : Obj :=
  [("email", VStr "e@x.com"); ("plan", VNum 3)].

Definition options : Obj :=
  [("dsn", VStr "https://key@sentry.example/1"); ("beforeSend", VNull)].

End Samples.

(** ** Sequences of calls *)

Module Sessions.
Import JS Bridge NATIVE.

(** The method bodies run one after the other against the module [m], each
    from the fields the one before left: the outcomes, the final fields and
    the whole trace. *)
Fixpoint runAll (m : Native.Handler) (ps : list (Prog value)) (w : Wrapper)
  : list (Result value) * Wrapper * list Event :=
  match ps with
  | [] => ([], w, [])
  | p :: ps' =>
      let '(r, w1, t1) := run m p w in
      let '(rs, w2, t2) := runAll m ps' w1 in
      (r :: rs, w2, t1 ++ t2)
  end.

Definition sessionOutcomes (x : list (Result value) * Wrapper * list Event)
  : list (Result value) := fst (fst x).
Definition sessionFinal (x : list (Result value) * Wrapper * list Event)
  : Wrapper := snd (fst x).
Definition sessionTrace (x : list (Result value) * Wrapper * list Event)
  : list Event := snd x.

(** The scope mutations. *)
Definition is_scope (method : Method) : bool :=
  match method with
  | SetUser _ | SetTag _ _ | SetExtra _ _ | AddBreadcrumb _
  | ClearBreadcrumbs | SetContext _ _ => true
  | _ => false
  end.

(** The option keys that [initNativeSdk] keeps from the native side. *)
Definition filteredKeys : list string :=
  ["beforeSend"; "beforeBreadcrumb"; "integrations"; "defaultIntegrations";
   "transport"].

(** The options that [initNativeSdk] hands to the native side. *)
Definition filteredOptions (originalOptions : Obj) : Obj :=
  rest (assign (literal [("enableNative", VBool true);
                         ("autoInitializeNativeSdk", VBool true)])
               originalOptions)
       filteredKeys.

(** The number of line feeds in a string. *)
Definition lineFeeds (s : string) : nat :=
  count_occ ascii_dec (chars s) "010"%char.

End Sessions.

(** ** The touch event boundary ([TouchEventBoundary]) *)

Module Touch.
Import JS.

(** An entry of [ignoreNames]: a string, or a regular expression, which is
    modelled by the names in which [name.match] finds it. *)
Inductive IgnoreName : Type :=
| Name (s : string)
| Pattern (matches : string -> bool).

(** A JavaScript number, for [maxComponentTreeSize]: a fraction (every
    finite number is one), an infinity or [NaN]. *)
Inductive Number : Type :=
| Finite (q : QArith_base.Q)
| Infinity (negative : bool)
| NaN.

(** A whole number. *)
Definition whole (z : Z) : Number := Finite (QArith_base.inject_Z z).

(** [ToBoolean] of a number: neither zero nor [NaN]. *)
Definition nonZero (n : Number) : bool :=
  match n with
  | Finite q => negb (QArith_base.Qeq_bool q (QArith_base.inject_Z 0))
  | Infinity _ => true
  | NaN => false
  end.

(** [length < n], for the length of an array. *)
Definition lengthBelow (length : nat) (n : Number) : bool :=
  match n with
  | Finite q =>
      negb (QArith_base.Qle_bool q (QArith_base.inject_Z (Z.of_nat length)))
  | Infinity negative => negb negative
  | NaN => false
  end.

(** [TouchEventBoundaryProps]; [None] is a property that is not given. *)
Record Props : Type := {
  breadcrumbCategory : option string;
  breadcrumbType : option string;
  maxComponentTreeSize : option Number;
  ignoreNames : option (list IgnoreName);
  ignoredDisplayNames : option (list IgnoreName)
}.

Definition DEFAULT_BREADCRUMB_CATEGORY : string := "touch".
Definition DEFAULT_BREADCRUMB_TYPE : string := "user".
Definition DEFAULT_MAX_COMPONENT_TREE_SIZE : Z := 20.
Definition PROP_KEY : string := "sentry-label".

(** [TouchEventBoundary.displayName] *)
Definition boundaryName : string := "__Sentry.TouchEventBoundary".

(** [TouchEventBoundary.defaultProps] *)
Definition defaultProps : Props :=
  {| breadcrumbCategory := Some DEFAULT_BREADCRUMB_CATEGORY;
     breadcrumbType := Some DEFAULT_BREADCRUMB_TYPE;
     maxComponentTreeSize := Some (whole DEFAULT_MAX_COMPONENT_TREE_SIZE);
     ignoreNames := Some [];
     ignoredDisplayNames := None |}.

(** [ElementInstance], without its [return] link: an instance and the
    instances reached through [return] are a list, the touched one first. *)
Record ElementType : Type := {
  displayName : option string;
  name : option string
}.

Record ElementInstance : Type := {
  elementType : option ElementType;
  memoizedProps : option Obj
}.

(** A string that is not falsy. *)
Definition nonEmpty (s : string) : bool := negb (String.eqb s EmptyString).

(** [!x] for [x: string | undefined]. *)
Definition unset (x : option string) : bool :=
  match x with
  | Some s => String.eqb s EmptyString
  | None => true
  end.

(** One entry of [ignoreNames] against a name. *)
Definition ignores (name : string) (ignoreName : IgnoreName) : bool :=
  match ignoreName with
  | Name s => String.eqb name s
  | Pattern matches => matches name
  end.


(** [_isNameIgnored(name)] *)
Definition _isNameIgnored (props : Props) (name : string) : bool :=
  let ignoreNames :=
    match ignoreNames props with
    | Some l => l
    | None => []
    end in
  let ignoreNames :=
    match ignoredDisplayNames props with
    | Some l => ignoreNames ++ l
    | None => ignoreNames
    end in
  existsb (ignores name) ignoreNames.

(** [props?.[key]] *)
Definition propOf (props : option Obj) (key : string) : value :=
  match props with
  | Some o => prop o key
  | None => VUndefined
  end.

(** The label of an instance: its [sentry-label] property as a string, when
    it has one. *)
Definition labelOf (props : option Obj) : option string :=
  match propOf props PROP_KEY with
  | VUndefined => None
  | x => Some (ToString x)
  end.

(** The variables of the loop of [_onTouchStart]. *)
Record Walk : Type := {
  activeLabel : option string;
  activeDisplayName : option string;
  componentTreeNames : list string
}.

(** The variables as the loop finds them. *)
Definition start : Walk :=
  {| activeLabel := None; activeDisplayName := None; componentTreeNames := [] |}.

(** [if (!active) { active = name; }] *)
Definition firstOf (active : option string) (name : string) : option string :=
  if unset active then Some name else active.

(** [if (!activeLabel) { activeLabel = name; } componentTreeNames.push(name);] *)
Definition pushLabel (s : Walk) (name : string) : Walk :=
  {| activeLabel := firstOf (activeLabel s) name;
     activeDisplayName := activeDisplayName s;
     componentTreeNames := componentTreeNames s ++ [name] |}.

(** The same, for [activeDisplayName]. *)
Definition pushDisplayName (s : Walk) (name : string) : Walk :=
  {| activeLabel := activeLabel s;
     activeDisplayName := firstOf (activeDisplayName s) name;
     componentTreeNames := componentTreeNames s ++ [name] |}.

(** The last branch of the loop body: [else if (currentInst.elementType)]. *)
Definition byDisplayName (props : Props) (currentInst : ElementInstance)
    (s : Walk) : Walk :=
  match elementType currentInst with
  | Some elementType =>
      match displayName elementType with
      | Some d =>
          if (nonEmpty d && negb (_isNameIgnored props d))%bool
          then pushDisplayName s d
          else s
      | None => s
      end
  | None => s
  end.

(** The middle branch: [else if (typeof props?.accessibilityLabel ===
    'string' && !this._isNameIgnored(props.accessibilityLabel))]. *)
Definition byAccessibilityLabel (props : Props) (currentInst : ElementInstance)
    (s : Walk) : Walk :=
  match propOf (memoizedProps currentInst) "accessibilityLabel" with
  | VStr a =>
      if negb (_isNameIgnored props a) then pushLabel s a
      else byDisplayName props currentInst s
  | _ => byDisplayName props currentInst s
  end.

(** The loop body on one instance, after the test for the boundary: the
    label first. *)
Definition body (props : Props) (currentInst : ElementInstance) (s : Walk) : Walk :=
  match labelOf (memoizedProps currentInst) with
  | Some l =>
      if (nonEmpty l && negb (_isNameIgnored props l))%bool
      then pushLabel s l
      else byAccessibilityLabel props currentInst s
  | None => byAccessibilityLabel props currentInst s
  end.

(** The condition of the loop, for an instance that exists:
    [this.props.maxComponentTreeSize &&
     componentTreeNames.length < this.props.maxComponentTreeSize]. *)
Definition room (props : Props) (s : Walk) : bool :=
  match maxComponentTreeSize props with
  | Some n =>
      (nonZero n && lengthBelow (List.length (componentTreeNames s)) n)%bool
  | None => false
  end.

(** [currentInst.elementType?.displayName === TouchEventBoundary.displayName] *)
Definition isBoundary (currentInst : ElementInstance) : bool :=
  match elementType currentInst with
  | Some elementType =>
      match displayName elementType with
      | Some d => String.eqb d boundaryName
      | None => false
      end
  | None => false
  end.

(** The loop of [_onTouchStart]. *)
Fixpoint walk (props : Props) (chain : list ElementInstance) (s : Walk) : Walk :=
  match chain with
  | [] => s
  | currentInst :: outer =>
      if negb (room props s) then s
      else if isBoundary currentInst then s
      else walk props outer (body props currentInst s)
  end.

(** What one turn of the loop does to the variables: nothing, or it pushes
    one name that is not ignored. *)
Inductive Pushed (props : Props) (s : Walk) : Walk -> Prop :=
| pushed_none : Pushed props s s
| pushed_label name :
    _isNameIgnored props name = false -> Pushed props s (pushLabel s name)
| pushed_display name :
    _isNameIgnored props name = false -> Pushed props s (pushDisplayName s name).

(** What the loop keeps: no name of the tree is ignored, the tree had room
    for its last name (its length less one was below the limit), and the two
    active names are names of the tree. *)
Record Kept (props : Props) (s : Walk) : Prop := {
  kept_names : Forall (fun x => _isNameIgnored props x = false) (componentTreeNames s);
  kept_size :
    componentTreeNames s = [] \/
    exists n, maxComponentTreeSize props = Some n /\
              lengthBelow (List.length (componentTreeNames s) - 1) n = true;
  kept_label : forall l, activeLabel s = Some l -> In l (componentTreeNames s);
  kept_display : forall d, activeDisplayName s = Some d -> In d (componentTreeNames s)
}.

(** What [_logTouchEvent] does: the breadcrumb it adds and the line it
    logs. *)
Record Logged : Type := {
  crumb : Obj;
  logLine : string
}.

Definition optString (x : option string) : value :=
  match x with
  | Some s => VStr s
  | None => VUndefined
  end.

Section logging.

(** [Severity.Info], of [@sentry/types]. *)
Variable Info : string.

(** [_logTouchEvent(componentTreeNames, activeLabel)] *)
Definition _logTouchEvent (props : Props) (componentTreeNames : list string)
    (activeLabel : option string) : Logged :=
  let message :=
    if unset activeLabel
    then "Touch event within component tree"
    else ("Touch event within element: "
          ++ match activeLabel with Some l => l | None => EmptyString end)%string in
  let crumb :=
    literal [("category", optString (breadcrumbCategory props));
             ("data", VObj (literal [("componentTree",
                                      VArr (map VStr componentTreeNames))]));
             ("level", VStr Info);
             ("message", VStr message);
             ("type", optString (breadcrumbType props))] in
  {| crumb := crumb; logLine := ("[TouchEvents] " ++ message)%string |}.

(** [_onTouchStart(e)]; the argument is [e._targetInst] with the instances
    above it, the empty list when there is no target.  [None]: nothing is
    logged. *)
Definition _onTouchStart (props : Props) (target : list ElementInstance)
  : option Logged :=
  match target with
  | [] => None
  | _ :: _ =>
      let s := walk props target start in
      let finalLabel :=
        match activeLabel s with
        | Some l => Some l
        | None => activeDisplayName s
        end in
      if (Nat.ltb 0 (List.length (componentTreeNames s))
          || negb (unset finalLabel))%bool
      then Some (_logTouchEvent props (componentTreeNames s) finalLabel)
      else None
  end.

End logging.

End Touch.

(** ** More sample inputs *)

Module Examples.
Import JS Bridge NATIVE Touch.

(** A native module that rejects every call. *)
Definition rejecting : Native.Handler :=
  fun _ => Err (Rejection (VStr "native failure")).

(** A native module whose [getStringBytesLength] rejects and that accepts
    everything else. *)
Definition lengthless : Native.Handler :=
  fun c =>
    match c with
    | Native.getStringBytesLength _ => Err (Rejection (VStr "no length"))
    | _ => Ok (VBool true)
    end.

Definition disabledOptions : Obj :=
  [("dsn", VStr "https://key@sentry.example/1"); ("enableNative", VBool false);
   ("enableNativeNagger", VBool true)].

Definition fullOptions : Obj :=
  [("dsn", VStr "https://key@sentry.example/1"); ("beforeSend", VNull);
   ("release", VStr "1.0.0"); ("transport", VNull)].



Definition richCrumb : Obj :=
  [("category", VStr "touch"); ("level", VStr "log");
   ("data", VObj [("componentTree", VArr [VStr "Button"; VStr "Screen"])])].

Definition named (d : string) : ElementInstance :=
  {| elementType := Some {| displayName := Some d; name := None |};
     memoizedProps := None |}.

Definition labelled (l d : string) : ElementInstance :=
  {| elementType := Some {| displayName := Some d; name := None |};
     memoizedProps := Some [("sentry-label", VStr l)] |}.

(** A boundary of the given size that ignores the name [View], by the
    deprecated property. *)
Definition propsOfSize (size : Number) : Props :=
  {| breadcrumbCategory := Some DEFAULT_BREADCRUMB_CATEGORY;
     breadcrumbType := Some DEFAULT_BREADCRUMB_TYPE;
     maxComponentTreeSize := Some size;
     ignoreNames := Some [];
     ignoredDisplayNames := Some [Name "View"] |}.

Definition props : Props := propsOfSize (whole 2).

(** The size [1.5]. *)
Definition oneAndAHalf : Number := Finite (QArith_base.Qmake 3 2).

(** A touched text inside a labelled button inside a view inside a screen,
    within the boundary. *)
Definition inner : list ElementInstance :=
  [named "Text"; labelled "Buy" "Button"; named "View"; named "Screen"].

Definition chain : list ElementInstance :=
  inner ++ [named boundaryName; named "App"].

(** An event of level [critical] whose breadcrumbs have the levels [log]
    and [info], with the given [handled] flag. *)
Definition criticalEvent (flag : value) : Obj :=
  [("event_id", VStr "abc123");
   ("level", VStr "critical");
   ("exception", Samples.exceptionHandled flag);
   ("breadcrumbs", VArr [Samples.crumb "log"; Samples.crumb "info"]);
   ("message", VStr "boom")].

(** An event that has neither a level nor breadcrumbs. *)
Definition bareEvent : Obj :=
  [("event_id", VStr "abc123"); ("message", VStr "boom")].

(** The event as [_processLevels] returns it. *)
Definition processedOf (_event : Obj) : Obj :=
  match _processLevels _event with
  | Ok event => event
  | Err _ => []
  end.

(** What is logged for a touch, or nothing. *)
Definition loggedOf (target : list ElementInstance) : Logged :=
  match _onTouchStart "info" props target with
  | Some out => out
  | None => {| crumb := []; logLine := EmptyString |}
  end.

End Examples.

(** * Properties *)

(** ** Objects *)

Module ObjFacts.
Import JS.

Lemma get_set_same (o : Obj) k v : get (set o k v) k = Some v.
Proof.
  induction o as [|[k' v'] o IH]; simpl.
  - now rewrite String.eqb_refl.
  - destruct (String.eqb k k') eqn:E; simpl; rewrite E; auto.
Qed.

Lemma get_set_other (o : Obj) k k' v :
  k <> k' -> get (set o k v) k' = get o k'.
Proof.
  intros Hne. induction o as [|[k0 v0] o IH]; simpl.
  - destruct (String.eqb_spec k' k); congruence.
  - destruct (String.eqb_spec k k0); simpl.
    + subst. destruct (String.eqb_spec k' k0); congruence.
    + now rewrite IH.
Qed.

Lemma get_set (o : Obj) k k' v :
  get (set o k v) k' = if String.eqb k k' then Some v else get o k'.
Proof.
  destruct (String.eqb_spec k k').
  - subst. apply get_set_same.
  - now apply get_set_other.
Qed.

Lemma get_delete_same (o : Obj) k : get (delete o k) k = None.
Proof.
  induction o as [|[k' v'] o IH]; simpl; auto.
  destruct (String.eqb k k') eqn:E; simpl; rewrite ?E; auto.
Qed.

Lemma get_delete_other (o : Obj) k k' :
  k <> k' -> get (delete o k) k' = get o k'.
Proof.
  intros Hne. induction o as [|[k0 v0] o IH]; simpl; auto.
  destruct (String.eqb_spec k k0); simpl.
  - subst. destruct (String.eqb_spec k' k0); congruence.
  - now rewrite IH.
Qed.

Lemma get_delete (o : Obj) k k' :
  get (delete o k) k' = if String.eqb k k' then None else get o k'.
Proof.
  destruct (String.eqb_spec k k').
  - subst. apply get_delete_same.
  - now apply get_delete_other.
Qed.

Lemma get_None (o : Obj) k : get o k = None <-> ~ In k (keys o).
Proof.
  induction o as [|[k' v'] o IH]; simpl.
  - tauto.
  - destruct (String.eqb_spec k k').
    + subst. split; [discriminate | tauto].
    + rewrite IH. split; [intros H [E | H']; congruence | tauto].
Qed.

Lemma get_Some_In (o : Obj) k : In k (keys o) -> exists v, get o k = Some v.
Proof.
  intros H. destruct (get o k) eqn:E; eauto.
  apply get_None in E. contradiction.
Qed.

Lemma get_In (o : Obj) k v : get o k = Some v -> In (k, v) o.
Proof.
  induction o as [|[k' v'] o IH]; simpl; [discriminate|].
  destruct (String.eqb_spec k k').
  - intros [= ->]. subst. now left.
  - auto.
Qed.

Lemma In_get (o : Obj) k v : NoDup (keys o) -> In (k, v) o -> get o k = Some v.
Proof.
  induction o as [|[k' v'] o IH]; simpl; [tauto|].
  intros Hnd [E | H]; inversion Hnd; subst.
  - inversion E; subst. now rewrite String.eqb_refl.
  - destruct (String.eqb_spec k k'); auto.
    subst. exfalso. apply H2. change k' with (fst (k', v)). now apply in_map.
Qed.

(** A property read of an object is its own property, or [undefined]. *)
Lemma prop_get (o : Obj) k :
  prop o k = match get o k with Some v => v | None => VUndefined end.
Proof.
  unfold prop, member; simpl. destruct (get o k); auto.
  now destruct (String.eqb k "length").
Qed.

Lemma set_absent (o : Obj) k v : ~ In k (keys o) -> set o k v = o ++ [(k, v)].
Proof.
  induction o as [|[k' v'] o IH]; simpl; auto.
  intros H. destruct (String.eqb_spec k k').
  - subst. tauto.
  - rewrite IH; tauto.
Qed.

Lemma keys_set_present (o : Obj) k v : In k (keys o) -> keys (set o k v) = keys o.
Proof.
  induction o as [|[k' v'] o IH]; simpl; [tauto|].
  intros H. destruct (String.eqb_spec k k'); simpl; auto.
  f_equal. apply IH. destruct H; congruence.
Qed.

Lemma keys_set (o : Obj) k v :
  keys (set o k v) = if in_dec string_dec k (keys o) then keys o else keys o ++ [k].
Proof.
  destruct (in_dec string_dec k (keys o)).
  - now apply keys_set_present.
  - rewrite set_absent by assumption. unfold keys. now rewrite map_app.
Qed.

Lemma NoDup_keys_set (o : Obj) k v : NoDup (keys o) -> NoDup (keys (set o k v)).
Proof.
  intros H. rewrite keys_set. destruct (in_dec string_dec k (keys o)); auto.
  apply NoDup_app; auto.
  - repeat constructor. simpl. tauto.
  - intros x Hx [<- | []]. contradiction.
Qed.

Lemma keys_delete (o : Obj) k :
  keys (delete o k) = filter (fun k' => negb (String.eqb k k')) (keys o).
Proof.
  induction o as [|[k' v'] o IH]; simpl; auto.
  destruct (String.eqb k k'); simpl; now rewrite IH.
Qed.

Lemma get_assign (kvs : list (string * value)) : forall (o : Obj) k,
  get (assign o kvs) k =
  match get (rev kvs) k with
  | Some v => Some v
  | None => get o k
  end.
Proof.
  unfold assign. induction kvs as [|[k' v'] kvs IH]; intros o k; simpl; auto.
  rewrite IH. clear IH.
  assert (Happ : forall (a b : Obj),
             get (a ++ b) k = match get a k with Some v => Some v | None => get b k end).
  { induction a as [|[ka va] a IHa]; intros b; simpl; auto.
    destruct (String.eqb k ka); auto. }
  rewrite Happ. destruct (get (rev kvs) k); auto.
  simpl. rewrite get_set. rewrite String.eqb_sym. now destruct (String.eqb k k').
Qed.

Lemma get_rest (ks : list string) : forall (o : Obj) k,
  get (rest o ks) k = if in_dec string_dec k ks then None else get o k.
Proof.
  unfold rest. induction ks as [|k' ks IH]; intros o k; simpl; auto.
  rewrite IH. destruct (in_dec string_dec k ks) as [Hin | Hnin].
  - destruct (string_dec k' k); auto.
  - rewrite get_delete. destruct (string_dec k' k) as [-> | Hne].
    + now rewrite String.eqb_refl.
    + destruct (String.eqb_spec k' k); congruence.
Qed.

End ObjFacts.


(** ** [JSON.parse] after [JSON.stringify] *)

Module JSONFacts.
Import JS JSON.

Lemma chars_app (a b : string) : chars (a ++ b)%string = chars a ++ chars b.
Proof. induction a; simpl; congruence. Qed.

Lemma chars_str l : chars (str l) = l.
Proof. apply list_ascii_of_string_of_list_ascii. Qed.

Lemma str_chars s : str (chars s) = s.
Proof. apply string_of_list_ascii_of_string. Qed.

(** **** Strings *)

Lemma parse_chars_escape (c : ascii) (l : list ascii) :
  parse_chars (escape c ++ l) =
  match parse_chars l with
  | Some (cs, r) => Some (c :: cs, r)
  | None => None
  end.
Proof.
  destruct c as [[] [] [] [] [] [] [] []]; reflexivity.
Qed.

Lemma parse_chars_quoted (cs rest : list ascii) :
  parse_chars (flat_map escape cs ++ dquote :: rest) = Some (cs, rest).
Proof.
  induction cs as [|c cs IH]; simpl.
  - reflexivity.
  - rewrite <- app_assoc, parse_chars_escape, IH. reflexivity.
Qed.

Lemma chars_quote s :
  chars (quote s) = dquote :: flat_map escape (chars s) ++ [dquote].
Proof. unfold quote. now rewrite chars_str. Qed.

(** **** Numbers *)

Lemma digits_of_uint d : forallb is_digit (chars (NilEmpty.string_of_uint d)) = true.
Proof. induction d; simpl; auto. Qed.

Lemma span_digits (ds rest : list ascii) :
  forallb is_digit ds = true -> follow rest ->
  span is_digit (ds ++ rest) = (ds, rest).
Proof.
  intros Hds Hrest. induction ds as [|c ds IH]; simpl in *.
  - destruct rest as [|c rest]; auto.
    destruct Hrest as [-> | [-> | ->]]; reflexivity.
  - apply andb_prop in Hds as [Hc Hds]. rewrite Hc, IH by assumption. reflexivity.
Qed.

Lemma follows_number (rest : list ascii) :
  follow rest ->
  match rest with
  | c :: _ =>
      (Ascii.eqb c "."%char || Ascii.eqb c "e"%char || Ascii.eqb c "E"%char)%bool
  | [] => false
  end = false.
Proof.
  destruct rest as [|c rest]; auto. intros [-> | [-> | ->]]; reflexivity.
Qed.

Lemma unorm_head d d' : Decimal.unorm d = Decimal.D0 d' -> d' = Decimal.Nil.
Proof.
  induction d; try discriminate; simpl.
  - now intros [= <-].
  - rewrite DecimalFacts.unorm_D0. exact IHd.
Qed.

Lemma parse_unsigned (d : Decimal.uint) (rest : list ascii) :
  d <> Decimal.Nil -> Decimal.unorm d = d -> follow rest ->
  parse_number (chars (NilZero.string_of_uint d) ++ rest) = Some (Z.of_uint d, rest).
Proof.
  intros Hnil Hnorm Hrest.
  assert (Hs : NilZero.string_of_uint d = NilEmpty.string_of_uint d)
    by (destruct d; auto; contradiction).
  pose proof (NilZero.usu d Hnil) as Husu. rewrite Hs in *.
  pose proof (digits_of_uint d) as Hdig.
  pose proof (span_digits _ _ Hdig Hrest) as Hspan.
  unfold parse_number.
  destruct (chars (NilEmpty.string_of_uint d)) as [|c ds] eqn:E.
  - destruct d; discriminate.
  - assert (Hminus : Ascii.eqb c "-"%char = false).
    { simpl in Hdig. apply andb_prop in Hdig as [Hc _].
      destruct (Ascii.eqb_spec c "-"%char); auto. subst. discriminate. }
    simpl app. cbv beta iota. rewrite Hminus.
    change (c :: ds ++ rest) with ((c :: ds) ++ rest). rewrite Hspan.
    rewrite (follows_number _ Hrest). simpl orb.
    assert (Hlead : (is_zero_digit c && negb (Nat.eqb (List.length ds) 0))%bool = false).
    { destruct d; simpl in E; inversion E; subst; auto.
      rewrite DecimalFacts.unorm_D0 in Hnorm. apply unorm_head in Hnorm. subst. reflexivity. }
    rewrite Hlead. rewrite <- E, str_chars, Husu. reflexivity.
Qed.

Lemma to_uint_norm p : Decimal.unorm (Pos.to_uint p) = Pos.to_uint p.
Proof.
  rewrite <- (DecimalPos.Unsigned.to_of (Pos.to_uint p)).
  now rewrite DecimalPos.Unsigned.of_to.
Qed.

Lemma uint_starts_digit (d : Decimal.uint) (rest : list ascii) :
  exists c l, chars (NilZero.string_of_uint d) ++ rest = c :: l /\ is_digit c = true.
Proof.
  destruct d; simpl; eauto.
Qed.

Lemma parse_number_minus (l : list ascii) :
  match l with
  | c :: _ => Ascii.eqb c "-"%char = false
  | [] => True
  end ->
  parse_number ("-"%char :: l) =
  match parse_number l with
  | Some (n, r) => Some (Z.opp n, r)
  | None => None
  end.
Proof.
  unfold parse_number. change (Ascii.eqb "-" "-") with true. cbv iota.
  destruct l as [|c l]; [reflexivity|]. intros ->.
  destruct (span is_digit (c :: l)) as [ds r].
  destruct ds as [|d0 ds']; auto.
  destruct (_ || _)%bool; auto.
  now destruct (NilZero.uint_of_string _).
Qed.

Lemma parse_number_text (n : Z) (rest : list ascii) :
  follow rest ->
  parse_number (chars (string_of_Z n) ++ rest) = Some (n, rest).
Proof.
  intros Hrest. unfold string_of_Z.
  destruct n as [|p|p]; simpl Z.to_int; cbv beta iota delta [NilZero.string_of_int].
  - apply (parse_unsigned Decimal.zero); auto. discriminate.
  - rewrite parse_unsigned; auto using to_uint_norm, DecimalPos.Unsigned.to_uint_nonnil.
    unfold Z.of_uint. now rewrite DecimalPos.Unsigned.of_to.
  - simpl chars. simpl app. rewrite parse_number_minus.
    + rewrite parse_unsigned;
        auto using to_uint_norm, DecimalPos.Unsigned.to_uint_nonnil.
      unfold Z.of_uint. now rewrite DecimalPos.Unsigned.of_to.
    + destruct (uint_starts_digit (Pos.to_uint p) rest) as (c & l & -> & Hc).
      destruct (Ascii.eqb_spec c "-"%char); auto. subst. discriminate.
Qed.

(** **** Equations of the nested definitions *)

Lemma text_array l :
  text (VArr l) = Some ("[" ++ join "," (map element l) ++ "]")%string.
Proof. reflexivity. Qed.

Lemma text_object o :
  text (VObj o) = Some ("{" ++ join "," (members o) ++ "}")%string.
Proof. reflexivity. Qed.

Lemma clone_object o : clone (VObj o) = VObj (cloneProps o).
Proof. reflexivity. Qed.

Lemma text_element x : x <> VUndefined -> text x = Some (element x).
Proof.
  unfold element. destruct (text x) eqn:E; auto.
  destruct x as [| |[]| | | |]; simpl in E; congruence.
Qed.

Lemma members_undefined k o : members ((k, VUndefined) :: o) = members o.
Proof. reflexivity. Qed.

Lemma members_defined k x o :
  x <> VUndefined ->
  members ((k, x) :: o) = (quote k ++ ":" ++ element x)%string :: members o.
Proof.
  intros Hx. change (members ((k, x) :: o))
    with (match text x with
          | Some t => (quote k ++ ":" ++ t)%string :: members o
          | None => members o
          end).
  now rewrite text_element.
Qed.

Lemma cloneProps_undefined k o : cloneProps ((k, VUndefined) :: o) = cloneProps o.
Proof. reflexivity. Qed.

Lemma cloneProps_defined k x o :
  x <> VUndefined -> cloneProps ((k, x) :: o) = (k, clone x) :: cloneProps o.
Proof. destruct x; auto; congruence. Qed.

Lemma undefined_dec (x : value) : {x = VUndefined} + {x <> VUndefined}.
Proof. destruct x; (now left) || (right; discriminate). Qed.

Lemma members_nil o : members o = [] -> cloneProps o = [].
Proof.
  induction o as [|[k x] o IH]; auto.
  destruct (undefined_dec x) as [-> | Hx].
  - rewrite members_undefined, cloneProps_undefined. exact IH.
  - rewrite members_defined by assumption. discriminate.
Qed.

Lemma keys_cloneProps o k : In k (keys (cloneProps o)) -> In k (keys o).
Proof.
  induction o as [|[k' x] o IH]; auto.
  destruct (undefined_dec x) as [-> | Hx].
  - rewrite cloneProps_undefined. intros H. right. now apply IH.
  - rewrite cloneProps_defined by assumption.
    intros [H | H]; [now left | right; now apply IH].
Qed.

Lemma NoDup_cloneProps o : NoDup (keys o) -> NoDup (keys (cloneProps o)).
Proof.
  induction o as [|[k x] o IH]; auto.
  intros H. inversion H; subst.
  destruct (undefined_dec x) as [-> | Hx].
  - rewrite cloneProps_undefined. auto.
  - rewrite cloneProps_defined by assumption.
    change (NoDup (k :: keys (cloneProps o))). constructor; auto.
    intros Hin. apply keys_cloneProps in Hin. contradiction.
Qed.

Lemma need_array x l : need (VArr (x :: l)) = S (need x + need (VArr l)).
Proof. simpl. lia. Qed.

Lemma need_object_undefined k o : need (VObj ((k, VUndefined) :: o)) = need (VObj o).
Proof. reflexivity. Qed.

Lemma need_object_defined k x o :
  x <> VUndefined -> need (VObj ((k, x) :: o)) = S (need x + need (VObj o)).
Proof. destruct x; try congruence; intros _; simpl; lia. Qed.

Lemma need_positive v : 1 <= need v.
Proof. destruct v; simpl; lia. Qed.

Lemma wellFormed_array x l :
  wellFormed (VArr (x :: l)) <-> wellFormed x /\ wellFormed (VArr l).
Proof. reflexivity. Qed.

Lemma wellFormed_object k x o :
  wellFormed (VObj ((k, x) :: o)) ->
  ~ In k (keys o) /\ wellFormed x /\ wellFormed (VObj o).
Proof.
  simpl. intros [Hnd [Hx Ho]]. inversion Hnd; subst. auto.
Qed.

(** **** The first character of a text *)

Lemma digit_first c :
  is_digit c = true \/ c = "-"%char ->
  is_ws c = false /\ Ascii.eqb c "]" = false /\ Ascii.eqb c "}" = false.
Proof.
  destruct c as [[] [] [] [] [] [] [] []]; intros [H | H];
    try discriminate H; auto.
Qed.

Lemma number_first (n : Z) (rest : list ascii) :
  exists c l, chars (string_of_Z n) ++ rest = c :: l /\
              (is_digit c = true \/ c = "-"%char).
Proof.
  unfold string_of_Z. destruct n as [|p|p]; simpl Z.to_int.
  - simpl. eauto.
  - destruct (uint_starts_digit (Pos.to_uint p) rest) as (c & l & E & Hc).
    simpl NilZero.string_of_int. eauto.
  - simpl. eauto.
Qed.

Lemma element_first (x : value) (rest : list ascii) :
  exists c l, chars (element x) ++ rest = c :: l /\
              is_ws c = false /\ Ascii.eqb c "]" = false /\ Ascii.eqb c "}" = false.
Proof.
  destruct x as [| |[]|n|s|l|o]; unfold element;
    try (simpl; do 2 eexists; split; [reflexivity | auto]; fail).
  - simpl text. cbv iota.
    destruct (number_first n rest) as (c & l & E & Hc).
    exists c, l. split; auto. now apply digit_first.
Qed.

Lemma skip_ws_first c l : is_ws c = false -> skip_ws (c :: l) = c :: l.
Proof. simpl. now intros ->. Qed.

Lemma parse_value_number f c l :
  is_digit c = true \/ c = "-"%char ->
  parse_value (S f) (c :: l) =
  option_map (fun x => (VNum (fst x), snd x)) (parse_number (c :: l)).
Proof.
  destruct c as [[] [] [] [] [] [] [] []]; intros [H | H];
    try discriminate H; reflexivity.
Qed.

(** **** Arrays, objects, values *)

Lemma parse_elements_S f l :
  parse_elements (S f) l =
  match parse_value f l with
  | Some (v, l1) =>
      match skip_ws l1 with
      | c :: l2 =>
          if Ascii.eqb c ","%char then
            option_map (fun x => (v :: fst x, snd x)) (parse_elements f l2)
          else if Ascii.eqb c "]"%char then Some ([v], l2)
          else None
      | [] => None
      end
  | None => None
  end.
Proof. reflexivity. Qed.

Lemma parse_members_S f acc l :
  parse_members (S f) acc l =
  match skip_ws l with
  | q :: l1 =>
      if Ascii.eqb q dquote then
        match parse_chars l1 with
        | Some (k, l2) =>
            match skip_ws l2 with
            | c :: l3 =>
                if Ascii.eqb c ":"%char then
                  match parse_value f l3 with
                  | Some (v, l4) =>
                      let acc' := set acc (str k) v in
                      match skip_ws l4 with
                      | c' :: l5 =>
                          if Ascii.eqb c' ","%char then parse_members f acc' l5
                          else if Ascii.eqb c' "}"%char then Some (acc', l5)
                          else None
                      | [] => None
                      end
                  | None => None
                  end
                else None
            | [] => None
            end
        | None => None
        end
      else None
  | [] => None
  end.
Proof. reflexivity. Qed.

Lemma join_single sep a : join sep [a] = a.
Proof. reflexivity. Qed.

Lemma join_cons sep a b l :
  join sep (a :: b :: l) = (a ++ sep ++ join sep (b :: l))%string.
Proof. reflexivity. Qed.

Lemma parse_elements_text (l : list value) :
  Forall parses l -> l <> [] -> wellFormed (VArr l) ->
  forall f rest,
    need (VArr l) <= S f ->
    parse_elements f (chars (join "," (map element l)) ++ "]"%char :: rest)
    = Some (map clone l, rest).
Proof.
  induction l as [|x l IH]; [congruence|].
  intros Hall _ Hwf f rest Hf.
  inversion Hall as [|? ? Hx Hl]; subst.
  apply wellFormed_array in Hwf as [Hwx Hwl].
  rewrite need_array in Hf. pose proof (need_positive x) as Hpos.
  pose proof (need_positive (VArr l)) as Hposl.
  destruct f as [|f]; [lia|]. rewrite parse_elements_S.
  destruct l as [|y l].
  - simpl map. rewrite join_single.
    rewrite (Hx Hwx f ("]"%char :: rest)) by (simpl; auto; lia).
    reflexivity.
  - change (map element (x :: y :: l)) with (element x :: element y :: map element l).
    rewrite join_cons, !chars_app, <- !app_assoc.
    change (chars "," ++ ?r) with (","%char :: r).
    rewrite (Hx Hwx f) by (simpl; auto; lia).
    rewrite skip_ws_first by reflexivity.
    change (Ascii.eqb "," ",") with true. cbv iota.
    change (element y :: map element l) with (map element (y :: l)).
    rewrite IH; auto; try discriminate. lia.
Qed.

Lemma parse_members_text (o : Obj) :
  Forall (fun kv => parses (snd kv)) o -> members o <> [] ->
  wellFormed (VObj o) ->
  forall f acc rest,
    NoDup (keys acc ++ keys (cloneProps o)) ->
    need (VObj o) <= S f ->
    parse_members f acc (chars (join "," (members o)) ++ "}"%char :: rest)
    = Some (acc ++ cloneProps o, rest).
Proof.
  induction o as [|[k x] o IH]; [intros _ H; now contradiction H|].
  intros Hall Hm Hwf f acc rest Hnd Hf.
  inversion Hall as [|? ? Hx Ho]; subst. simpl in Hx.
  apply wellFormed_object in Hwf as (Hk & Hwx & Hwo).
  destruct (undefined_dec x) as [-> | Hdef].
  - rewrite members_undefined in *. rewrite cloneProps_undefined in *.
    rewrite need_object_undefined in Hf. now apply IH.
  - rewrite members_defined in * by assumption.
    rewrite cloneProps_defined in * by assumption.
    rewrite need_object_defined in Hf by assumption.
    pose proof (need_positive x) as Hpos.
    pose proof (need_positive (VObj o)) as Hposo.
    destruct f as [|f]; [lia|]. rewrite parse_members_S.
    assert (Hacc : ~ In k (keys acc)).
    { intros Hin. apply NoDup_remove_2 in Hnd. apply Hnd.
      apply in_or_app. now left. }
    assert (Hnd' : NoDup (keys (acc ++ [(k, clone x)]) ++ keys (cloneProps o))).
    { unfold keys in *. rewrite map_app, <- app_assoc. exact Hnd. }
    destruct (members o) as [|m ms] eqn:Em.
    + rewrite join_single, !chars_app, chars_quote, <- !app_assoc.
      simpl app. rewrite skip_ws_first by reflexivity.
      change (Ascii.eqb dquote dquote) with true. cbv iota.
      rewrite <- app_assoc. change ([dquote] ++ ?r) with (dquote :: r).
      rewrite parse_chars_quoted.
      rewrite skip_ws_first by reflexivity.
      change (Ascii.eqb ":" ":") with true. cbv iota.
      rewrite (Hx Hwx f) by (simpl; auto; lia).
      rewrite skip_ws_first by reflexivity.
      change (Ascii.eqb "}" ",") with false.
      change (Ascii.eqb "}" "}") with true. cbv iota zeta.
      rewrite str_chars, (ObjFacts.set_absent _ _ _ Hacc).
      now rewrite (members_nil _ Em).
    + rewrite join_cons, !chars_app, chars_quote, <- !app_assoc.
      simpl app. rewrite skip_ws_first by reflexivity.
      change (Ascii.eqb dquote dquote) with true. cbv iota.
      rewrite <- app_assoc. change ([dquote] ++ ?r) with (dquote :: r).
      rewrite parse_chars_quoted.
      rewrite skip_ws_first by reflexivity.
      change (Ascii.eqb ":" ":") with true. cbv iota.
      rewrite (Hx Hwx f) by (simpl; auto; lia).
      rewrite skip_ws_first by reflexivity.
      change (Ascii.eqb "," ",") with true. cbv iota zeta.
      rewrite str_chars, (ObjFacts.set_absent _ _ _ Hacc).
      rewrite IH; auto; try discriminate; try lia.
      now rewrite <- app_assoc.
Qed.

Lemma parse_value_array f l :
  parse_value (S f) ("["%char :: l) =
  match skip_ws l with
  | c :: l2 =>
      if Ascii.eqb c "]"%char then Some (VArr [], l2)
      else option_map (fun x => (VArr (fst x), snd x)) (parse_elements f l)
  | [] => None
  end.
Proof. reflexivity. Qed.

Lemma parse_value_object f l :
  parse_value (S f) ("{"%char :: l) =
  match skip_ws l with
  | c :: l2 =>
      if Ascii.eqb c "}"%char then Some (VObj [], l2)
      else option_map (fun x => (VObj (fst x), snd x)) (parse_members f [] l)
  | [] => None
  end.
Proof. reflexivity. Qed.

Lemma elements_first x items rest :
  exists c l,
    chars (join "," (map element (x :: items))) ++ rest = c :: l /\
    is_ws c = false /\ Ascii.eqb c "]" = false.
Proof.
  destruct items as [|y items].
  - simpl map. rewrite join_single.
    destruct (element_first x rest) as (c & l & E & Hws & Hc & _). eauto.
  - change (map element (x :: y :: items))
      with (element x :: element y :: map element items).
    rewrite join_cons, chars_app, <- app_assoc.
    destruct (element_first x
                (chars ("," ++ join "," (element y :: map element items)) ++ rest))
      as (c & l & E & Hws & Hc & _).
    eauto.
Qed.

Lemma members_first o rest :
  members o <> [] ->
  exists l, chars (join "," (members o)) ++ rest = dquote :: l.
Proof.
  induction o as [|[k x] o IH]; [intros H; now contradiction H|].
  destruct (undefined_dec x) as [-> | Hx].
  - rewrite members_undefined. exact IH.
  - rewrite members_defined by assumption. intros _.
    destruct (members o) as [|m ms].
    + rewrite join_single, !chars_app, chars_quote. simpl. eauto.
    + rewrite join_cons, !chars_app, chars_quote. simpl. eauto.
Qed.

Lemma parse_value_text (v : value) : parses v.
Proof.
  induction v as [| |b|n|s|items IH|props IH] using value_ind;
    intros Hwf fuel rest Hfuel Hrest.
  - destruct fuel as [|f]; [simpl in Hfuel; lia|]. reflexivity.
  - destruct fuel as [|f]; [simpl in Hfuel; lia|]. reflexivity.
  - destruct fuel as [|f]; [simpl in Hfuel; lia|]. destruct b; reflexivity.
  - destruct fuel as [|f]; [simpl in Hfuel; lia|].
    change (element (VNum n)) with (string_of_Z n).
    destruct (number_first n rest) as (c & l & E & Hc).
    pose proof (parse_number_text n rest Hrest) as Hn.
    rewrite E in *. rewrite parse_value_number, Hn by assumption. reflexivity.
  - destruct fuel as [|f]; [simpl in Hfuel; lia|].
    change (element (VStr s)) with (quote s). rewrite chars_quote.
    simpl app. rewrite <- app_assoc. change ([dquote] ++ rest) with (dquote :: rest).
    change (parse_value (S f) (dquote :: ?l))
      with (option_map (fun x => (VStr (str (fst x)), snd x)) (parse_chars l)).
    rewrite parse_chars_quoted. simpl. now rewrite str_chars.
  - destruct fuel as [|f]; [simpl in Hfuel; lia|].
    unfold element. rewrite text_array, !chars_app, <- !app_assoc.
    change (chars "[" ++ ?r) with ("["%char :: r).
    change (chars "]" ++ rest) with ("]"%char :: rest).
    rewrite parse_value_array.
    destruct items as [|x items]; [reflexivity|].
    destruct (elements_first x items ("]"%char :: rest)) as (c & l & E & Hws & Hc).
    rewrite E, (skip_ws_first _ _ Hws), Hc, <- E.
    rewrite parse_elements_text; auto. discriminate.
  - destruct fuel as [|f]; [simpl in Hfuel; lia|].
    unfold element. rewrite text_object, !chars_app, <- !app_assoc.
    change (chars "{" ++ ?r) with ("{"%char :: r).
    change (chars "}" ++ rest) with ("}"%char :: rest).
    rewrite parse_value_object, clone_object.
    destruct (members props) as [|m ms] eqn:Em.
    + rewrite (members_nil _ Em). reflexivity.
    + assert (Hm : members props <> []) by (rewrite Em; discriminate).
      destruct (members_first props ("}"%char :: rest) Hm) as (l & E).
      rewrite <- Em, E. rewrite skip_ws_first by reflexivity.
      change (Ascii.eqb dquote "}") with false. cbv iota. rewrite <- E.
      rewrite parse_members_text; auto.
      simpl. apply NoDup_cloneProps. apply Hwf.
Qed.

(** **** Fuel *)

Lemma length_chars_app (a b : string) :
  List.length (chars (a ++ b)%string) = List.length (chars a) + List.length (chars b).
Proof. now rewrite chars_app, List.length_app. Qed.

Lemma element_nonempty x : 1 <= List.length (chars (element x)).
Proof.
  destruct (element_first x []) as (c & l & E & _).
  rewrite List.app_nil_r in E. rewrite E. simpl. lia.
Qed.

Lemma need_elements (l : list value) :
  Forall (fun x => need x <= 2 * List.length (chars (element x))) l ->
  need (VArr l) <= 2 * List.length (chars (join "," (map element l))) + 2.
Proof.
  induction l as [|x l IH]; intros H; [simpl; lia|].
  inversion H as [|? ? Hx Hl]; subst. specialize (IH Hl).
  rewrite need_array. destruct l as [|y l].
  - simpl map. rewrite join_single. simpl need. lia.
  - change (map element (x :: y :: l)) with (element x :: element y :: map element l).
    rewrite join_cons, !length_chars_app.
    change (element y :: map element l) with (map element (y :: l)).
    simpl (List.length (chars ",")). lia.
Qed.

Lemma need_members (o : Obj) :
  Forall (fun kv => need (snd kv) <= 2 * List.length (chars (element (snd kv)))) o ->
  need (VObj o) <= 2 * List.length (chars (join "," (members o))) + 2.
Proof.
  induction o as [|[k x] o IH]; intros H; [simpl; lia|].
  inversion H as [|? ? Hx Ho]; subst. specialize (IH Ho). simpl in Hx.
  destruct (undefined_dec x) as [-> | Hdef].
  - now rewrite need_object_undefined, members_undefined.
  - rewrite need_object_defined, members_defined by assumption.
    assert (Hq : 2 <= List.length (chars (quote k))).
    { rewrite chars_quote. simpl. rewrite List.length_app. simpl. lia. }
    destruct (members o) as [|m ms].
    + rewrite join_single, !length_chars_app. simpl (List.length (chars ":")).
      pose proof (IH : need (VObj o) <= 2 * 0 + 2). lia.
    + rewrite join_cons, !length_chars_app.
      simpl (List.length (chars ":")). simpl (List.length (chars ",")). lia.
Qed.

Lemma need_bound (v : value) : need v <= 2 * List.length (chars (element v)).
Proof.
  induction v as [| |b|n|s|items IH|props IH] using value_ind;
    try (match goal with
         | |- need ?x <= _ => pose proof (element_nonempty x)
         end; simpl need; lia).
  - pose proof (need_elements items IH) as H.
    unfold element. rewrite text_array, !length_chars_app. simpl List.length. lia.
  - pose proof (need_members props IH) as H.
    unfold element. rewrite text_object, !length_chars_app. simpl List.length. lia.
Qed.

(** [JSON.parse(JSON.stringify(v))] returns, for a value [v] other than
    [undefined] whose objects have no repeated key, and returns the value
    that the text of [v] denotes. *)
Theorem parse_stringify (v : value) :
  v <> VUndefined -> wellFormed v ->
  JSON.parse (JSON.stringify v) = Ok (clone v).
Proof.
  intros Hv Hwf. unfold stringify. rewrite (text_element v Hv).
  unfold parse, parse_text. simpl ToString.
  pose proof (parse_value_text v Hwf
                (2 * List.length (chars (element v)) + 2) []) as H.
  rewrite List.app_nil_r in H. rewrite H.
  - reflexivity.
  - pose proof (need_bound v). lia.
  - exact I.
Qed.

End JSONFacts.


(** ** Values without repeated keys *)

Module WellFormedFacts.
Import JS JSON Bridge NATIVE ObjFacts.

Lemma wellFormed_VArr l : wellFormed (VArr l) <-> Forall wellFormed l.
Proof.
  induction l as [|x l IH].
  - split; [constructor | exact (fun _ => I)].
  - change (wellFormed (VArr (x :: l))) with (wellFormed x /\ wellFormed (VArr l)).
    rewrite IH. split.
    + intros [Hx Hl]. now constructor.
    + intros H. inversion H. auto.
Qed.

Lemma wellFormed_values o :
  (fix all (o : Obj) : Prop :=
     match o with
     | [] => True
     | (_, x) :: o' => wellFormed x /\ all o'
     end) o
  <-> Forall (fun kv => wellFormed (snd kv)) o.
Proof.
  induction o as [|[k x] o IH].
  - split; [constructor | exact (fun _ => I)].
  - rewrite IH. split.
    + intros [Hx Ho]. now constructor.
    + intros H. inversion H. auto.
Qed.

Lemma wellFormed_VObj o :
  wellFormed (VObj o) <->
  NoDup (keys o) /\ Forall (fun kv => wellFormed (snd kv)) o.
Proof.
  change (wellFormed (VObj o))
    with (NoDup (keys o) /\
          (fix all (o : Obj) : Prop :=
             match o with
             | [] => True
             | (_, x) :: o' => wellFormed x /\ all o'
             end) o).
  now rewrite wellFormed_values.
Qed.

Lemma Forall_set (P : string * value -> Prop) (o : Obj) k v :
  Forall P o -> (forall k', P (k', v)) -> Forall P (set o k v).
Proof.
  intros Ho Hv. induction o as [|[k' v'] o IH]; simpl.
  - auto.
  - inversion Ho; subst. destruct (String.eqb k k'); constructor; auto.
Qed.

Lemma wellFormed_set o k v :
  wellFormed (VObj o) -> wellFormed v -> wellFormed (VObj (set o k v)).
Proof.
  rewrite !wellFormed_VObj. intros [Hnd Hall] Hv. split.
  - now apply NoDup_keys_set.
  - apply Forall_set; auto.
Qed.

Lemma wellFormed_delete o k :
  wellFormed (VObj o) -> wellFormed (VObj (delete o k)).
Proof.
  rewrite !wellFormed_VObj. intros [Hnd Hall]. split.
  - rewrite keys_delete. now apply NoDup_filter.
  - induction o as [|[k' v'] o IH]; simpl; auto.
    inversion Hall; inversion Hnd; subst.
    destruct (String.eqb k k'); auto.
Qed.

Lemma wellFormed_assign kvs : forall o,
  wellFormed (VObj o) -> Forall (fun kv => wellFormed (snd kv)) kvs ->
  wellFormed (VObj (assign o kvs)).
Proof.
  unfold assign. induction kvs as [|[k v] kvs IH]; intros o Ho Hkvs; simpl; auto.
  inversion Hkvs; subst. apply IH; auto. now apply wellFormed_set.
Qed.

Lemma wellFormed_get o k v :
  wellFormed (VObj o) -> get o k = Some v -> wellFormed v.
Proof.
  rewrite wellFormed_VObj. intros [_ Hall] Hget. apply get_In in Hget.
  rewrite Forall_forall in Hall. exact (Hall _ Hget).
Qed.

Lemma wellFormed_prop o k : wellFormed (VObj o) -> wellFormed (prop o k).
Proof.
  intros Ho. rewrite prop_get. destruct (get o k) eqn:E; [|exact I].
  eapply wellFormed_get; eauto.
Qed.

Lemma nat_to_uint_nonnil n : Nat.to_uint n <> Decimal.Nil.
Proof.
  rewrite <- (DecimalNat.Unsigned.of_to n) at 1.
  rewrite DecimalNat.Unsigned.to_of. apply DecimalFacts.unorm_nonnil.
Qed.

Lemma string_of_nat_inj : Finite.Injective string_of_nat.
Proof.
  intros n m H. unfold string_of_nat in H.
  apply (f_equal NilZero.uint_of_string) in H.
  rewrite !NilZero.usu in H by apply nat_to_uint_nonnil.
  inversion H. now apply DecimalNat.Unsigned.to_uint_inj.
Qed.

Lemma keys_indexed l : forall i,
  keys (indexed i l) = map string_of_nat (seq i (List.length l)).
Proof.
  induction l as [|x l IH]; intros i; simpl; auto. now rewrite <- IH.
Qed.

Lemma wellFormed_indexed l : forall i,
  Forall wellFormed l -> wellFormed (VObj (indexed i l)).
Proof.
  intros i Hl. rewrite wellFormed_VObj. split.
  - rewrite keys_indexed. apply Finite.Injective_map_NoDup.
    + exact string_of_nat_inj.
    + apply seq_NoDup.
  - revert i. induction Hl; intros i; simpl; constructor; auto.
Qed.

Lemma wellFormed_ownProps b : wellFormed b -> wellFormed (VObj (ownProps b)).
Proof.
  destruct b; simpl ownProps; intros Hb;
    try (rewrite wellFormed_VObj; split; constructor).
  - apply wellFormed_indexed. apply Forall_forall.
    intros x Hx. apply in_map_iff in Hx as (c & <- & _). exact I.
  - apply wellFormed_indexed. now apply wellFormed_VArr.
  - exact Hb.
Qed.

Lemma wellFormed_processLevel level : wellFormed level -> wellFormed (_processLevel level).
Proof.
  intros H. unfold _processLevel.
  destruct (strict_eq_string level Severity.Critical); [exact I|].
  destruct (strict_eq_string level Severity.Log); [exact I | exact H].
Qed.

Lemma wellFormed_processedLevel level :
  wellFormed level -> wellFormed (processedLevel level).
Proof.
  intros H. unfold processedLevel.
  destruct (truthy level); [now apply wellFormed_processLevel | exact I].
Qed.

Lemma wellFormed_member b k : wellFormed b -> wellFormed (member b k).
Proof.
  intros Hb. unfold member.
  destruct (get (ownProps b) k) eqn:E.
  - eapply wellFormed_get; [apply wellFormed_ownProps; eauto | eauto].
  - destruct (String.eqb k "length"); [|exact I]. now destruct b.
Qed.

Lemma wellFormed_processBreadcrumb b b' :
  wellFormed b -> processBreadcrumb b = Ok b' -> wellFormed b'.
Proof.
  intros Hb H. unfold processBreadcrumb in H.
  destruct (getProp b "level") as [level|] eqn:E; simpl in H; [|discriminate].
  inversion H; subst. apply wellFormed_set.
  - now apply wellFormed_ownProps.
  - apply wellFormed_processedLevel.
    destruct b; simpl in E; inversion E; subst; now apply wellFormed_member.
Qed.

Lemma wellFormed_processBreadcrumbs v v' :
  wellFormed v -> processBreadcrumbs v = Ok v' -> wellFormed v'.
Proof.
  intros Hv H. destruct v as [| | | | |l|]; simpl in H; try discriminate;
    try (inversion H; exact I).
  destruct (rmap processBreadcrumb l) as [l'|] eqn:E; simpl in H; [|discriminate].
  inversion H; subst. apply wellFormed_VArr. apply wellFormed_VArr in Hv.
  clear H. revert l' E. induction Hv as [|x l Hx Hl IH]; intros l' E; simpl in E.
  - inversion E. constructor.
  - destruct (processBreadcrumb x) as [y|] eqn:Ey; simpl in E; [|discriminate].
    destruct (rmap processBreadcrumb l) as [ys|]; simpl in E; [|discriminate].
    inversion E; subst. constructor; eauto using wellFormed_processBreadcrumb.
Qed.

Lemma wellFormed_prepared _event event :
  wellFormed (VObj _event) -> prepared _event = Ok event ->
  wellFormed (VObj event).
Proof.
  intros Hwf H. unfold prepared, _processLevels in H.
  destruct (processBreadcrumbs (prop _event "breadcrumbs")) as [bc|] eqn:E;
    simpl in H; [|discriminate].
  inversion H; subst. apply wellFormed_delete.
  repeat apply wellFormed_set; auto.
  - apply wellFormed_processedLevel. now apply wellFormed_prop.
  - eapply wellFormed_processBreadcrumbs; [|exact E]. now apply wellFormed_prop.
Qed.

Lemma wellFormed_wrapMessage event :
  wellFormed (VObj event) -> wellFormed (VObj (wrapMessage event)).
Proof.
  intros H. unfold wrapMessage, assign. simpl fold_left.
  apply wellFormed_set; auto.
  change (literal [("message", prop event "message")])
    with [("message", prop event "message")].
  apply wellFormed_VObj. split.
  - constructor; [simpl; tauto | constructor].
  - constructor; [now apply wellFormed_prop | constructor].
Qed.

Lemma wellFormed_iosPayload event :
  wellFormed (VObj event) -> wellFormed (VObj (iosPayload event)).
Proof. apply wellFormed_wrapMessage. Qed.

Lemma wellFormed_androidPayload event :
  wellFormed (VObj event) -> wellFormed (VObj (androidPayload event)).
Proof.
  intros H. apply wellFormed_wrapMessage. unfold clearBreadcrumbsUnlessCrash.
  destruct (clearing event); auto. now apply wellFormed_set.
Qed.

(** The check is sound. *)
Lemma distinct_NoDup (l : list string) : distinct l = true -> NoDup l.
Proof.
  induction l as [|k l IH]; simpl; [constructor|].
  intros H. apply andb_prop in H as [Hk Hl]. constructor; auto.
  intros Hin. apply negb_true_iff in Hk.
  assert (Hex : existsb (String.eqb k) l = true).
  { apply existsb_exists. exists k. split; auto. apply String.eqb_refl. }
  congruence.
Qed.

Lemma wellFormedb_sound (v : value) : wellFormedb v = true -> wellFormed v.
Proof.
  induction v as [| |b|n|s|items IH|props IH] using value_ind;
    try (intros _; exact I).
  - intros H. apply wellFormed_VArr.
    change (forallb wellFormedb items = true) in H.
    rewrite forallb_forall in H. rewrite Forall_forall in *. auto.
  - intros H. apply wellFormed_VObj.
    change ((distinct (keys props)
             && forallb (fun kv => wellFormedb (snd kv)) props)%bool = true) in H.
    apply andb_prop in H as [Hd Hall]. split; [now apply distinct_NoDup|].
    rewrite forallb_forall in Hall. rewrite Forall_forall in *. auto.
Qed.

End WellFormedFacts.


(** ** The serializer *)

Module SerializerFacts.
Import JS Bridge NATIVE ObjFacts.

Lemma serialize_fold (data : Obj) (ks : list string) : forall (acc : Obj) k,
  get (fold_left
         (fun serialized dataKey =>
            set serialized dataKey (stringified (prop data dataKey)))
         ks acc) k
  = if in_dec string_dec k ks then Some (stringified (prop data k)) else get acc k.
Proof.
  induction ks as [|a ks IH]; intros acc k; simpl; auto.
  rewrite IH. destruct (in_dec string_dec k ks) as [Hin | Hnin].
  - now destruct (string_dec a k).
  - rewrite get_set. destruct (string_dec a k) as [-> | Hne].
    + now rewrite String.eqb_refl.
    + destruct (String.eqb_spec a k); congruence.
Qed.

(** Key by key, the serializer applies [stringified] to the value. *)
Lemma serialize_get (data : Obj) k :
  get (_serializeObject data) k = option_map stringified (get data k).
Proof.
  unfold _serializeObject. rewrite serialize_fold.
  destruct (in_dec string_dec k (keys data)) as [Hin | Hnin].
  - rewrite prop_get. destruct (get_Some_In _ _ Hin) as [v ->]. reflexivity.
  - apply get_None in Hnin. now rewrite Hnin.
Qed.

Lemma serialize_fold_keys (data : Obj) (ks : list string) : forall (acc : Obj),
  NoDup (keys acc ++ ks) ->
  fold_left
    (fun serialized dataKey =>
       set serialized dataKey (stringified (prop data dataKey)))
    ks acc
  = acc ++ map (fun k => (k, stringified (prop data k))) ks.
Proof.
  induction ks as [|a ks IH]; intros acc Hnd; simpl.
  - now rewrite app_nil_r.
  - assert (Ha : ~ In a (keys acc)).
    { intros Hin. apply NoDup_remove_2 in Hnd. apply Hnd.
      apply in_or_app. now left. }
    rewrite set_absent by assumption.
    rewrite IH.
    + now rewrite <- app_assoc.
    + unfold keys. rewrite map_app. simpl. rewrite <- app_assoc. exact Hnd.
Qed.

(** On an object (no repeated key) the serializer keeps the keys and their
    order. *)
Lemma serialize_map (data : Obj) :
  NoDup (keys data) ->
  _serializeObject data = map (fun kv => (fst kv, stringified (snd kv))) data.
Proof.
  intros Hnd. unfold _serializeObject.
  rewrite serialize_fold_keys by exact Hnd. simpl.
  unfold keys. rewrite map_map.
  apply map_ext_in. intros [k v] Hin. simpl.
  rewrite prop_get, (In_get _ _ _ Hnd Hin). reflexivity.
Qed.

Lemma serialize_keys (data : Obj) :
  NoDup (keys data) -> keys (_serializeObject data) = keys data.
Proof.
  intros Hnd. rewrite serialize_map by assumption.
  unfold keys. rewrite map_map. reflexivity.
Qed.

(** A value that has a JSON text is replaced by it. *)
Lemma stringified_text v t :
  is_string v = false -> JSON.text v = Some t -> stringified v = VStr t.
Proof.
  unfold stringified, JSON.stringify. now intros -> ->.
Qed.

Lemma stringified_string s : stringified (VStr s) = VStr s.
Proof. reflexivity. Qed.

(** [undefined] has none, and stays. *)
Lemma stringified_undefined : stringified VUndefined = VUndefined.
Proof. reflexivity. Qed.

(** Only [undefined] has no JSON text. *)
Lemma text_None v : JSON.text v = None <-> v = VUndefined.
Proof.
  split; [|now intros ->].
  destruct v as [| |[]| | | |]; simpl; congruence.
Qed.

Lemma stringified_is_string v : v <> VUndefined -> is_string (stringified v) = true.
Proof.
  intros Hv. unfold stringified, JSON.stringify.
  destruct (is_string v) eqn:E; auto.
  destruct (JSON.text v) eqn:T; auto.
  apply text_None in T. contradiction.
Qed.

End SerializerFacts.


(** ** Executions *)

Module RunFacts.
Import JS Bridge.

Lemma run_bind {A B} (m : Native.Handler) (p : Prog A) (f : A -> Prog B) : forall w,
  run m (bind p f) w =
  match run m p w with
  | (Ok a, w', t) => let '(r, w'', t') := run m (f a) w' in (r, w'', t ++ t')
  | (Err e, w', t) => (Err e, w', t)
  end.
Proof.
  induction p as [a | e | k IH | b k IH | v k IH | c k IH | msg k IH];
    intros w; simpl.
  - now destruct (run m (f a) w) as [[r w'] t].
  - reflexivity.
  - apply IH.
  - rewrite IH. destruct (run m k _) as [[[a | e] w'] t]; auto.
    now destruct (run m (f a) w') as [[r w''] t'].
  - rewrite IH. destruct (run m k _) as [[[a | e] w'] t]; auto.
    now destruct (run m (f a) w') as [[r w''] t'].
  - rewrite IH. destruct (run m (k (m c)) w) as [[[a | e] w'] t]; auto.
    now destruct (run m (f a) w') as [[r w''] t'].
  - rewrite IH. destruct (run m k w) as [[[a | e] w'] t]; auto.
    now destruct (run m (f a) w') as [[r w''] t'].
Qed.

(** An execution against a module is a sequence of steps. *)
Lemma run_steps {A} (m : Native.Handler) (p : Prog A) : forall w,
  steps (p, w) (trace (run m p w)) (leaf (outcome (run m p w)), final (run m p w)).
Proof.
  unfold trace, outcome, final.
  induction p as [a | e | k IH | b k IH | v k IH | c k IH | msg k IH];
    intros w; simpl.
  - constructor.
  - constructor.
  - apply (steps_step _ [] (k w, w)); [constructor | apply IH].
  - specialize (IH (with_enableNative b w)).
    destruct (run m k _) as [[r w'] t]; simpl in *.
    apply (steps_step _ [ESetEnableNative b] (k, with_enableNative b w));
      [constructor | exact IH].
  - specialize (IH (with_nativeIsReady v w)).
    destruct (run m k _) as [[r w'] t]; simpl in *.
    apply (steps_step _ [ESetNativeIsReady v] (k, with_nativeIsReady v w));
      [constructor | exact IH].
  - specialize (IH (m c) w).
    destruct (run m (k (m c)) w) as [[r w'] t]; simpl in *.
    apply (steps_step _ [ECall c (m c)] (k (m c), w));
      [constructor | exact IH].
  - specialize (IH w).
    destruct (run m k w) as [[r w'] t]; simpl in *.
    apply (steps_step _ [EWarn msg] (k, w)); [constructor | exact IH].
Qed.

Lemma steps_trans {A} (c1 c2 c3 : Prog A * Wrapper) t1 t2 :
  steps c1 t1 c2 -> steps c2 t2 c3 -> steps c1 (t1 ++ t2) c3.
Proof.
  induction 1 as [cfg | cfg1 ta cfg2 tb cfg3 Hstep Hsteps IH]; simpl; auto.
  intros H. rewrite <- app_assoc. econstructor; eauto.
Qed.

End RunFacts.


(** ** The availability gate *)

Module GateFacts.
Import JS Bridge NATIVE.

Lemma disabled_run (RNSentry : option Native.Handler) (w : Wrapper) (method : Method) :
  enableNative w = false ->
  gated method = true ->
  exec RNSentry (invoke RNSentry method) w = (whenDisabled method, w, []).
Proof.
  intros Hw Hg. unfold exec.
  destruct method; try discriminate Hg; simpl; rewrite Hw; reflexivity.
Qed.

Lemma unavailable_run (w : Wrapper) (method : Method) :
  enableNative w = true ->
  gated method = true ->
  exec None (invoke None method) w = (whenUnavailable method, w, []).
Proof.
  intros Hw Hg. unfold exec.
  destruct method; try discriminate Hg; simpl; rewrite Hw; reflexivity.
Qed.

End GateFacts.


Module GateClaims.
Import JS Bridge NATIVE GateFacts.

(** C8: while [enableNative] is false, each scope mutation ([setUser],
    [setTag], [setExtra], [setContext], [addBreadcrumb], [clearBreadcrumbs])
    returns at once, [sendEvent] returns a response whose status is
    ['skipped'], the fields are left as they were, and the trace is empty: no
    call reaches the native module, present or not. *)
Theorem disabled_native_performs_no_call
    (RNSentry : option Native.Handler) (w : Wrapper)
    (user context : option Obj) (key : string) (v : value)
    (breadcrumb _event : Obj) :
  enableNative w = false ->
  exec RNSentry (setUser RNSentry user) w = (Ok VUndefined, w, []) /\
  exec RNSentry (setTag RNSentry key v) w = (Ok VUndefined, w, []) /\
  exec RNSentry (setExtra RNSentry key v) w = (Ok VUndefined, w, []) /\
  exec RNSentry (setContext RNSentry key context) w = (Ok VUndefined, w, []) /\
  exec RNSentry (addBreadcrumb RNSentry breadcrumb) w = (Ok VUndefined, w, []) /\
  exec RNSentry (clearBreadcrumbs RNSentry) w = (Ok VUndefined, w, []) /\
  exec RNSentry (sendEvent RNSentry _event) w = (Ok skipped, w, []) /\
  member skipped "status" = VStr "skipped".
Proof.
  intros Hw.
  pose proof (fun method => disabled_run RNSentry w method Hw) as H.
  repeat split.
  - exact (H (SetUser user) eq_refl).
  - exact (H (SetTag key v) eq_refl).
  - exact (H (SetExtra key v) eq_refl).
  - exact (H (SetContext key context) eq_refl).
  - exact (H (AddBreadcrumb breadcrumb) eq_refl).
  - exact (H ClearBreadcrumbs eq_refl).
  - exact (H (SendEvent _event) eq_refl).
Qed.

Lemma disabled_native_performs_no_call_witness :
  enableNative Samples.disabled = false /\
  exec (Some Samples.accepting)
       (sendEvent (Some Samples.accepting) (Samples.eventWith (VBool true) "info"))
       Samples.disabled
  = (Ok skipped, Samples.disabled, []).
Proof.
  split; [reflexivity|].
  apply (disabled_native_performs_no_call
           (Some Samples.accepting) Samples.disabled
           (Some Samples.fullUser) None "k" VNull [] _ eq_refl).
Defined.

(** C2, as stated, fails: with [enableNative] false, [fetchNativeRelease]
    and [fetchNativeAppStart] throw the [_DisabledNativeError]. *)
Lemma disabled_fetch_throws :
  enableNative Samples.disabled = false /\
  outcome (exec (Some Samples.accepting)
                (fetchNativeRelease (Some Samples.accepting)) Samples.disabled)
  = Err DisabledNativeError /\
  outcome (exec (Some Samples.accepting)
                (fetchNativeAppStart (Some Samples.accepting)) Samples.disabled)
  = Err DisabledNativeError.
Proof. repeat split. Qed.

(** C2, amended: while [enableNative] is false, every gated method leaves the
    fields as they were and makes no native call; the scope mutations,
    [nativeCrash], [closeNativeSdk] and [disableNativeFramesTracking] return
    [undefined], [sendEvent] returns the skipped response, and the five
    [fetchNative...] reads throw the [_DisabledNativeError]. *)
Theorem disabled_native_by_method
    (RNSentry : option Native.Handler) (w : Wrapper) (method : Method) :
  enableNative w = false ->
  gated method = true ->
  exec RNSentry (invoke RNSentry method) w = (whenDisabled method, w, []) /\
  (is_fetch method = true -> whenDisabled method = Err DisabledNativeError) /\
  (is_fetch method = false ->
   whenDisabled method = Ok (match method with
                             | SendEvent _ => skipped
                             | _ => VUndefined
                             end)).
Proof.
  intros Hw Hg. split; [now apply disabled_run|].
  split; destruct method; simpl; intros; congruence.
Qed.

Lemma disabled_native_by_method_witness :
  exec None (invoke None FetchNativeFrames) Samples.disabled
  = (Err DisabledNativeError, Samples.disabled, []).
Proof.
  apply (disabled_native_by_method None Samples.disabled FetchNativeFrames
           eq_refl eq_refl).
Defined.

(** C3, as stated, fails: with [enableNative] true and no module,
    [closeNativeSdk] and [disableNativeFramesTracking] return without
    throwing. *)
Lemma absent_module_close_returns :
  enableNative Samples.ios = true /\
  exec None (closeNativeSdk None) Samples.ios = (Ok VUndefined, Samples.ios, []) /\
  exec None (disableNativeFramesTracking None) Samples.ios
  = (Ok VUndefined, Samples.ios, []).
Proof. repeat split. Qed.

(** C3, amended: while [enableNative] is true and the module is absent, every
    gated method other than [closeNativeSdk] and
    [disableNativeFramesTracking] throws the [_NativeClientError]; those two
    return [undefined]; [initNativeSdk] throws it when its options ask for
    native to be started.  None of them changes a field or makes a call. *)
Theorem absent_module_by_method
    (w : Wrapper) (method : Method) (originalOptions : Obj) :
  enableNative w = true ->
  gated method = true ->
  startsNative originalOptions = true ->
  exec None (invoke None method) w = (whenUnavailable method, w, []) /\
  (is_shutdown method = false -> whenUnavailable method = Err NativeClientError) /\
  (is_shutdown method = true -> whenUnavailable method = Ok VUndefined) /\
  exec None (initNativeSdk None originalOptions) w = (Err NativeClientError, w, []).
Proof.
  intros Hw Hg Hopt. split; [now apply unavailable_run|].
  split; [destruct method; simpl; intros; congruence|].
  split; [destruct method; simpl; intros; congruence|].
  unfold startsNative in Hopt.
  apply andb_prop in Hopt as [Hopt Hdsn]. apply andb_prop in Hopt as [Hen Hauto].
  unfold exec, initNativeSdk. rewrite Hen, Hauto, Hdsn. reflexivity.
Qed.

Lemma absent_module_by_method_witness :
  exec None (invoke None (SetTag "k" (VStr "v"))) Samples.ios
  = (Err NativeClientError, Samples.ios, []) /\
  exec None (initNativeSdk None Samples.options) Samples.ios
  = (Err NativeClientError, Samples.ios, []).
Proof.
  pose proof (absent_module_by_method Samples.ios (SetTag "k" (VStr "v"))
                Samples.options eq_refl eq_refl eq_refl) as H.
  split; [apply H | apply H].
Defined.

End GateClaims.


(** ** The lifecycle of [enableNative] *)

Module LifecycleFacts.
Import JS Bridge NATIVE RunFacts.

Lemma clearsOnly_bind {A B} (p : Prog A) (f : A -> Prog B) :
  clearsOnly p -> (forall a, clearsOnly (f a)) -> clearsOnly (bind p f).
Proof.
  intros Hp Hf. induction Hp; simpl; auto; constructor; auto.
Qed.

Lemma clearsOnly_await c : clearsOnly (await c).
Proof. constructor. intros [v | e]; constructor. Qed.

Lemma clearsOnly_lift {A} (r : Result A) : clearsOnly (lift r).
Proof. destruct r; constructor. Qed.

Lemma clearsOnly_forward c : clearsOnly (forward c).
Proof.
  apply clearsOnly_bind; [apply clearsOnly_await | intros; constructor].
Qed.

Create HintDb bridge.
#[local] Hint Resolve clearsOnly_await clearsOnly_lift clearsOnly_forward : bridge.
#[local] Hint Constructors clearsOnly : bridge.

Lemma clearsOnly_sendAndroid event : clearsOnly (sendAndroid event).
Proof. constructor. intros r. apply clearsOnly_await. Qed.

Lemma clearsOnly_sendIOS event : clearsOnly (sendIOS event).
Proof. apply clearsOnly_bind; auto with bridge. Qed.

Lemma clearsOnly_warnIf condition msg k :
  clearsOnly k -> clearsOnly (warnIf condition msg k).
Proof. unfold warnIf. destruct (truthy condition); auto with bridge. Qed.

#[local] Hint Resolve clearsOnly_sendAndroid clearsOnly_sendIOS : bridge.

Ltac clears_only :=
  repeat match goal with
         | |- clearsOnly (This _) => constructor; intros ?
         | |- clearsOnly (Call _ _) => constructor; intros [? | ?]
         | |- clearsOnly (if ?b then _ else _) => destruct b
         | |- clearsOnly (match ?u with Some _ => _ | None => _ end) => destruct u
         | |- clearsOnly (warnIf _ _ _) => apply clearsOnly_warnIf
         | |- clearsOnly (bind _ _) => apply clearsOnly_bind; [|intros ?]
         | |- _ => solve [auto with bridge]
         end.

(** No method of the wrapper assigns [true] to [enableNative]. *)
Lemma clearsOnly_invoke RNSentry method : clearsOnly (invoke RNSentry method).
Proof.
  destruct method; simpl;
    unfold sendEvent, initNativeSdk, fetchNativeRelease, fetchNativeSdkInfo,
      fetchNativeDeviceContexts, fetchNativeAppStart, fetchNativeFrames,
      nativeCrash, setUser, setTag, setExtra, addBreadcrumb, clearBreadcrumbs,
      setContext, closeNativeSdk, disableNativeFramesTracking,
      isNativeTransportAvailable, fetching, forwarding;
    clears_only.
Qed.

(** A step of such a body leaves a cleared flag cleared, and the rest of the
    body is such a body again. *)
Lemma clearsOnly_step {A} (p p' : Prog A) w w' t :
  clearsOnly p -> step (p, w) t (p', w') ->
  clearsOnly p' /\
  (enableNative w = false -> enableNative w' = false) /\
  (forall b, In (ESetEnableNative b) t -> b = false).
Proof.
  intros Hp Hstep.
  inversion Hstep; subst; inversion Hp; subst; simpl;
    (split; [auto | split; [auto | intros b' Hin; simpl in Hin; intuition congruence]]).
Qed.

Lemma clearsOnly_steps {A} (c c' : Prog A * Wrapper) t :
  steps c t c' -> clearsOnly (fst c) ->
  clearsOnly (fst c') /\
  (enableNative (snd c) = false -> enableNative (snd c') = false) /\
  (forall b, In (ESetEnableNative b) t -> b = false).
Proof.
  induction 1 as [cfg | [p1 w1] t1 [p2 w2] t2 cfg3 Hstep Hsteps IH]; simpl.
  - intros Hp. repeat split; auto. intros b [].
  - intros Hp.
    destruct (clearsOnly_step _ _ _ _ _ Hp Hstep) as (Hp2 & Hw & Ht).
    destruct (IH Hp2) as (Hp3 & Hw3 & Ht3). simpl in *.
    repeat split; auto.
    intros b Hin. apply in_app_or in Hin as [Hin | Hin]; auto.
Qed.

(** A finished body takes no step. *)
Lemma steps_leaf {A} (r : Result A) w t c :
  steps (leaf r, w) t c -> t = [] /\ c = (leaf r, w).
Proof.
  intros H. inversion H as [| ? ? ? ? ? Hstep]; subst; auto.
  destruct r; inversion Hstep.
Qed.

(** The executions of [closeNativeSdk] from a state where native is enabled:
    as soon as the flag is cleared, the trace is the native call, resolved,
    followed by the assignment. *)
Lemma closeNativeSdk_steps RNSentry w t p' w' :
  steps (closeNativeSdk RNSentry, w) t (p', w') ->
  enableNative w = true ->
  (enableNative w' = true /\
   (t = [] \/ exists r, t = [ECall Native.closeNativeSdk r]))
  \/ (enableNative w' = false /\
      exists v, t = [ECall Native.closeNativeSdk (Ok v); ESetEnableNative false]).
Proof.
  intros H Hw. unfold closeNativeSdk in H.
  inversion H as [| ? ? ? ? ? Hstep Hrest]; subst; [left; auto|].
  inversion Hstep; subst. clear Hstep H. simpl. rewrite Hw in Hrest. simpl in Hrest.
  destruct (_isModuleLoaded RNSentry); simpl in Hrest.
  - inversion Hrest as [| ? ? ? ? ? Hstep Hrest']; subst; [left; auto|].
    inversion Hstep; subst. clear Hstep Hrest. simpl.
    destruct r as [v | e].
    + inversion Hrest' as [| ? ? ? ? ? Hstep Hrest'']; subst; [left; eauto|].
      inversion Hstep; subst. clear Hstep Hrest'.
      apply (steps_leaf (Ok VUndefined)) in Hrest'' as [-> [= -> ->]].
      right. simpl. eauto.
    + apply (steps_leaf (Err e)) in Hrest' as [-> [= -> ->]].
      left. eauto.
  - apply (steps_leaf (Ok VUndefined)) in Hrest as [-> [= -> ->]].
    left. auto.
Qed.

End LifecycleFacts.


Module LifecycleClaims.
Import JS Bridge NATIVE RunFacts LifecycleFacts.

(** C9: along every execution of every method, whatever the native side
    replies, [enableNative] is never assigned [true], so a flag that is
    false stays false; and in an execution of [closeNativeSdk] the assignment
    [enableNative = false] comes only after the native [closeNativeSdk] call
    has resolved: at any point where the flag has fallen, the trace is that
    call, resolved, followed by the assignment, and when the native promise
    rejects the flag is left as it was. *)
Theorem enableNative_only_falls
    (RNSentry : option Native.Handler) (method : Method)
    (w w' : Wrapper) (t : list Event) (p' : Prog value) :
  steps (invoke RNSentry method, w) t (p', w') ->
  (enableNative w = false -> enableNative w' = false) /\
  (forall b, In (ESetEnableNative b) t -> b = false) /\
  (method = CloseNativeSdk ->
   enableNative w = true -> enableNative w' = false ->
   exists v, t = [ECall Native.closeNativeSdk (Ok v); ESetEnableNative false]) /\
  (method = CloseNativeSdk ->
   forall pre post, t = pre ++ ESetEnableNative false :: post ->
   exists v, pre = [ECall Native.closeNativeSdk (Ok v)]) /\
  (forall m e,
     m Native.closeNativeSdk = Err e -> enableNative w = true ->
     exec (Some m) (closeNativeSdk (Some m)) w
     = (Err e, w, [ECall Native.closeNativeSdk (Err e)])).
Proof.
  intros Hsteps.
  destruct (clearsOnly_steps _ _ _ Hsteps (clearsOnly_invoke RNSentry method))
    as (_ & Hmono & Hwrites); simpl in Hmono.
  split; [exact Hmono|]. split; [exact Hwrites|].
  split; [|split].
  - intros -> Hw Hw'. simpl in Hsteps.
    destruct (closeNativeSdk_steps _ _ _ _ _ Hsteps Hw) as [[Ht _] | [_ Hv]]; auto.
    congruence.
  - intros -> pre post Ht. simpl in Hsteps.
    destruct (enableNative w) eqn:Hw.
    + destruct (closeNativeSdk_steps _ _ _ _ _ Hsteps Hw)
        as [[_ [-> | [r ->]]] | [_ [v ->]]].
      * destruct pre; discriminate.
      * destruct pre as [|x [|y pre]]; discriminate.
      * destruct pre as [|x [|y pre]]; try discriminate.
        -- exists v. now inversion Ht.
        -- inversion Ht. destruct pre; discriminate.
    + assert (Hin : In (ESetEnableNative false) t).
      { rewrite Ht. apply in_or_app. right. now left. }
      exfalso. clear Hwrites Hmono.
      unfold closeNativeSdk in Hsteps.
      inversion Hsteps as [| ? ? ? ? ? Hstep Hrest]; subst.
      * destruct pre; discriminate.
      * inversion Hstep; subst. simpl in Hrest. rewrite Hw in Hrest.
        apply (steps_leaf (Ok VUndefined)) in Hrest as [-> _].
        destruct pre; discriminate.
  - intros m e Hm Hw. unfold exec, closeNativeSdk. simpl.
    rewrite Hw. simpl. rewrite Hm. reflexivity.
Qed.

Lemma enableNative_only_falls_witness :
  exists v,
    trace (exec (Some Samples.accepting)
                (closeNativeSdk (Some Samples.accepting)) Samples.ios)
    = [ECall Native.closeNativeSdk (Ok v); ESetEnableNative false].
Proof.
  apply (proj1 (proj2 (proj2
           (enableNative_only_falls (Some Samples.accepting) CloseNativeSdk
              Samples.ios _ _ _
              (run_steps Samples.accepting
                 (invoke (Some Samples.accepting) CloseNativeSdk) Samples.ios)))));
    reflexivity.
Defined.

End LifecycleClaims.


(** ** The scope bridge: [setUser] *)

Module UserFacts.
Import JS Bridge NATIVE ObjFacts SerializerFacts.

(** The default-keys map always has the four keys, in the order of the
    literal. *)
Lemma defaultUserKeys_eq (user : Obj) :
  defaultUserKeys user =
  [("email", stringified (prop user "email"));
   ("id", stringified (prop user "id"));
   ("ip_address", stringified (prop user "ip_address"));
   ("username", stringified (prop user "username"))].
Proof. reflexivity. Qed.

Lemma defaultUserKeys_get (user : Obj) f :
  In f defaultKeys ->
  get (defaultUserKeys user) f = Some (stringified (prop user f)).
Proof.
  rewrite defaultUserKeys_eq.
  intros [<- | [<- | [<- | [<- | []]]]]; reflexivity.
Qed.

(** The other-keys map has every remaining key of the user. *)
Lemma otherUserKeys_get (user : Obj) k :
  get (otherUserKeys user) k =
  if in_dec string_dec k defaultKeys then None
  else option_map stringified (get user k).
Proof.
  unfold otherUserKeys. rewrite serialize_get, get_rest.
  fold defaultKeys. now destruct (in_dec string_dec k defaultKeys).
Qed.

(** One native call, with the two maps. *)
Lemma setUser_run (m : Native.Handler) (w : Wrapper) (user : Obj) :
  enableNative w = true ->
  exec (Some m) (setUser (Some m) (Some user)) w =
  let c := Native.setUser (VObj (defaultUserKeys user)) (VObj (otherUserKeys user)) in
  (rbind (m c) (fun _ => Ok VUndefined), w, [ECall c (m c)]).
Proof.
  intros Hw. unfold exec, setUser, forwarding. simpl. rewrite Hw. simpl.
  now destruct (m _).
Qed.

(** [setUser(null)] forwards two nulls. *)
Lemma setUser_null_run (m : Native.Handler) (w : Wrapper) :
  enableNative w = true ->
  exec (Some m) (setUser (Some m) None) w =
  let c := Native.setUser VNull VNull in
  (rbind (m c) (fun _ => Ok VUndefined), w, [ECall c (m c)]).
Proof.
  intros Hw. unfold exec, setUser, forwarding. simpl. rewrite Hw. simpl.
  now destruct (m _).
Qed.

(** When the four default fields are present and no value of the user is
    [undefined], every forwarded value is a string. *)
Lemma setUser_strings (user : Obj) k v :
  (forall f, In f defaultKeys -> prop user f <> VUndefined) ->
  (forall k' v', get user k' = Some v' -> v' <> VUndefined) ->
  get (defaultUserKeys user) k = Some v \/ get (otherUserKeys user) k = Some v ->
  is_string v = true.
Proof.
  intros Hdef Hall [H | H].
  - rewrite defaultUserKeys_eq in H. simpl in H.
    repeat match type of H with
           | (if ?b then _ else _) = _ => destruct b eqn:?
           end; try discriminate; inversion H; subst;
      apply stringified_is_string, Hdef; simpl; auto.
  - rewrite otherUserKeys_get in H.
    destruct (in_dec string_dec k defaultKeys); [discriminate|].
    destruct (get user k) as [x|] eqn:E; [|discriminate].
    inversion H; subst. apply stringified_is_string. eauto.
Qed.

(** The example of the spec. *)
Example setUser_full :
  calls (trace (exec (Some Samples.accepting)
                     (setUser (Some Samples.accepting) (Some Samples.fullUser))
                     Samples.ios))
  = [Native.setUser
       (VObj [("email", VStr "e@x.com"); ("id", VStr "1");
              ("ip_address", VStr "1.2.3.4"); ("username", VStr "u")])
       (VObj [("plan", VStr "pro")])].
Proof. reflexivity. Qed.

End UserFacts.


Module SerializerClaims.
Import JS Bridge NATIVE ObjFacts SerializerFacts UserFacts.

(** C6, at an input where the code departs from it: the serializer keeps the
    keys, passes the string through and writes the number and the nested
    object as their JSON text, the nested object whole; but the value
    [undefined], which has no JSON text, is left [undefined] under its key:
    the result is not a map to strings. *)
Theorem serializeObject_undefined_value :
  _serializeObject
    [("a", VStr "x"); ("b", VNum 5); ("c", VObj [("k", VNum 1)]);
     ("d", VUndefined)]
  = [("a", VStr "x"); ("b", VStr "5");
     ("c", JSON.stringify (VObj [("k", VNum 1)])); ("d", VUndefined)]
  /\ is_string (JSON.stringify (VObj [("k", VNum 1)])) = true
  /\ JSON.parse (JSON.stringify (VObj [("k", VNum 1)])) = Ok (VObj [("k", VNum 1)])
  /\ JSON.text VUndefined = None
  /\ is_string VUndefined = false.
Proof. repeat split. Qed.

(** C7, at an input where the code departs from it: for a user that has no
    [id], [ip_address] or [username], the one native [setUser] call receives
    a default-keys map with the four keys, three of them [undefined] and not
    strings; the other-keys map holds the remaining key, as a string. *)
Theorem setUser_missing_default_keys :
  calls (trace (exec (Some Samples.accepting)
                     (setUser (Some Samples.accepting) (Some Samples.partialUser))
                     Samples.ios))
  = [Native.setUser
       (VObj [("email", VStr "e@x.com"); ("id", VUndefined);
              ("ip_address", VUndefined); ("username", VUndefined)])
       (VObj [("plan", VStr "3")])]
  /\ is_string VUndefined = false
  /\ calls (trace (exec (Some Samples.accepting)
                        (setUser (Some Samples.accepting) None) Samples.ios))
     = [Native.setUser VNull VNull].
Proof. repeat split. Qed.

(** C10: a key whose value is [undefined] is kept by [_serializeObject] with
    the value [undefined], which is not a string; and [setUser], for a user
    whose default field [f] is missing (or [undefined]), forwards in its one
    native call a default-keys map whose value under [f] is [undefined]. *)
Theorem undefined_survives_serialization
    (m : Native.Handler) (w : Wrapper) (data user : Obj) (k f : string) :
  get data k = Some VUndefined ->
  enableNative w = true ->
  In f defaultKeys ->
  prop user f = VUndefined ->
  get (_serializeObject data) k = Some VUndefined /\
  is_string VUndefined = false /\
  calls (trace (exec (Some m) (setUser (Some m) (Some user)) w))
  = [Native.setUser (VObj (defaultUserKeys user)) (VObj (otherUserKeys user))] /\
  get (defaultUserKeys user) f = Some VUndefined.
Proof.
  intros Hk Hw Hf Hu. split; [|split; [reflexivity|split]].
  - rewrite serialize_get, Hk. reflexivity.
  - rewrite setUser_run by assumption. reflexivity.
  - rewrite defaultUserKeys_get by assumption. now rewrite Hu.
Qed.

Lemma undefined_survives_serialization_witness :
  get (_serializeObject [("a", VUndefined)]) "a" = Some VUndefined /\
  get (defaultUserKeys Samples.partialUser) "id" = Some VUndefined.
Proof.
  pose proof (undefined_survives_serialization
                Samples.accepting Samples.ios [("a", VUndefined)]
                Samples.partialUser "a" "id"
                eq_refl eq_refl (or_introl eq_refl) eq_refl) as H.
  split; apply H.
Defined.

End SerializerClaims.


(** ** Severity levels and the envelope *)

Module EnvelopeFacts.
Import JS Bridge NATIVE ObjFacts JSONFacts WellFormedFacts.

Lemma set_same (o : Obj) k v : get o k = Some v -> set o k v = o.
Proof.
  induction o as [|[k' v'] o IH]; simpl; [discriminate|].
  destruct (String.eqb_spec k k').
  - now intros [= ->].
  - intros H. now rewrite IH.
Qed.

Lemma rmap_Forall2 {A B} (f : A -> Result B) (l : list A) : forall l',
  rmap f l = Ok l' -> Forall2 (fun x y => f x = Ok y) l l'.
Proof.
  induction l as [|x l IH]; simpl; intros l' H.
  - inversion H. constructor.
  - destruct (f x) as [y|] eqn:E; simpl in H; [|discriminate].
    destruct (rmap f l) as [ys|]; simpl in H; [|discriminate].
    inversion H; subst. constructor; auto.
Qed.

Lemma processLevel_critical : _processLevel (VStr Severity.Critical) = VStr Severity.Fatal.
Proof. reflexivity. Qed.

Lemma processLevel_log : _processLevel (VStr Severity.Log) = VStr Severity.Debug.
Proof. reflexivity. Qed.

Lemma strict_eq_string_spec v s : strict_eq_string v s = true <-> v = VStr s.
Proof.
  destruct v; simpl; try (split; [discriminate | congruence]).
  rewrite String.eqb_eq. split; congruence.
Qed.

Lemma processLevel_other level :
  level <> VStr Severity.Critical -> level <> VStr Severity.Log ->
  _processLevel level = level.
Proof.
  intros H1 H2. unfold _processLevel.
  destruct (strict_eq_string level Severity.Critical) eqn:E1.
  - apply strict_eq_string_spec in E1. contradiction.
  - destruct (strict_eq_string level Severity.Log) eqn:E2; auto.
    apply strict_eq_string_spec in E2. contradiction.
Qed.

(** A breadcrumb object keeps its properties; its level is processed. *)
Lemma processBreadcrumb_obj (o : Obj) :
  processBreadcrumb (VObj o)
  = Ok (VObj (set o "level" (processedLevel (prop o "level")))).
Proof. reflexivity. Qed.

Lemma getProp_Ok b k v : getProp b k = Ok v -> v = member b k.
Proof. destruct b; simpl; congruence. Qed.

Lemma processBreadcrumb_level b b' :
  processBreadcrumb b = Ok b' ->
  member b' "level" = processedLevel (member b "level").
Proof.
  unfold processBreadcrumb. intros H.
  destruct (getProp b "level") as [level|] eqn:E; simpl in H; [|discriminate].
  apply getProp_Ok in E. inversion H; subst.
  change (member (VObj ?o) ?k) with (prop o k).
  rewrite prop_get. unfold assign. simpl. now rewrite get_set_same.
Qed.

Lemma processBreadcrumb_other b b' k :
  processBreadcrumb b = Ok b' -> k <> "level" ->
  get (ownProps b') k = get (ownProps b) k.
Proof.
  unfold processBreadcrumb. intros H Hk.
  destruct (getProp b "level"); simpl in H; [|discriminate].
  inversion H; subst. simpl. unfold assign. simpl.
  apply get_set_other. congruence.
Qed.

(** A breadcrumb whose level is already one the native side knows is
    unchanged. *)
Lemma processBreadcrumb_same (o : Obj) level :
  get o "level" = Some level -> truthy level = true ->
  _processLevel level = level ->
  processBreadcrumb (VObj o) = Ok (VObj o).
Proof.
  intros Hget Ht Hp. rewrite processBreadcrumb_obj.
  rewrite prop_get, Hget. unfold processedLevel. rewrite Ht, Hp.
  now rewrite set_same.
Qed.

Lemma prepared_eq _event event :
  prepared _event = Ok event ->
  exists breadcrumbs,
    processBreadcrumbs (prop _event "breadcrumbs") = Ok breadcrumbs /\
    event = delete (assign _event [("level", processedLevel (prop _event "level"));
                                   ("breadcrumbs", breadcrumbs)])
                   "sdkProcessingMetadata".
Proof.
  unfold prepared, _processLevels. intros H.
  destruct (processBreadcrumbs (prop _event "breadcrumbs")) as [bc|] eqn:E;
    simpl in H; [|discriminate].
  inversion H. eauto.
Qed.

Lemma prepared_level _event event :
  prepared _event = Ok event ->
  prop event "level" = processedLevel (prop _event "level").
Proof.
  intros H. destruct (prepared_eq _ _ H) as (bc & _ & ->).
  rewrite prop_get, get_delete_other, get_assign by discriminate. reflexivity.
Qed.

Lemma prepared_breadcrumbs _event event :
  prepared _event = Ok event ->
  processBreadcrumbs (prop _event "breadcrumbs") = Ok (prop event "breadcrumbs").
Proof.
  intros H. destruct (prepared_eq _ _ H) as (bc & Hbc & ->).
  rewrite (prop_get (delete _ _)), get_delete_other, get_assign by discriminate.
  exact Hbc.
Qed.

Lemma prepared_other _event event k :
  prepared _event = Ok event ->
  k <> "level" -> k <> "breadcrumbs" -> k <> "sdkProcessingMetadata" ->
  prop event k = prop _event k.
Proof.
  intros H H1 H2 H3. destruct (prepared_eq _ _ H) as (bc & _ & ->).
  rewrite !prop_get, get_delete_other, get_assign by congruence.
  simpl. destruct (String.eqb_spec k "breadcrumbs"); [contradiction|].
  destruct (String.eqb_spec k "level"); [contradiction|]. reflexivity.
Qed.

Lemma prepared_metadata _event event :
  prepared _event = Ok event -> get event "sdkProcessingMetadata" = None.
Proof.
  intros H. destruct (prepared_eq _ _ H) as (bc & _ & ->).
  apply get_delete_same.
Qed.

Lemma prepared_handled _event event :
  prepared _event = Ok event -> handled event = handled _event.
Proof.
  intros H. unfold handled.
  now rewrite (prepared_other _ _ "exception" H) by discriminate.
Qed.

(** The breadcrumbs of a prepared event, when the event had a list. *)
Lemma prepared_breadcrumb_list _event event crumbs :
  prepared _event = Ok event ->
  prop _event "breadcrumbs" = VArr crumbs ->
  exists crumbs',
    prop event "breadcrumbs" = VArr crumbs' /\
    Forall2 (fun b b' => processBreadcrumb b = Ok b') crumbs crumbs'.
Proof.
  intros H Hc. apply prepared_breadcrumbs in H. rewrite Hc in H. simpl in H.
  destruct (rmap processBreadcrumb crumbs) as [l'|] eqn:E; simpl in H; [|discriminate].
  inversion H. exists l'. split; auto. now apply rmap_Forall2.
Qed.

(** An event whose breadcrumbs, if any, are a list of objects is prepared
    without a [TypeError]. *)
Lemma prepared_typed (_event : Obj) :
  prop _event "breadcrumbs" = VUndefined \/
  (exists crumbs,
      prop _event "breadcrumbs" = VArr crumbs /\
      Forall (fun b => exists o, b = VObj o) crumbs) ->
  exists event, prepared _event = Ok event.
Proof.
  unfold prepared, _processLevels.
  intros [-> | (crumbs & -> & Hall)]; simpl; eauto.
  assert (H : exists crumbs', rmap processBreadcrumb crumbs = Ok crumbs').
  { induction Hall as [|b l (o & ->) Hl (l' & IH)]; simpl; eauto.
    rewrite IH. simpl. eauto. }
  destruct H as (crumbs' & ->). simpl. eauto.
Qed.

(** *** The two payloads *)

Lemma wrapMessage_get (event : Obj) k :
  get (wrapMessage event) k =
  if String.eqb k "message"
  then Some (VObj [("message", prop event "message")])
  else get event k.
Proof.
  unfold wrapMessage. rewrite get_assign. simpl.
  now destruct (String.eqb k "message").
Qed.

Lemma clear_get (event : Obj) k :
  k <> "breadcrumbs" -> get (clearBreadcrumbsUnlessCrash event) k = get event k.
Proof.
  intros Hk. unfold clearBreadcrumbsUnlessCrash.
  destruct (clearing event); auto. apply get_set_other. congruence.
Qed.

(** Outside [breadcrumbs] the two payloads agree. *)
Lemma payloads_agree (event : Obj) k :
  k <> "breadcrumbs" -> prop (androidPayload event) k = prop (iosPayload event) k.
Proof.
  intros Hk. unfold androidPayload, iosPayload.
  rewrite !prop_get, !wrapMessage_get, !prop_get.
  rewrite !clear_get by (assumption || discriminate). reflexivity.
Qed.

Lemma iosPayload_breadcrumbs (event : Obj) :
  prop (iosPayload event) "breadcrumbs" = prop event "breadcrumbs".
Proof. unfold iosPayload. now rewrite !prop_get, wrapMessage_get. Qed.

Lemma androidPayload_cleared (event : Obj) :
  clearing event = true -> prop (androidPayload event) "breadcrumbs" = VArr [].
Proof.
  intros H. unfold androidPayload, clearBreadcrumbsUnlessCrash. rewrite H.
  rewrite prop_get, wrapMessage_get. simpl. now rewrite get_set_same.
Qed.

Lemma androidPayload_kept (event : Obj) :
  clearing event = false -> androidPayload event = iosPayload event.
Proof.
  intros H. unfold androidPayload, clearBreadcrumbsUnlessCrash. now rewrite H.
Qed.

(** *** What [sendEvent] hands to the native module *)

Lemma sendEvent_prepared (m : Native.Handler) (w : Wrapper) (_event : Obj) :
  enableNative w = true ->
  exec (Some m) (sendEvent (Some m) _event) w =
  match prepared _event with
  | Ok event =>
      run m (envelopeWasSent <-
               (if String.eqb (platform w) "android"
                then sendAndroid event else sendIOS event) ;;
             Return (response envelopeWasSent)) w
  | Err e => (Err e, w, [])
  end.
Proof.
  intros Hw. unfold exec, sendEvent, prepared. simpl. rewrite Hw. simpl.
  destruct (_processLevels _event); reflexivity.
Qed.

Lemma sendAndroid_run (m : Native.Handler) (w : Wrapper) (event : Obj) :
  run m (envelopeWasSent <- sendAndroid event ;;
         Return (response envelopeWasSent)) w =
  let payloadString := JSON.stringify (VObj (androidPayload event)) in
  let c1 := Native.getStringBytesLength payloadString in
  let c2 := Native.captureEnvelope (androidEnvelope event (m c1)) in
  (rbind (m c2) (fun sent => Ok (response sent)), w,
   [ECall c1 (m c1); ECall c2 (m c2)]).
Proof.
  simpl. unfold androidEnvelope.
  destruct (m (Native.captureEnvelope _)); reflexivity.
Qed.

Lemma sendIOS_run (m : Native.Handler) (w : Wrapper) (event : Obj) :
  run m (envelopeWasSent <- sendIOS event ;;
         Return (response envelopeWasSent)) w =
  match JSON.parse (JSON.stringify (VObj (iosPayload event))) with
  | Ok serializedPayload =>
      let c := Native.captureEnvelope (iosEnvelope event serializedPayload) in
      (rbind (m c) (fun sent => Ok (response sent)), w, [ECall c (m c)])
  | Err e => (Err e, w, [])
  end.
Proof.
  unfold sendIOS.
  destruct (JSON.parse (JSON.stringify (VObj (iosPayload event)))); simpl; auto.
  unfold iosEnvelope. destruct (m (Native.captureEnvelope _)); reflexivity.
Qed.

(** On Android the payload text is measured and then sent as the third line
    of the envelope, after the header and the item. *)
Lemma android_sent (m : Native.Handler) (w : Wrapper) (_event event : Obj) :
  enableNative w = true -> platform w = "android" ->
  prepared _event = Ok event ->
  exec (Some m) (sendEvent (Some m) _event) w =
  let payloadString := JSON.stringify (VObj (androidPayload event)) in
  let c1 := Native.getStringBytesLength payloadString in
  let c2 := Native.captureEnvelope (androidEnvelope event (m c1)) in
  (rbind (m c2) (fun sent => Ok (response sent)), w,
   [ECall c1 (m c1); ECall c2 (m c2)]).
Proof.
  intros Hw Hp He. rewrite sendEvent_prepared, He, Hp by assumption.
  simpl String.eqb. cbv iota. now rewrite sendAndroid_run.
Qed.

(** Both payloads can be read back from their text. *)
Lemma payload_parses (payload : Obj) :
  JSON.wellFormed (VObj payload) ->
  JSON.parse (JSON.stringify (VObj payload)) = Ok (JSON.clone (VObj payload)).
Proof. intros H. apply parse_stringify; [discriminate | exact H]. Qed.

(** On iOS the payload object is [iosPayload], written out and read back. *)
Lemma ios_sent (m : Native.Handler) (w : Wrapper) (_event event : Obj) :
  enableNative w = true -> platform w <> "android" ->
  JSON.wellFormed (VObj _event) ->
  prepared _event = Ok event ->
  calls (trace (exec (Some m) (sendEvent (Some m) _event) w))
  = [Native.captureEnvelope
       (iosEnvelope event (JSON.clone (VObj (iosPayload event))))].
Proof.
  intros Hw Hp Hwf He. rewrite sendEvent_prepared, He by assumption.
  destruct (String.eqb_spec (platform w) "android"); [contradiction|].
  rewrite sendIOS_run, payload_parses.
  - reflexivity.
  - apply wellFormed_iosPayload. eapply wellFormed_prepared; eauto.
Qed.

Lemma addBreadcrumb_run (m : Native.Handler) (w : Wrapper) (breadcrumb : Obj) :
  enableNative w = true ->
  exists sent,
    calls (trace (exec (Some m) (addBreadcrumb (Some m) breadcrumb) w))
    = [Native.addBreadcrumb (VObj sent)] /\
    prop sent "level" = processedLevel (prop breadcrumb "level") /\
    forall k, k <> "level" -> k <> "data" -> prop sent k = prop breadcrumb k.
Proof.
  intros Hw.
  exists (assign breadcrumb
            [("level", processedLevel (prop breadcrumb "level"));
             ("data",
              if truthy (prop breadcrumb "data")
              then VObj (_serializeObject (ownProps (prop breadcrumb "data")))
              else VUndefined)]).
  split.
  - unfold exec, addBreadcrumb, forwarding. simpl. rewrite Hw. simpl.
    destruct (m (Native.addBreadcrumb _)); reflexivity.
  - split.
    + rewrite prop_get, get_assign. reflexivity.
    + intros k H1 H2. rewrite !prop_get, get_assign. simpl.
      destruct (String.eqb_spec k "data"); [contradiction|].
      destruct (String.eqb_spec k "level"); [contradiction|]. reflexivity.
Qed.

End EnvelopeFacts.

(** ** What is read back from a JSON text *)

Module ReadBackFacts.
Import JS JSON ObjFacts JSONFacts.

(** A value in which no [undefined] occurs is the value its text denotes. *)
Lemma clone_definite (v : value) : definite v = true -> clone v = v.
Proof.
  induction v as [| |b|n|s|items IH|props IH] using value_ind;
    try reflexivity; try discriminate.
  - intros H. change (forallb definite items = true) in H.
    change (VArr (map clone items) = VArr items). f_equal.
    induction IH as [|x l Hx Hl IHl]; [reflexivity|].
    simpl in H. apply andb_prop in H as [H1 H2]. simpl.
    now rewrite Hx, IHl.
  - intros H. change (forallb (fun kv => definite (snd kv)) props = true) in H.
    rewrite clone_object. f_equal.
    induction IH as [|[k x] l Hx Hl IHl]; [reflexivity|].
    simpl in H. apply andb_prop in H as [H1 H2].
    rewrite cloneProps_defined by (intros ->; discriminate).
    simpl in Hx. now rewrite Hx, IHl.
Qed.

Lemma definite_defined (v : value) : definite v = true -> v <> VUndefined.
Proof. intros H ->. discriminate. Qed.

(** A property of the object read back: gone when it was [undefined], and
    otherwise what its text denotes. *)
Lemma get_cloneProps (o : Obj) k :
  NoDup (keys o) ->
  get (cloneProps o) k
  = match get o k with
    | Some VUndefined => None
    | Some x => Some (clone x)
    | None => None
    end.
Proof.
  induction o as [|[k' x] o IH]; intros Hnd; [reflexivity|].
  inversion Hnd as [|? ? Hk Hnd']; subst.
  destruct (undefined_dec x) as [-> | Hx].
  - rewrite cloneProps_undefined, IH by assumption. simpl.
    destruct (String.eqb_spec k k'); [subst|reflexivity].
    apply get_None in Hk. now rewrite Hk.
  - rewrite cloneProps_defined by assumption. simpl.
    destruct (String.eqb_spec k k'); [now destruct x | now apply IH].
Qed.

Lemma prop_cloneProps (o : Obj) k :
  NoDup (keys o) ->
  prop (cloneProps o) k
  = match prop o k with
    | VUndefined => VUndefined
    | x => clone x
    end.
Proof.
  intros Hnd. rewrite !prop_get, get_cloneProps by assumption.
  destruct (get o k) as [x|]; [now destruct x | reflexivity].
Qed.

(** A property in which no [undefined] occurs is read back as it is; so is
    one that is [undefined] or missing. *)
Lemma prop_cloneProps_definite (o : Obj) k :
  NoDup (keys o) -> definite (prop o k) = true ->
  prop (cloneProps o) k = prop o k.
Proof.
  intros Hnd Hd. rewrite prop_cloneProps by assumption.
  pose proof (clone_definite _ Hd) as Hc.
  destruct (prop o k); auto.
Qed.

Lemma prop_cloneProps_undefined (o : Obj) k :
  NoDup (keys o) -> prop o k = VUndefined -> prop (cloneProps o) k = VUndefined.
Proof. intros Hnd H. now rewrite prop_cloneProps, H. Qed.

End ReadBackFacts.

(** ** Line feeds in a JSON text *)

Module LineFacts.
Import JS JSON Sessions JSONFacts.

Lemma lineFeeds_app (a b : string) :
  lineFeeds (a ++ b)%string = lineFeeds a + lineFeeds b.
Proof. unfold lineFeeds. now rewrite chars_app, count_occ_app. Qed.

Lemma escape_no_lf (c : ascii) : count_occ ascii_dec (escape c) "010"%char = 0.
Proof. destruct c as [[] [] [] [] [] [] [] []]; reflexivity. Qed.

Lemma quote_no_lf (s : string) : lineFeeds (quote s) = 0.
Proof.
  unfold lineFeeds. rewrite chars_quote. simpl.
  rewrite count_occ_app. simpl.
  induction (chars s) as [|c l IH]; simpl; auto.
  rewrite count_occ_app, escape_no_lf. exact IH.
Qed.

Lemma digit_no_lf (l : list ascii) :
  forallb is_digit l = true -> count_occ ascii_dec l "010"%char = 0.
Proof.
  induction l as [|c l IH]; simpl; auto.
  intros H. apply andb_prop in H as [Hc Hl].
  destruct (ascii_dec c "010"%char) as [-> | _]; [discriminate | auto].
Qed.

Lemma number_no_lf (n : Z) : lineFeeds (string_of_Z n) = 0.
Proof.
  unfold lineFeeds, string_of_Z.
  assert (H : forall d, count_occ ascii_dec (chars (NilZero.string_of_uint d)) "010"%char = 0).
  { intros d. destruct d; try reflexivity;
      apply digit_no_lf; apply (digits_of_uint (_ d)). }
  destruct n as [|p|p]; simpl Z.to_int; simpl NilZero.string_of_int.
  - reflexivity.
  - apply H.
  - simpl. apply H.
Qed.

Lemma join_no_lf (l : list string) :
  Forall (fun s => lineFeeds s = 0) l -> lineFeeds (join "," l) = 0.
Proof.
  induction 1 as [|s l Hs Hl IH]; [reflexivity|].
  destruct l as [|s' l].
  - now rewrite join_single.
  - rewrite join_cons, !lineFeeds_app, Hs, IH. reflexivity.
Qed.

(** A JSON text has no line feed. *)
Lemma element_no_lf (v : value) : lineFeeds (element v) = 0.
Proof.
  induction v as [| |b|n|s|items IH|props IH] using value_ind;
    try reflexivity.
  - now destruct b.
  - apply number_no_lf.
  - apply quote_no_lf.
  - unfold element. rewrite text_array, !lineFeeds_app, join_no_lf.
    + reflexivity.
    + apply Forall_map. exact IH.
  - unfold element. rewrite text_object, !lineFeeds_app, join_no_lf.
    + reflexivity.
    + induction IH as [|[k x] o Hx Ho IHo]; [constructor|].
      destruct (undefined_dec x) as [-> | Hdef].
      * rewrite members_undefined. exact IHo.
      * rewrite members_defined by assumption. constructor; auto.
        rewrite !lineFeeds_app, quote_no_lf. exact Hx.
Qed.

Lemma stringify_object (o : Obj) : stringify (VObj o) = VStr (element (VObj o)).
Proof. reflexivity. Qed.

End LineFacts.

(** ** What [sendEvent] hands to the native module, call by call *)

Module CaptureFacts.
Import JS Bridge NATIVE Sessions ObjFacts JSONFacts WellFormedFacts EnvelopeFacts
       LineFacts ReadBackFacts.

Lemma string_of_nat_not_length (n : nat) : string_of_nat n <> "length".
Proof.
  unfold string_of_nat. intros H.
  destruct (uint_starts_digit (Nat.to_uint n) []) as (c & l & E & Hc).
  rewrite H in E. simpl in E. inversion E; subst. discriminate.
Qed.

(** The [length] of a string is the number of its characters. *)
Lemma member_length (t : string) :
  member (VStr t) "length" = VNum (Z.of_nat (String.length t)).
Proof.
  unfold member.
  assert (H : get (ownProps (VStr t)) "length" = None).
  { apply get_None. simpl ownProps. rewrite keys_indexed.
    intros Hin. apply in_map_iff in Hin as (n & Hn & _).
    exact (string_of_nat_not_length n Hn). }
  rewrite H. reflexivity.
Qed.

Lemma processed_prepared (_event processed : Obj) :
  _processLevels _event = Ok processed ->
  prepared _event = Ok (delete processed "sdkProcessingMetadata").
Proof. intros H. unfold prepared. now rewrite H. Qed.

(** The breadcrumbs that [_processLevels] returns are those of the prepared
    event. *)
Lemma processed_breadcrumbs (_event processed : Obj) :
  _processLevels _event = Ok processed ->
  prop (delete processed "sdkProcessingMetadata") "breadcrumbs"
  = prop processed "breadcrumbs".
Proof.
  intros _. now rewrite !prop_get, get_delete_other by discriminate.
Qed.

Lemma header_of (_event event : Obj) :
  prepared _event = Ok event ->
  header event = [("event_id", prop _event "event_id"); ("sdk", prop _event "sdk")].
Proof.
  intros He. unfold header.
  rewrite (prepared_other _ _ "event_id" He), (prepared_other _ _ "sdk" He)
    by discriminate.
  reflexivity.
Qed.

Lemma get_payloads (event : Obj) k :
  k <> "breadcrumbs" -> get (androidPayload event) k = get (iosPayload event) k.
Proof.
  intros Hk. unfold androidPayload, iosPayload.
  rewrite !wrapMessage_get, !prop_get.
  rewrite !clear_get by (assumption || discriminate). reflexivity.
Qed.

Lemma iosPayload_message (_event event : Obj) :
  prepared _event = Ok event ->
  prop (iosPayload event) "message" = VObj [("message", prop _event "message")].
Proof.
  intros He. unfold iosPayload. rewrite prop_get, wrapMessage_get. simpl.
  now rewrite (prepared_other _ _ "message" He) by discriminate.
Qed.

Lemma iosPayload_other (_event event : Obj) k :
  prepared _event = Ok event ->
  k <> "level" -> k <> "breadcrumbs" -> k <> "message" ->
  k <> "sdkProcessingMetadata" ->
  prop (iosPayload event) k = prop _event k.
Proof.
  intros He H1 H2 H3 H4. unfold iosPayload. rewrite prop_get, wrapMessage_get.
  destruct (String.eqb_spec k "message"); [contradiction|].
  rewrite <- prop_get. now apply prepared_other.
Qed.

Lemma iosPayload_level (_event event : Obj) :
  prepared _event = Ok event ->
  prop (iosPayload event) "level"
  = (if truthy (prop _event "level") then _processLevel (prop _event "level")
     else VUndefined).
Proof.
  intros He. unfold iosPayload. rewrite prop_get, wrapMessage_get. simpl.
  rewrite <- prop_get. now apply prepared_level.
Qed.

Lemma iosPayload_metadata (_event event : Obj) :
  prepared _event = Ok event -> get (iosPayload event) "sdkProcessingMetadata" = None.
Proof.
  intros He. unfold iosPayload. rewrite wrapMessage_get. simpl.
  exact (prepared_metadata _event event He).
Qed.

Lemma item_of (_event event : Obj) (length : value) :
  prepared _event = Ok event ->
  item (androidPayload event) length
  = [("content_type", VStr "application/json"); ("length", length);
     ("type", nullish (prop _event "type") (VStr "event"))].
Proof.
  intros He. unfold item.
  rewrite (payloads_agree event "type") by discriminate.
  rewrite (iosPayload_other _event event "type" He) by discriminate.
  reflexivity.
Qed.

(** What a processed breadcrumb is: the breadcrumb with its level
    normalized. *)
Lemma processBreadcrumb_explicit (b b' : value) :
  processBreadcrumb b = Ok b' ->
  b' = VObj (assign (ownProps b)
               [("level", if truthy (member b "level")
                          then _processLevel (member b "level")
                          else VUndefined)]).
Proof.
  unfold processBreadcrumb. intros H.
  destruct (getProp b "level") as [level|] eqn:E; simpl in H; [|discriminate].
  apply getProp_Ok in E. subst level. now inversion H.
Qed.

(** The guard of the Android branch, from the event as it was given. *)
Lemma clearing_list (_event event : Obj) (crumbs : list value) :
  prepared _event = Ok event ->
  prop _event "breadcrumbs" = VArr crumbs ->
  clearing event = loose_ne_false (handled _event).
Proof.
  intros He Hc. destruct (prepared_breadcrumb_list _ _ _ He Hc) as (l & Hl & _).
  unfold clearing. rewrite (prepared_handled _ _ He), Hl. simpl.
  apply andb_true_r.
Qed.

Lemma clearing_none (_event event : Obj) :
  prepared _event = Ok event ->
  prop _event "breadcrumbs" = VUndefined \/ prop _event "breadcrumbs" = VNull ->
  clearing event = false.
Proof.
  intros He Hc. pose proof (prepared_breadcrumbs _ _ He) as H.
  unfold clearing.
  destruct Hc as [Hc | Hc]; rewrite Hc in H; simpl in H; injection H as H';
    rewrite <- H'; apply andb_false_r.
Qed.

(** The two calls of the Android branch, written out. *)
Lemma android_captured (m : Native.Handler) (w : Wrapper) (_event event : Obj) :
  enableNative w = true -> platform w = "android" ->
  prepared _event = Ok event ->
  let payloadString := JSON.element (VObj (androidPayload event)) in
  let reply := m (Native.getStringBytesLength (VStr payloadString)) in
  let length :=
    match reply with
    | Ok n => n
    | Err _ => VNum (Z.of_nat (String.length payloadString))
    end in
  let headerString :=
    JSON.element (VObj [("event_id", prop _event "event_id");
                        ("sdk", prop _event "sdk")]) in
  let itemString :=
    JSON.element (VObj [("content_type", VStr "application/json");
                        ("length", length);
                        ("type", nullish (prop _event "type") (VStr "event"))]) in
  let c :=
    Native.captureEnvelope
      (VStr (headerString ++ newline ++ itemString ++ newline ++ payloadString)) in
  exec (Some m) (sendEvent (Some m) _event) w
  = (rbind (m c) (fun sent => Ok (response sent)), w,
     [ECall (Native.getStringBytesLength (VStr payloadString)) reply;
      ECall c (m c)]).
Proof.
  intros Hw Hp He. cbv zeta.
  rewrite (android_sent m w _event event Hw Hp He). cbv zeta.
  unfold androidEnvelope.
  change (JSON.stringify (VObj (androidPayload event)))
    with (VStr (JSON.element (VObj (androidPayload event)))).
  set (reply := m (Native.getStringBytesLength _)).
  assert (Hlen : match reply with
                 | Ok n => n
                 | Err _ => member (VStr (JSON.element (VObj (androidPayload event))))
                                   "length"
                 end
                 = match reply with
                   | Ok n => n
                   | Err _ => VNum (Z.of_nat (String.length
                                       (JSON.element (VObj (androidPayload event)))))
                   end).
  { destruct reply; [reflexivity | apply member_length]. }
  rewrite Hlen, (item_of _event event _ He), (header_of _event event He).
  reflexivity.
Qed.

(** The one call of the iOS branch, written out. *)
Lemma ios_captured (m : Native.Handler) (w : Wrapper) (_event event : Obj) :
  enableNative w = true -> platform w <> "android" ->
  JSON.wellFormed (VObj _event) ->
  prepared _event = Ok event ->
  let c :=
    Native.captureEnvelope
      (VObj [("header", VObj [("event_id", prop _event "event_id");
                              ("sdk", prop _event "sdk")]);
             ("payload", VObj (JSON.cloneProps (iosPayload event)))]) in
  exec (Some m) (sendEvent (Some m) _event) w
  = (rbind (m c) (fun sent => Ok (response sent)), w, [ECall c (m c)]) /\
  JSON.parse (JSON.stringify (VObj (iosPayload event)))
  = Ok (VObj (JSON.cloneProps (iosPayload event))).
Proof.
  intros Hw Hp Hwf He. cbv zeta.
  assert (Hparse : JSON.parse (JSON.stringify (VObj (iosPayload event)))
                   = Ok (VObj (JSON.cloneProps (iosPayload event)))).
  { rewrite payload_parses, clone_object; [reflexivity|].
    apply wellFormed_iosPayload. eapply wellFormed_prepared; eauto. }
  split; [|exact Hparse].
  rewrite sendEvent_prepared, He by assumption.
  destruct (String.eqb_spec (platform w) "android"); [contradiction|].
  rewrite sendIOS_run, Hparse. cbv zeta. unfold iosEnvelope.
  rewrite (header_of _event event He). reflexivity.
Qed.

(** The payload text of the Android branch can be read back. *)
Lemma android_parses (_event event : Obj) :
  JSON.wellFormed (VObj _event) ->
  prepared _event = Ok event ->
  JSON.parse (VStr (JSON.element (VObj (androidPayload event))))
  = Ok (VObj (JSON.cloneProps (androidPayload event))) /\
  NoDup (keys (androidPayload event)) /\ NoDup (keys (iosPayload event)).
Proof.
  intros Hwf He. pose proof (wellFormed_prepared _ _ Hwf He) as Hwe.
  pose proof (wellFormed_androidPayload _ Hwe) as Ha.
  pose proof (wellFormed_iosPayload _ Hwe) as Hi.
  split; [|split].
  - change (VStr (JSON.element (VObj (androidPayload event))))
      with (JSON.stringify (VObj (androidPayload event))).
    now rewrite payload_parses, clone_object.
  - apply wellFormed_VObj in Ha. apply Ha.
  - apply wellFormed_VObj in Hi. apply Hi.
Qed.

End CaptureFacts.

(** ** The breadcrumbs of the payloads *)

Module CrumbFacts.
Import JS Bridge NATIVE ObjFacts JSONFacts WellFormedFacts EnvelopeFacts
       ReadBackFacts CaptureFacts.

Lemma crumbs_processed (_event event : Obj) (crumbs : list value) :
  prepared _event = Ok event ->
  prop _event "breadcrumbs" = VArr crumbs ->
  exists crumbs',
    prop (iosPayload event) "breadcrumbs" = VArr crumbs' /\
    prop event "breadcrumbs" = VArr crumbs' /\
    Forall2 (fun b b' => processBreadcrumb b = Ok b') crumbs crumbs'.
Proof.
  intros He Hc. destruct (prepared_breadcrumb_list _ _ _ He Hc) as (l & Hl & Hall).
  exists l. now rewrite iosPayload_breadcrumbs.
Qed.

Lemma crumbs_explicit (crumbs crumbs' : list value) :
  Forall2 (fun b b' => processBreadcrumb b = Ok b') crumbs crumbs' ->
  Forall2 (fun b b' =>
             b' = VObj (assign (ownProps b)
                          [("level", if truthy (member b "level")
                                     then _processLevel (member b "level")
                                     else VUndefined)]))
          crumbs crumbs'.
Proof.
  intros H. eapply Forall2_impl; [|exact H].
  intros b b'. apply processBreadcrumb_explicit.
Qed.

Lemma crumb_levels (crumbs crumbs' : list value) :
  Forall2 (fun b b' => processBreadcrumb b = Ok b') crumbs crumbs' ->
  Forall2 (fun b b' =>
             member b' "level"
             = (if truthy (member b "level") then _processLevel (member b "level")
                else VUndefined))
          crumbs crumbs'.
Proof.
  intros H. eapply Forall2_impl; [|exact H].
  intros b b' Hb. now apply processBreadcrumb_level.
Qed.

(** Breadcrumbs whose levels processing leaves alone are unchanged. *)
Lemma native_levels_kept (crumbs crumbs' : list value) :
  Forall2 (fun b b' => processBreadcrumb b = Ok b') crumbs crumbs' ->
  Forall hasNativeLevel crumbs -> crumbs' = crumbs.
Proof.
  induction 1 as [|b b' l l' Hbb Hall IH]; intros Hn; auto.
  inversion Hn as [|? ? (o & level & -> & Hget & Ht & Hlevel) Hn']; subst.
  rewrite (processBreadcrumb_same o level Hget Ht Hlevel) in Hbb.
  inversion Hbb; subst. f_equal. now apply IH.
Qed.

Lemma processLevel_string (s : string) : exists t, _processLevel (VStr s) = VStr t.
Proof.
  unfold _processLevel.
  destruct (strict_eq_string (VStr s) Severity.Critical); [eauto|].
  destruct (strict_eq_string (VStr s) Severity.Log); eauto.
Qed.

(** A level that is a string is read back from a text as it was written. *)
Lemma level_read_back (o : Obj) (s : string) :
  NoDup (keys o) ->
  prop o "level" = (if truthy (VStr s) then _processLevel (VStr s) else VUndefined) ->
  prop (JSON.cloneProps o) "level" = prop o "level".
Proof.
  intros Hnd H. rewrite prop_cloneProps by assumption. rewrite H.
  destruct (truthy (VStr s)); [|reflexivity].
  now destruct (processLevel_string s) as (t & ->).
Qed.

(** The levels of the breadcrumbs as they are read back from a text. *)
Lemma crumb_levels_read_back (crumbs crumbs' : list value) :
  Forall JSON.wellFormed crumbs ->
  Forall2 (fun b b' => processBreadcrumb b = Ok b') crumbs crumbs' ->
  Forall2 (fun b sent =>
             forall s, member b "level" = VStr s ->
                       member sent "level"
                       = (if truthy (VStr s) then _processLevel (VStr s)
                          else VUndefined))
          crumbs (map JSON.clone crumbs').
Proof.
  intros Hwf H. induction H as [|b b' l l' Hb Hl IH]; [constructor|].
  inversion Hwf as [|? ? Hwb Hwl]; subst. simpl. constructor; [|now apply IH].
  intros s Hs.
  pose proof (wellFormed_processBreadcrumb _ _ Hwb Hb) as Hwb'.
  pose proof (processBreadcrumb_level _ _ Hb) as Hlevel.
  pose proof (processBreadcrumb_explicit _ _ Hb) as He.
  rewrite Hs in Hlevel. unfold processedLevel in Hlevel.
  rewrite He in Hwb', Hlevel |- *.
  set (o := assign _ _) in *.
  apply wellFormed_VObj in Hwb' as [Hnd _].
  rewrite clone_object.
  change (member (VObj ?x) ?k) with (prop x k) in *.
  rewrite (level_read_back o s Hnd Hlevel). exact Hlevel.
Qed.

End CrumbFacts.

Module EnvelopeClaims.
Import JS Bridge NATIVE Sessions ObjFacts JSONFacts WellFormedFacts EnvelopeFacts
       LineFacts ReadBackFacts CaptureFacts CrumbFacts.

(** C5: [_processLevel] maps [critical] to [fatal] and [log] to [debug] and
    returns any other level unchanged.  [sendEvent] applies it to the level
    of the event and to the level of every breadcrumb of the event: on
    Android the text that is measured and then sent as the third line of the
    envelope is the JSON text of a payload with these levels (the
    breadcrumbs being there when the branch does not clear them); on iOS the
    payload object of the one call is that payload written out and read
    back, in which a level that is a string is the normalized one.
    [addBreadcrumb] applies it to the level of the breadcrumb it forwards.
    (A level that is missing or falsy is written [undefined].) *)
Theorem severity_is_normalized
    (m : Native.Handler) (wa wi : Wrapper) (level : value)
    (_event processed breadcrumb : Obj) :
  enableNative wa = true -> platform wa = "android" ->
  enableNative wi = true -> platform wi <> "android" ->
  JSON.wellFormed (VObj _event) ->
  _processLevels _event = Ok processed ->
  let normalized (l : value) : value :=
    if truthy l then _processLevel l else VUndefined in
  _processLevel (VStr "critical") = VStr "fatal" /\
  _processLevel (VStr "log") = VStr "debug" /\
  (level <> VStr "critical" -> level <> VStr "log" -> _processLevel level = level) /\
  (exists (headerString itemString payloadString : string) (payload : Obj),
      calls (trace (exec (Some m) (sendEvent (Some m) _event) wa))
      = [Native.getStringBytesLength (VStr payloadString);
         Native.captureEnvelope
           (VStr (headerString ++ newline ++ itemString ++ newline
                  ++ payloadString)%string)] /\
      lineFeeds headerString = 0 /\ lineFeeds itemString = 0 /\
      JSON.stringify (VObj payload) = VStr payloadString /\
      prop payload "level" = normalized (prop _event "level") /\
      (forall crumbs,
          prop _event "breadcrumbs" = VArr crumbs ->
          loose_ne_false (handled _event) = false ->
          exists crumbs',
            prop payload "breadcrumbs" = VArr crumbs' /\
            Forall2 (fun b b' => member b' "level" = normalized (member b "level"))
                    crumbs crumbs')) /\
  (exists (header : value) (payload : Obj) (sent : value),
      calls (trace (exec (Some m) (sendEvent (Some m) _event) wi))
      = [Native.captureEnvelope (VObj [("header", header); ("payload", sent)])] /\
      JSON.parse (JSON.stringify (VObj payload)) = Ok sent /\
      prop payload "level" = normalized (prop _event "level") /\
      (forall s, prop _event "level" = VStr s ->
                 member sent "level" = normalized (VStr s)) /\
      (forall crumbs,
          prop _event "breadcrumbs" = VArr crumbs ->
          exists crumbs' sentCrumbs,
            prop payload "breadcrumbs" = VArr crumbs' /\
            Forall2 (fun b b' => member b' "level" = normalized (member b "level"))
                    crumbs crumbs' /\
            member sent "breadcrumbs" = VArr sentCrumbs /\
            Forall2 (fun b b' => forall s, member b "level" = VStr s ->
                                           member b' "level" = normalized (VStr s))
                    crumbs sentCrumbs)) /\
  (exists sent,
      calls (trace (exec (Some m) (addBreadcrumb (Some m) breadcrumb) wi))
      = [Native.addBreadcrumb (VObj sent)] /\
      prop sent "level" = normalized (prop breadcrumb "level")).
Proof.
  intros Hwa Hpa Hwi Hpi Hwf Hpr normalized.
  pose proof (processed_prepared _ _ Hpr) as He.
  set (event := delete processed "sdkProcessingMetadata") in *.
  destruct (android_parses _ _ Hwf He) as (_ & Hna & Hni).
  assert (Hlevel : prop (iosPayload event) "level" = normalized (prop _event "level"))
    by exact (iosPayload_level _ _ He).
  split; [reflexivity|]. split; [reflexivity|].
  split; [apply processLevel_other|].
  split; [|split].
  - pose proof (android_captured m wa _event event Hwa Hpa He) as Hrun.
    cbv zeta in Hrun. do 3 eexists. exists (androidPayload event).
    split; [rewrite Hrun; reflexivity|].
    split; [apply element_no_lf|]. split; [apply element_no_lf|].
    split; [reflexivity|].
    split; [rewrite payloads_agree by discriminate; exact Hlevel|].
    intros crumbs Hc Hh.
    destruct (crumbs_processed _ _ _ He Hc) as (crumbs' & Hi & _ & Hall).
    exists crumbs'. split; [|exact (crumb_levels _ _ Hall)].
    rewrite androidPayload_kept; [exact Hi|].
    now rewrite (clearing_list _ _ _ He Hc).
  - destruct (ios_captured m wi _event event Hwi Hpi Hwf He) as [Hrun Hparse].
    cbv zeta in Hrun.
    eexists. exists (iosPayload event). eexists.
    split; [rewrite Hrun; reflexivity|]. split; [exact Hparse|].
    split; [exact Hlevel|]. split.
    + intros s Hs. change (member (VObj ?o) ?k) with (prop o k).
      rewrite Hs in Hlevel. now rewrite (level_read_back _ s Hni Hlevel).
    + intros crumbs Hc.
      destruct (crumbs_processed _ _ _ He Hc) as (crumbs' & Hi & _ & Hall).
      exists crumbs', (map JSON.clone crumbs').
      split; [exact Hi|]. split; [exact (crumb_levels _ _ Hall)|]. split.
      * change (member (VObj ?o) ?k) with (prop o k).
        now rewrite prop_cloneProps, Hi by assumption.
      * apply crumb_levels_read_back; [|exact Hall].
        pose proof (wellFormed_prop _ "breadcrumbs" Hwf) as Hwc.
        rewrite Hc in Hwc. now apply wellFormed_VArr in Hwc.
  - destruct (addBreadcrumb_run m wi breadcrumb Hwi) as (sent & Hs & Hl & _).
    exists sent. split; [exact Hs | exact Hl].
Qed.

Lemma severity_is_normalized_witness :
  (exists sent,
      calls (trace (exec (Some Samples.accepting)
                         (sendEvent (Some Samples.accepting)
                                    (Examples.criticalEvent (VBool false)))
                         Samples.ios))
      = [Native.captureEnvelope sent] /\
      member (member sent "payload") "level" = VStr "fatal") /\
  (exists sent,
      calls (trace (exec (Some Samples.accepting)
                         (addBreadcrumb (Some Samples.accepting)
                                        [("level", VStr "log")])
                         Samples.ios))
      = [Native.addBreadcrumb (VObj sent)] /\
      prop sent "level" = VStr "debug").
Proof.
  assert (Hp : platform Samples.ios <> "android") by discriminate.
  pose proof (severity_is_normalized
                Samples.accepting Samples.android Samples.ios (VStr "info")
                (Examples.criticalEvent (VBool false))
                (Examples.processedOf (Examples.criticalEvent (VBool false)))
                [("level", VStr "log")]
                eq_refl eq_refl eq_refl Hp
                (wellFormedb_sound (VObj (Examples.criticalEvent (VBool false)))
                                   eq_refl)
                eq_refl) as H.
  cbv zeta in H.
  destruct H as (_ & _ & _ & _ & (header & payload & sent & Hc & _ & _ & Hs & _) & Hb).
  split; [|exact Hb].
  eexists. split; [exact Hc|]. exact (Hs "critical" eq_refl).
Defined.

(** C1, as stated, fails: an event whose mechanism has no [handled] flag
    loses its breadcrumbs on Android; and with [handled] false the payload
    carries the breadcrumb with its level processed ([critical] becomes
    [fatal]), not the original one.  In both cases the payload is the text
    that is measured and then sent as the third line of the envelope. *)
Lemma unflagged_event_loses_breadcrumbs :
  handled (Samples.eventUnflagged "info") = VUndefined /\
  prop (Samples.eventUnflagged "info") "breadcrumbs" = VArr [Samples.crumb "info"] /\
  (exists headerString itemString payloadString : string,
      calls (trace (exec (Some Samples.accepting)
                         (sendEvent (Some Samples.accepting)
                                    (Samples.eventUnflagged "info"))
                         Samples.android))
      = [Native.getStringBytesLength (VStr payloadString);
         Native.captureEnvelope
           (VStr (headerString ++ newline ++ itemString ++ newline
                  ++ payloadString)%string)] /\
      lineFeeds headerString = 0 /\ lineFeeds itemString = 0 /\
      Samples.breadcrumbsOfText (VStr payloadString) = Ok (VArr [])) /\
  handled (Samples.eventWith (VBool false) "critical") = VBool false /\
  prop (Samples.eventWith (VBool false) "critical") "breadcrumbs"
  = VArr [Samples.crumb "critical"] /\
  (exists headerString itemString payloadString : string,
      calls (trace (exec (Some Samples.accepting)
                         (sendEvent (Some Samples.accepting)
                                    (Samples.eventWith (VBool false) "critical"))
                         Samples.android))
      = [Native.getStringBytesLength (VStr payloadString);
         Native.captureEnvelope
           (VStr (headerString ++ newline ++ itemString ++ newline
                  ++ payloadString)%string)] /\
      lineFeeds headerString = 0 /\ lineFeeds itemString = 0 /\
      Samples.breadcrumbsOfText (VStr payloadString)
      = Ok (VArr [Samples.crumb "fatal"])) /\
  Samples.crumb "fatal" <> Samples.crumb "critical".
Proof.
  split; [reflexivity|]. split; [reflexivity|]. split.
  { pose proof (android_captured
                  Samples.accepting Samples.android (Samples.eventUnflagged "info")
                  (Samples.preparedOf (Samples.eventUnflagged "info"))
                  eq_refl eq_refl eq_refl) as Hrun.
    cbv zeta in Hrun. do 3 eexists.
    split; [rewrite Hrun; reflexivity|].
    split; [apply element_no_lf|]. split; [apply element_no_lf|].
    vm_compute. reflexivity. }
  split; [reflexivity|]. split; [reflexivity|]. split; [|discriminate].
  pose proof (android_captured
                Samples.accepting Samples.android
                (Samples.eventWith (VBool false) "critical")
                (Samples.preparedOf (Samples.eventWith (VBool false) "critical"))
                eq_refl eq_refl eq_refl) as Hrun.
  cbv zeta in Hrun. do 3 eexists.
  split; [rewrite Hrun; reflexivity|].
  split; [apply element_no_lf|]. split; [apply element_no_lf|].
  vm_compute. reflexivity.
Qed.

(** C1, amended: on Android, for an event that has a breadcrumb list, the
    string handed to [captureEnvelope] is three lines, header, item and
    payload text, the payload text being the one measured just before by
    [getStringBytesLength].  That text is the JSON text of a payload whose
    breadcrumb list is empty when the [handled] flag of the mechanism is
    true or absent (anything that is not loosely equal to [false]), and so
    is the list read back from the text.  When the flag is loosely equal to
    [false] the payload carries the breadcrumbs of the event in order, each
    with its level normalized; that is the original list when every
    breadcrumb already has a level that normalization leaves alone (and
    then the list read back from the text is the original one, when no
    [undefined] occurs in it). *)
Theorem android_breadcrumbs
    (m : Native.Handler) (w : Wrapper) (_event processed : Obj)
    (crumbs : list value) :
  enableNative w = true -> platform w = "android" ->
  JSON.wellFormed (VObj _event) ->
  _processLevels _event = Ok processed ->
  prop _event "breadcrumbs" = VArr crumbs ->
  exists (headerString itemString payloadString : string) (payload : Obj)
         (parsed : value),
    calls (trace (exec (Some m) (sendEvent (Some m) _event) w))
    = [Native.getStringBytesLength (VStr payloadString);
       Native.captureEnvelope
         (VStr (headerString ++ newline ++ itemString ++ newline
                ++ payloadString)%string)] /\
    lineFeeds headerString = 0 /\ lineFeeds itemString = 0 /\
    JSON.stringify (VObj payload) = VStr payloadString /\
    JSON.parse (VStr payloadString) = Ok parsed /\
    let cleared :=
      prop payload "breadcrumbs" = VArr [] /\
      member parsed "breadcrumbs" = VArr [] in
    let kept :=
      exists crumbs',
        prop payload "breadcrumbs" = VArr crumbs' /\
        member parsed "breadcrumbs" = JSON.clone (VArr crumbs') /\
        Forall2 (fun b b' =>
                   b' = VObj (assign (ownProps b)
                                [("level", if truthy (member b "level")
                                           then _processLevel (member b "level")
                                           else VUndefined)]))
                crumbs crumbs' /\
        (Forall hasNativeLevel crumbs ->
         crumbs' = crumbs /\
         (JSON.definite (VArr crumbs) = true ->
          member parsed "breadcrumbs" = VArr crumbs)) in
    (loose_ne_false (handled _event) = true -> cleared) /\
    (handled _event = VBool true -> cleared) /\
    (handled _event = VUndefined -> cleared) /\
    (loose_ne_false (handled _event) = false -> kept) /\
    (handled _event = VBool false -> kept).
Proof.
  intros Hw Hp Hwf Hpr Hc.
  pose proof (processed_prepared _ _ Hpr) as He.
  set (event := delete processed "sdkProcessingMetadata") in *.
  destruct (android_parses _ _ Hwf He) as (Hparse & Hna & Hni).
  pose proof (android_captured m w _event event Hw Hp He) as Hrun.
  cbv zeta in Hrun. do 3 eexists.
  exists (androidPayload event), (VObj (JSON.cloneProps (androidPayload event))).
  split; [rewrite Hrun; reflexivity|].
  split; [apply element_no_lf|]. split; [apply element_no_lf|].
  split; [reflexivity|]. split; [exact Hparse|].
  intros cleared kept.
  assert (Hclear : loose_ne_false (handled _event) = true -> cleared).
  { intros Hh.
    assert (H : prop (androidPayload event) "breadcrumbs" = VArr []).
    { apply androidPayload_cleared. now rewrite (clearing_list _ _ _ He Hc). }
    split; [exact H|]. change (member (VObj ?o) ?k) with (prop o k).
    rewrite prop_cloneProps_definite; [exact H | exact Hna | now rewrite H]. }
  assert (Hkeep : loose_ne_false (handled _event) = false -> kept).
  { intros Hh.
    destruct (crumbs_processed _ _ _ He Hc) as (crumbs' & Hi & _ & Hall).
    assert (Hk : androidPayload event = iosPayload event).
    { apply androidPayload_kept. now rewrite (clearing_list _ _ _ He Hc). }
    assert (Hread : member (VObj (JSON.cloneProps (androidPayload event)))
                           "breadcrumbs"
                    = JSON.clone (VArr crumbs')).
    { change (member (VObj ?o) ?k) with (prop o k).
      now rewrite prop_cloneProps, Hk, Hi by assumption. }
    exists crumbs'. split; [now rewrite Hk|]. split; [exact Hread|].
    split; [exact (crumbs_explicit _ _ Hall)|].
    intros Hn. pose proof (native_levels_kept _ _ Hall Hn) as ->.
    split; [reflexivity|]. intros Hd. rewrite Hread. now apply clone_definite. }
  split; [exact Hclear|].
  split; [intros Hh; apply Hclear; now rewrite Hh|].
  split; [intros Hh; apply Hclear; now rewrite Hh|].
  split; [exact Hkeep|].
  intros Hh. apply Hkeep. now rewrite Hh.
Qed.

Lemma android_breadcrumbs_witness :
  exists (headerString itemString payloadString : string) (parsed : value),
    calls (trace (exec (Some Samples.accepting)
                       (sendEvent (Some Samples.accepting)
                                  (Samples.eventWith (VBool true) "info"))
                       Samples.android))
    = [Native.getStringBytesLength (VStr payloadString);
       Native.captureEnvelope
         (VStr (headerString ++ newline ++ itemString ++ newline
                ++ payloadString)%string)] /\
    JSON.parse (VStr payloadString) = Ok parsed /\
    member parsed "breadcrumbs" = VArr [].
Proof.
  destruct (android_breadcrumbs
              Samples.accepting Samples.android
              (Samples.eventWith (VBool true) "info")
              (Examples.processedOf (Samples.eventWith (VBool true) "info"))
              [Samples.crumb "info"]
              eq_refl eq_refl
              (wellFormedb_sound (VObj (Samples.eventWith (VBool true) "info"))
                                 eq_refl)
              eq_refl eq_refl)
    as (h & i & p & payload & parsed & Hc & _ & _ & _ & Hparse & H).
  cbv zeta in H. destruct H as (_ & Htrue & _).
  exists h, i, p, parsed. split; [exact Hc|]. split; [exact Hparse|].
  exact (proj2 (Htrue eq_refl)).
Defined.

(** C4, as stated, fails: for a handled event with a breadcrumb the payload
    text that the Android branch measures and sends as the third line of its
    envelope has an empty breadcrumb list, and the payload object that the
    iOS branch sends has the breadcrumb. *)
Lemma handled_event_payloads_differ :
  (exists headerString itemString payloadString : string,
      calls (trace (exec (Some Samples.accepting)
                         (sendEvent (Some Samples.accepting)
                                    (Samples.eventWith (VBool true) "info"))
                         Samples.android))
      = [Native.getStringBytesLength (VStr payloadString);
         Native.captureEnvelope
           (VStr (headerString ++ newline ++ itemString ++ newline
                  ++ payloadString)%string)] /\
      lineFeeds headerString = 0 /\ lineFeeds itemString = 0 /\
      Samples.breadcrumbsOfText (VStr payloadString) = Ok (VArr [])) /\
  (exists header payload : value,
      calls (trace (exec (Some Samples.accepting)
                         (sendEvent (Some Samples.accepting)
                                    (Samples.eventWith (VBool true) "info"))
                         Samples.ios))
      = [Native.captureEnvelope (VObj [("header", header); ("payload", payload)])] /\
      member payload "breadcrumbs" = VArr [Samples.crumb "info"]).
Proof.
  split.
  - pose proof (android_captured
                  Samples.accepting Samples.android
                  (Samples.eventWith (VBool true) "info")
                  (Samples.preparedOf (Samples.eventWith (VBool true) "info"))
                  eq_refl eq_refl eq_refl) as Hrun.
    cbv zeta in Hrun. do 3 eexists.
    split; [rewrite Hrun; reflexivity|].
    split; [apply element_no_lf|]. split; [apply element_no_lf|].
    vm_compute. reflexivity.
  - do 2 eexists. split; vm_compute; reflexivity.
Qed.

(** C4, amended: the Android branch hands over text, in two calls: it asks
    the native side for the byte length of the payload text and then sends
    the envelope whose three lines are the header, the item and that
    payload text; the iOS branch hands over, in one call, an object with the
    same header and the payload read back from its JSON text.  The payload
    that the Android text denotes and the payload object of iOS agree on
    every field other than [breadcrumbs].  They are equal unless the Android
    branch clears the breadcrumbs, which it does when the event has a
    breadcrumb list and a [handled] flag that is not loosely equal to
    [false]: then the Android payload has an empty list and the iOS payload
    the breadcrumbs of the event, each with its level normalized, as JSON
    denotes them. *)
Theorem payloads_agree_but_for_breadcrumbs
    (m : Native.Handler) (wa wi : Wrapper) (_event processed : Obj) :
  enableNative wa = true -> platform wa = "android" ->
  enableNative wi = true -> platform wi <> "android" ->
  JSON.wellFormed (VObj _event) ->
  _processLevels _event = Ok processed ->
  exists (headerString itemString payloadString : string) (header : value)
         (android ios : Obj),
    calls (trace (exec (Some m) (sendEvent (Some m) _event) wa))
    = [Native.getStringBytesLength (VStr payloadString);
       Native.captureEnvelope
         (VStr (headerString ++ newline ++ itemString ++ newline
                ++ payloadString)%string)] /\
    lineFeeds headerString = 0 /\ lineFeeds itemString = 0 /\
    calls (trace (exec (Some m) (sendEvent (Some m) _event) wi))
    = [Native.captureEnvelope (VObj [("header", header); ("payload", VObj ios)])] /\
    JSON.stringify header = VStr headerString /\
    JSON.parse (VStr payloadString) = Ok (VObj android) /\
    (forall k, k <> "breadcrumbs" -> get android k = get ios k) /\
    (loose_ne_false (handled _event) = false \/
     prop _event "breadcrumbs" = VUndefined \/
     prop _event "breadcrumbs" = VNull ->
     android = ios) /\
    (forall crumbs,
        loose_ne_false (handled _event) = true ->
        prop _event "breadcrumbs" = VArr crumbs ->
        get android "breadcrumbs" = Some (VArr []) /\
        exists crumbs',
          get ios "breadcrumbs" = Some (JSON.clone (VArr crumbs')) /\
          Forall2 (fun b b' =>
                     b' = VObj (assign (ownProps b)
                                  [("level", if truthy (member b "level")
                                             then _processLevel (member b "level")
                                             else VUndefined)]))
                  crumbs crumbs').
Proof.
  intros Hwa Hpa Hwi Hpi Hwf Hpr.
  pose proof (processed_prepared _ _ Hpr) as He.
  set (event := delete processed "sdkProcessingMetadata") in *.
  destruct (android_parses _ _ Hwf He) as (Hparse & Hna & Hni).
  pose proof (android_captured m wa _event event Hwa Hpa He) as Hrun.
  destruct (ios_captured m wi _event event Hwi Hpi Hwf He) as [Hios _].
  cbv zeta in Hrun, Hios. do 4 eexists.
  exists (JSON.cloneProps (androidPayload event)), (JSON.cloneProps (iosPayload event)).
  split; [rewrite Hrun; reflexivity|].
  split; [apply element_no_lf|]. split; [apply element_no_lf|].
  split; [rewrite Hios; reflexivity|]. split; [reflexivity|].
  split; [exact Hparse|]. split; [|split].
  - intros k Hk. rewrite !get_cloneProps by assumption.
    now rewrite get_payloads.
  - intros Hc. rewrite androidPayload_kept; [reflexivity|].
    destruct Hc as [Hh | Hc].
    + unfold clearing. rewrite (prepared_handled _ _ He).
      unfold loose_ne_false in *. now rewrite Hh.
    + now apply (clearing_none _event event He).
  - intros crumbs Hh Hc.
    destruct (crumbs_processed _ _ _ He Hc) as (crumbs' & Hi & _ & Hall).
    split.
    + rewrite get_cloneProps by assumption.
      assert (H : prop (androidPayload event) "breadcrumbs" = VArr []).
      { apply androidPayload_cleared. now rewrite (clearing_list _ _ _ He Hc). }
      rewrite prop_get in H.
      destruct (get (androidPayload event) "breadcrumbs") as [x|];
        [subst x; reflexivity | discriminate].
    + exists crumbs'. split; [|exact (crumbs_explicit _ _ Hall)].
      rewrite get_cloneProps by assumption. rewrite prop_get in Hi.
      destruct (get (iosPayload event) "breadcrumbs") as [x|];
        [subst x; reflexivity | discriminate].
Qed.

Lemma payloads_agree_but_for_breadcrumbs_witness :
  exists (headerString itemString payloadString : string) (header : value)
         (ios : Obj),
    calls (trace (exec (Some Samples.accepting)
                       (sendEvent (Some Samples.accepting)
                                  (Samples.eventWith (VBool false) "critical"))
                       Samples.android))
    = [Native.getStringBytesLength (VStr payloadString);
       Native.captureEnvelope
         (VStr (headerString ++ newline ++ itemString ++ newline
                ++ payloadString)%string)] /\
    calls (trace (exec (Some Samples.accepting)
                       (sendEvent (Some Samples.accepting)
                                  (Samples.eventWith (VBool false) "critical"))
                       Samples.ios))
    = [Native.captureEnvelope (VObj [("header", header); ("payload", VObj ios)])] /\
    JSON.parse (VStr payloadString) = Ok (VObj ios).
Proof.
  assert (Hp : platform Samples.ios <> "android") by discriminate.
  destruct (payloads_agree_but_for_breadcrumbs
              Samples.accepting Samples.android Samples.ios
              (Samples.eventWith (VBool false) "critical")
              (Examples.processedOf (Samples.eventWith (VBool false) "critical"))
              eq_refl eq_refl eq_refl Hp
              (wellFormedb_sound
                 (VObj (Samples.eventWith (VBool false) "critical")) eq_refl)
              eq_refl)
    as (h & i & p & header & android & ios & Ha & _ & _ & Hi & _ & Hparse & _ & Heq & _).
  exists h, i, p, header, ios. split; [exact Ha|]. split; [exact Hi|].
  rewrite <- (Heq (or_introl eq_refl)). exact Hparse.
Defined.

End EnvelopeClaims.


(** * Further properties of the bridge and of the touch boundary *)

Module InitFacts.
Import JS Bridge NATIVE Sessions ObjFacts.

Lemma get_app (a b : Obj) k :
  get (a ++ b) k = match get a k with Some v => Some v | None => get b k end.
Proof.
  induction a as [|[ka va] a IH]; simpl; auto.
  destruct (String.eqb k ka); auto.
Qed.

Lemma get_rev (o : Obj) k : NoDup (keys o) -> get (rev o) k = get o k.
Proof.
  induction o as [|[k' v'] o IH]; simpl; auto.
  intros H. inversion H; subst. rewrite get_app, IH by assumption. simpl.
  destruct (String.eqb_spec k k').
  - subst. apply get_None in H2. now rewrite H2.
  - now destruct (get o k).
Qed.

(** An option is the one given, or else the default. *)
Lemma get_merged (defaults o : Obj) k :
  NoDup (keys o) ->
  get (assign defaults o) k =
  match get o k with
  | Some v => Some v
  | None => get defaults k
  end.
Proof. intros H. now rewrite get_assign, get_rev. Qed.

Lemma init_declines_run (RNSentry : option Native.Handler) (w : Wrapper) (o : Obj) :
  startsNative o = false ->
  exists t,
    exec RNSentry (initNativeSdk RNSentry o) w
    = (Ok (VBool false),
       (if truthy (prop (assign (literal [("enableNative", VBool true);
                                          ("autoInitializeNativeSdk", VBool true)]) o)
                        "enableNative")
        then w else with_enableNative false w),
       t) /\
    Forall (fun e => match e with
                     | EWarn _ => True
                     | ESetEnableNative b => b = false
                     | _ => False
                     end) t /\
    calls t = [].
Proof.
  unfold startsNative, exec, initNativeSdk, warnIf.
  set (options := assign _ o).
  destruct (truthy (prop options "enableNative")); simpl.
  - destruct (truthy (prop options "autoInitializeNativeSdk")); simpl.
    + intros ->. simpl. eexists. split; [reflexivity|]. split; [|reflexivity].
      repeat constructor.
    + intros _. destruct (truthy (prop options "enableNativeNagger")); simpl;
        eexists; (split; [reflexivity|]); (split; [|reflexivity]);
        repeat constructor.
  - intros _. destruct (truthy (prop options "enableNativeNagger")); simpl;
      eexists; (split; [reflexivity|]); (split; [|reflexivity]);
      repeat constructor.
Qed.

Lemma init_starts_run (m : Native.Handler) (w : Wrapper) (o : Obj) :
  startsNative o = true ->
  exec (Some m) (initNativeSdk (Some m) o) w =
  let c := Native.initNativeSdk (VObj (filteredOptions o)) in
  match m c with
  | Ok ready => (Ok ready, with_nativeIsReady ready w,
                 [ECall c (Ok ready); ESetNativeIsReady ready])
  | Err e => (Err e, w, [ECall c (Err e)])
  end.
Proof.
  unfold startsNative, exec, initNativeSdk, filteredOptions, filteredKeys.
  set (options := assign _ o). intros H.
  apply andb_prop in H as [H Hdsn]. apply andb_prop in H as [Hen Hauto].
  rewrite Hen, Hauto, Hdsn. simpl.
  destruct (m _); reflexivity.
Qed.

Lemma filteredOptions_get (o : Obj) k :
  NoDup (keys o) ->
  get (filteredOptions o) k =
  if in_dec string_dec k filteredKeys then None
  else match get o k with
       | Some v => Some v
       | None => get [("enableNative", VBool true);
                      ("autoInitializeNativeSdk", VBool true)] k
       end.
Proof.
  intros H. unfold filteredOptions. rewrite get_rest.
  destruct (in_dec string_dec k filteredKeys); auto.
  now rewrite get_merged.
Qed.

End InitFacts.


Module InitExtras.
Import JS Bridge NATIVE Sessions ObjFacts InitFacts.

(** X1: [initNativeSdk] declines without throwing and without a native call,
    module loaded or not, when the options disable native, disable automatic
    initialisation or give no DSN: it returns [false] and leaves
    [nativeIsReady]; it clears [enableNative] exactly when the [enableNative]
    option is given and falsy. *)
Theorem initNativeSdk_declines
    (RNSentry : option Native.Handler) (w : Wrapper) (o : Obj) :
  NoDup (keys o) ->
  startsNative o = false ->
  outcome (exec RNSentry (initNativeSdk RNSentry o) w) = Ok (VBool false) /\
  calls (trace (exec RNSentry (initNativeSdk RNSentry o) w)) = [] /\
  nativeIsReady (final (exec RNSentry (initNativeSdk RNSentry o) w))
  = nativeIsReady w /\
  enableNative (final (exec RNSentry (initNativeSdk RNSentry o) w))
  = match get o "enableNative" with
    | Some v => if truthy v then enableNative w else false
    | None => enableNative w
    end.
Proof.
  intros Hnd Hs. destruct (init_declines_run RNSentry w o Hs) as (t & -> & _ & Ht).
  unfold outcome, trace, final. cbn [fst snd].
  split; [reflexivity|]. split; [exact Ht|].
  rewrite prop_get, get_merged by assumption.
  destruct (get o "enableNative") as [v|]; [destruct (truthy v)|]; auto.
Qed.

Lemma initNativeSdk_declines_witness :
  outcome (exec None (initNativeSdk None Examples.disabledOptions) Samples.ios)
  = Ok (VBool false) /\
  enableNative
    (final (exec None (initNativeSdk None Examples.disabledOptions) Samples.ios))
  = false.
Proof.
  pose proof (initNativeSdk_declines None Samples.ios Examples.disabledOptions
                (WellFormedFacts.distinct_NoDup (keys Examples.disabledOptions) eq_refl) eq_refl) as H.
  split; [exact (proj1 H) | exact (proj2 (proj2 (proj2 H)))].
Defined.

(** X2: when [initNativeSdk] starts native, the options it hands over are
    the given ones without [beforeSend], [beforeBreadcrumb], [integrations],
    [defaultIntegrations] and [transport]; every other option is passed as
    given, and [enableNative] and [autoInitializeNativeSdk] are [true] when
    not given. *)
Theorem initNativeSdk_filters
    (m : Native.Handler) (w : Wrapper) (o : Obj) (k : string) :
  NoDup (keys o) ->
  startsNative o = true ->
  calls (trace (exec (Some m) (initNativeSdk (Some m) o) w))
  = [Native.initNativeSdk (VObj (filteredOptions o))] /\
  (In k filteredKeys -> get (filteredOptions o) k = None) /\
  (~ In k filteredKeys ->
   get (filteredOptions o) k
   = match get o k with
     | Some v => Some v
     | None =>
         if (String.eqb k "enableNative" || String.eqb k "autoInitializeNativeSdk")%bool
         then Some (VBool true) else None
     end).
Proof.
  intros Hnd Hs. split; [|split].
  - rewrite init_starts_run by assumption. cbv zeta.
    now destruct (m _).
  - intros Hin. rewrite filteredOptions_get by assumption.
    now destruct (in_dec string_dec k filteredKeys).
  - intros Hin. rewrite filteredOptions_get by assumption.
    destruct (in_dec string_dec k filteredKeys); [contradiction|].
    destruct (get o k); auto. simpl.
    destruct (String.eqb k "enableNative"); auto.
Qed.

Lemma initNativeSdk_filters_witness :
  calls (trace (exec (Some Samples.accepting)
                     (initNativeSdk (Some Samples.accepting) Examples.fullOptions)
                     Samples.ios))
  = [Native.initNativeSdk (VObj (filteredOptions Examples.fullOptions))] /\
  get (filteredOptions Examples.fullOptions) "transport" = None.
Proof.
  pose proof (initNativeSdk_filters Samples.accepting Samples.ios Examples.fullOptions
                "transport"
                (WellFormedFacts.distinct_NoDup (keys Examples.fullOptions) eq_refl) eq_refl) as H.
  split; [exact (proj1 H) | apply (proj1 (proj2 H))].
  right. right. right. right. left. reflexivity.
Defined.

(** X3: when [initNativeSdk] starts native, it returns what the native
    [initNativeSdk] call resolves with and records it in [nativeIsReady];
    when the call rejects, the rejection is thrown on and [nativeIsReady] is
    left as it was.  [enableNative] is not touched. *)
Theorem initNativeSdk_records_readiness
    (m : Native.Handler) (w : Wrapper) (o : Obj) :
  startsNative o = true ->
  let c := Native.initNativeSdk (VObj (filteredOptions o)) in
  let r := exec (Some m) (initNativeSdk (Some m) o) w in
  (forall ready, m c = Ok ready ->
                 outcome r = Ok ready /\ final r = with_nativeIsReady ready w) /\
  (forall e, m c = Err e -> outcome r = Err e /\ final r = w) /\
  enableNative (final r) = enableNative w.
Proof.
  intros Hs c r. subst r. rewrite init_starts_run by assumption. cbv zeta.
  fold c. destruct (m c) as [ready | e].
  - split; [|split].
    + intros ready' H. injection H as <-. split; reflexivity.
    + intros e H. discriminate H.
    + reflexivity.
  - split; [|split].
    + intros ready H. discriminate H.
    + intros e' H. injection H as <-. split; reflexivity.
    + reflexivity.
Qed.

Lemma initNativeSdk_records_readiness_witness :
  outcome (exec (Some Samples.accepting)
                (initNativeSdk (Some Samples.accepting) Examples.fullOptions)
                Samples.ios)
  = Ok (VBool true) /\
  final (exec (Some Samples.accepting)
              (initNativeSdk (Some Samples.accepting) Examples.fullOptions)
              Samples.ios)
  = with_nativeIsReady (VBool true) Samples.ios.
Proof.
  pose proof (initNativeSdk_records_readiness
                Samples.accepting Samples.ios Examples.fullOptions eq_refl) as H.
  cbv zeta in H. exact (proj1 H (VBool true) eq_refl).
Defined.

End InitExtras.


Module EnvelopeExtras.
Import JS Bridge NATIVE Sessions ObjFacts JSONFacts WellFormedFacts EnvelopeFacts
       LineFacts ReadBackFacts CaptureFacts.

Lemma get_cloneProps_None (o : Obj) k :
  get o k = None -> get (JSON.cloneProps o) k = None.
Proof.
  intros H. apply get_None. intros Hin. apply keys_cloneProps in Hin.
  apply get_None in H. contradiction.
Qed.

Lemma payload_metadata (event : Obj) :
  get event "sdkProcessingMetadata" = None ->
  get (androidPayload event) "sdkProcessingMetadata" = None /\
  get (iosPayload event) "sdkProcessingMetadata" = None.
Proof.
  intros H. unfold androidPayload, iosPayload.
  rewrite !wrapMessage_get, clear_get by discriminate. simpl. auto.
Qed.

(** X4: whatever the event holds under [sdkProcessingMetadata], [sendEvent]
    hands it to the native module on neither platform.  On Android the
    envelope handed to [captureEnvelope] is three lines: the text of a
    header that has only [event_id] and [sdk], the text of an item that has
    only [content_type], [length] and [type], and the payload text that was
    measured, which denotes an object with no [sdkProcessingMetadata].  On
    iOS the envelope object has that header and a payload object with no
    [sdkProcessingMetadata]. *)
Theorem metadata_never_sent
    (m : Native.Handler) (wa wi : Wrapper) (_event processed : Obj) :
  enableNative wa = true -> platform wa = "android" ->
  enableNative wi = true -> platform wi <> "android" ->
  JSON.wellFormed (VObj _event) ->
  _processLevels _event = Ok processed ->
  exists (headerString itemString payloadString : string) (length : value)
         (android ios : Obj),
    calls (trace (exec (Some m) (sendEvent (Some m) _event) wa))
    = [Native.getStringBytesLength (VStr payloadString);
       Native.captureEnvelope
         (VStr (headerString ++ newline ++ itemString ++ newline
                ++ payloadString)%string)] /\
    JSON.stringify (VObj [("event_id", prop _event "event_id");
                          ("sdk", prop _event "sdk")])
    = VStr headerString /\
    JSON.stringify (VObj [("content_type", VStr "application/json");
                          ("length", length);
                          ("type", nullish (prop _event "type") (VStr "event"))])
    = VStr itemString /\
    JSON.parse (VStr payloadString) = Ok (VObj android) /\
    get android "sdkProcessingMetadata" = None /\
    calls (trace (exec (Some m) (sendEvent (Some m) _event) wi))
    = [Native.captureEnvelope
         (VObj [("header", VObj [("event_id", prop _event "event_id");
                                 ("sdk", prop _event "sdk")]);
                ("payload", VObj ios)])] /\
    get ios "sdkProcessingMetadata" = None.
Proof.
  intros Hwa Hpa Hwi Hpi Hwf Hpr.
  pose proof (processed_prepared _ _ Hpr) as He.
  set (event := delete processed "sdkProcessingMetadata") in *.
  destruct (android_parses _ _ Hwf He) as (Hparse & _ & _).
  pose proof (android_captured m wa _event event Hwa Hpa He) as Hrun.
  destruct (ios_captured m wi _event event Hwi Hpi Hwf He) as [Hios _].
  destruct (payload_metadata event (prepared_metadata _ _ He)) as [Ha Hi].
  cbv zeta in Hrun, Hios. do 4 eexists.
  exists (JSON.cloneProps (androidPayload event)), (JSON.cloneProps (iosPayload event)).
  split; [rewrite Hrun; reflexivity|].
  split; [reflexivity|]. split; [reflexivity|]. split; [exact Hparse|].
  split; [now apply get_cloneProps_None|].
  split; [rewrite Hios; reflexivity|]. now apply get_cloneProps_None.
Qed.

Lemma metadata_never_sent_witness :
  exists (header : value) (ios : Obj),
    calls (trace (exec (Some Samples.accepting)
                       (sendEvent (Some Samples.accepting) (Samples.eventWith (VBool true) "info")) Samples.ios))
    = [Native.captureEnvelope (VObj [("header", header); ("payload", VObj ios)])] /\
    get ios "sdkProcessingMetadata" = None.
Proof.
  assert (Hp : platform Samples.ios <> "android") by discriminate.
  destruct (metadata_never_sent
              Samples.accepting Samples.android Samples.ios
              (Samples.eventWith (VBool true) "info") (Examples.processedOf (Samples.eventWith (VBool true) "info"))
              eq_refl eq_refl eq_refl Hp
              (wellFormedb_sound (VObj (Samples.eventWith (VBool true) "info")) eq_refl) eq_refl)
    as (h & i & p & length & android & ios & _ & _ & _ & _ & _ & Hc & Hi).
  eexists. exists ios. split; [exact Hc | exact Hi].
Defined.



(** X6: the header of the envelope has the two properties [event_id] and
    [sdk] of the event and nothing else; the iOS call carries it as the
    [header] of its envelope object. *)
Theorem header_is_minimal
    (m : Native.Handler) (w : Wrapper) (_event event : Obj) :
  enableNative w = true -> platform w <> "android" ->
  JSON.wellFormed (VObj _event) ->
  prepared _event = Ok event ->
  header event = [("event_id", prop _event "event_id"); ("sdk", prop _event "sdk")] /\
  exists envelope,
    calls (trace (exec (Some m) (sendEvent (Some m) _event) w))
    = [Native.captureEnvelope envelope] /\
    member envelope "header" = VObj (header event) /\
    keys (ownProps envelope) = ["header"; "payload"].
Proof.
  intros Hw Hp Hwf He. split.
  - unfold header.
    rewrite (prepared_other _ _ "event_id" He), (prepared_other _ _ "sdk" He)
      by discriminate.
    reflexivity.
  - exists (iosEnvelope event (JSON.clone (VObj (iosPayload event)))).
    split; [now apply ios_sent|]. split; reflexivity.
Qed.

Lemma header_is_minimal_witness :
  header (Samples.preparedOf (Samples.eventWith (VBool true) "info"))
  = [("event_id", VStr "abc123");
     ("sdk", VObj [("name", VStr "sentry.javascript.react-native")])].
Proof.
  assert (Hp : platform Samples.ios <> "android") by discriminate.
  exact (proj1 (header_is_minimal
                  Samples.accepting Samples.ios (Samples.eventWith (VBool true) "info") (Samples.preparedOf (Samples.eventWith (VBool true) "info")) eq_refl Hp
                  (wellFormedb_sound (VObj (Samples.eventWith (VBool true) "info")) eq_refl) eq_refl)).
Defined.

(** X7: on Android the item line of the envelope is the JSON text of
    [{ content_type: 'application/json', length, type }], where [type] is
    the type of the event, or [event] when it has none, and [length] is what
    the native [getStringBytesLength] call resolves with; when that call
    fails, [sendEvent] goes on and [length] is the number of characters of
    the payload text.  The envelope is handed to [captureEnvelope] in both
    cases, and its reply decides the outcome. *)
Theorem length_falls_back
    (m : Native.Handler) (w : Wrapper) (_event processed : Obj) :
  enableNative w = true -> platform w = "android" ->
  _processLevels _event = Ok processed ->
  exists (headerString itemString payloadString : string),
    calls (trace (exec (Some m) (sendEvent (Some m) _event) w))
    = [Native.getStringBytesLength (VStr payloadString);
       Native.captureEnvelope
         (VStr (headerString ++ newline ++ itemString ++ newline
                ++ payloadString)%string)] /\
    lineFeeds headerString = 0 /\ lineFeeds itemString = 0 /\
    (forall e,
        m (Native.getStringBytesLength (VStr payloadString)) = Err e ->
        JSON.stringify
          (VObj [("content_type", VStr "application/json");
                 ("length", VNum (Z.of_nat (String.length payloadString)));
                 ("type", nullish (prop _event "type") (VStr "event"))])
        = VStr itemString) /\
    (forall n,
        m (Native.getStringBytesLength (VStr payloadString)) = Ok n ->
        JSON.stringify
          (VObj [("content_type", VStr "application/json");
                 ("length", n);
                 ("type", nullish (prop _event "type") (VStr "event"))])
        = VStr itemString) /\
    outcome (exec (Some m) (sendEvent (Some m) _event) w)
    = match m (Native.captureEnvelope
                 (VStr (headerString ++ newline ++ itemString ++ newline
                        ++ payloadString)%string)) with
      | Ok sent =>
          Ok (VObj [("status", VStr (if truthy sent then "success" else "failed"))])
      | Err e => Err e
      end.
Proof.
  intros Hw Hp Hpr.
  pose proof (processed_prepared _ _ Hpr) as He.
  set (event := delete processed "sdkProcessingMetadata") in *.
  pose proof (android_captured m w _event event Hw Hp He) as Hrun.
  cbv zeta in Hrun. do 3 eexists.
  split; [rewrite Hrun; reflexivity|].
  split; [apply element_no_lf|]. split; [apply element_no_lf|].
  split; [intros e Hm; now rewrite Hm|].
  split; [intros n Hm; now rewrite Hm|].
  rewrite Hrun. unfold outcome. cbn [fst].
  destruct (m (Native.captureEnvelope _)) as [sent|]; [|reflexivity].
  simpl. unfold response. now destruct (truthy sent).
Qed.

Lemma length_falls_back_witness :
  exists (headerString itemString payloadString : string),
    calls (trace (exec (Some Examples.lengthless)
                       (sendEvent (Some Examples.lengthless) (Samples.eventWith (VBool true) "info")) Samples.android))
    = [Native.getStringBytesLength (VStr payloadString);
       Native.captureEnvelope
         (VStr (headerString ++ newline ++ itemString ++ newline
                ++ payloadString)%string)] /\
    JSON.stringify
      (VObj [("content_type", VStr "application/json");
             ("length", VNum (Z.of_nat (String.length payloadString)));
             ("type", VStr "event")])
    = VStr itemString.
Proof.
  destruct (length_falls_back
              Examples.lengthless Samples.android (Samples.eventWith (VBool true) "info") (Examples.processedOf (Samples.eventWith (VBool true) "info")) eq_refl eq_refl eq_refl)
    as (h & i & p & Hc & _ & _ & Hfail & _).
  exists h, i, p. split; [exact Hc|].
  exact (Hfail (Rejection (VStr "no length")) eq_refl).
Defined.

(** X8: [sendEvent] answers with a status, never with the native reply: its
    last native call is [captureEnvelope]; when that replies with a truthy
    value the response is [{ status: 'success' }], with a falsy one
    [{ status: 'failed' }]; a rejection is thrown on; the fields of the
    wrapper are left as they were. *)
Theorem response_is_a_status
    (m : Native.Handler) (w : Wrapper) (_event event : Obj) :
  enableNative w = true ->
  JSON.wellFormed (VObj _event) ->
  prepared _event = Ok event ->
  exists earlier envelope,
    calls (trace (exec (Some m) (sendEvent (Some m) _event) w))
    = earlier ++ [Native.captureEnvelope envelope] /\
    final (exec (Some m) (sendEvent (Some m) _event) w) = w /\
    outcome (exec (Some m) (sendEvent (Some m) _event) w)
    = match m (Native.captureEnvelope envelope) with
      | Ok sent =>
          Ok (VObj [("status", VStr (if truthy sent then "success" else "failed"))])
      | Err e => Err e
      end.
Proof.
  intros Hw Hwf He. rewrite sendEvent_prepared, He by assumption.
  destruct (String.eqb (platform w) "android").
  - rewrite sendAndroid_run. cbv zeta.
    exists [Native.getStringBytesLength (JSON.stringify (VObj (androidPayload event)))].
    eexists. split; [reflexivity|].
    split; [reflexivity|]. unfold outcome. simpl.
    destruct (m (Native.captureEnvelope _)) as [sent|]; simpl; auto.
    unfold response. now destruct (truthy sent).
  - rewrite sendIOS_run, payload_parses
      by (apply wellFormed_iosPayload; eapply wellFormed_prepared; eauto).
    cbv zeta. exists []. eexists. split; [reflexivity|].
    split; [reflexivity|]. unfold outcome. simpl.
    destruct (m (Native.captureEnvelope _)) as [sent|]; simpl; auto.
    unfold response. now destruct (truthy sent).
Qed.

Lemma response_is_a_status_witness :
  outcome (exec (Some Samples.accepting)
                (sendEvent (Some Samples.accepting) (Samples.eventWith (VBool true) "info")) Samples.ios)
  = Ok (VObj [("status", VStr "success")]).
Proof.
  destruct (response_is_a_status
              Samples.accepting Samples.ios (Samples.eventWith (VBool true) "info") (Samples.preparedOf (Samples.eventWith (VBool true) "info")) eq_refl
              (wellFormedb_sound (VObj (Samples.eventWith (VBool true) "info")) eq_refl) eq_refl)
    as (earlier & envelope & _ & _ & H).
  exact H.
Defined.

(** X9: the Android envelope is three lines.  The string handed to
    [captureEnvelope] is the JSON text of the header ([event_id] and [sdk]
    of the event), a line feed, the JSON text of the item ([content_type],
    [length] and [type]), a line feed, and the payload text that was
    measured, the JSON text of the payload with the wrapped message; and
    these two line feeds are its only ones, whatever the event and whatever
    the native side replies for the length, because no JSON text contains
    one. *)
Theorem envelope_has_three_lines
    (m : Native.Handler) (w : Wrapper) (_event processed : Obj) :
  enableNative w = true -> platform w = "android" ->
  _processLevels _event = Ok processed ->
  exists (headerString itemString payloadString : string) (length : value)
         (payload : Obj),
    calls (trace (exec (Some m) (sendEvent (Some m) _event) w))
    = [Native.getStringBytesLength (VStr payloadString);
       Native.captureEnvelope
         (VStr (headerString ++ newline ++ itemString ++ newline
                ++ payloadString)%string)] /\
    JSON.stringify (VObj [("event_id", prop _event "event_id");
                          ("sdk", prop _event "sdk")])
    = VStr headerString /\
    JSON.stringify (VObj [("content_type", VStr "application/json");
                          ("length", length);
                          ("type", nullish (prop _event "type") (VStr "event"))])
    = VStr itemString /\
    JSON.stringify (VObj payload) = VStr payloadString /\
    prop payload "message" = VObj [("message", prop _event "message")] /\
    lineFeeds headerString = 0 /\ lineFeeds itemString = 0 /\
    lineFeeds payloadString = 0 /\
    lineFeeds (headerString ++ newline ++ itemString ++ newline ++ payloadString) = 2.
Proof.
  intros Hw Hp Hpr.
  pose proof (processed_prepared _ _ Hpr) as He.
  set (event := delete processed "sdkProcessingMetadata") in *.
  pose proof (android_captured m w _event event Hw Hp He) as Hrun.
  cbv zeta in Hrun. do 4 eexists. exists (androidPayload event).
  split; [rewrite Hrun; reflexivity|].
  split; [reflexivity|]. split; [reflexivity|]. split; [reflexivity|].
  split; [rewrite payloads_agree by discriminate; exact (iosPayload_message _ _ He)|].
  rewrite !lineFeeds_app, !element_no_lf. repeat split.
Qed.

Lemma envelope_has_three_lines_witness :
  exists headerString itemString payloadString,
    calls (trace (exec (Some Samples.accepting)
                       (sendEvent (Some Samples.accepting) (Samples.eventWith (VBool true) "info")) Samples.android))
    = [Native.getStringBytesLength (VStr payloadString);
       Native.captureEnvelope
         (VStr (headerString ++ newline ++ itemString ++ newline
                ++ payloadString)%string)] /\
    JSON.stringify (VObj [("event_id", VStr "abc123");
                          ("sdk", VObj [("name", VStr "sentry.javascript.react-native")])])
    = VStr headerString /\
    lineFeeds (headerString ++ newline ++ itemString ++ newline ++ payloadString) = 2.
Proof.
  destruct (envelope_has_three_lines
              Samples.accepting Samples.android (Samples.eventWith (VBool true) "info") (Examples.processedOf (Samples.eventWith (VBool true) "info")) eq_refl eq_refl eq_refl)
    as (h & i & p & length & payload & Hc & Hh & _ & _ & _ & _ & _ & _ & H).
  exists h, i, p. split; [exact Hc|]. split; [exact Hh | exact H].
Defined.

End EnvelopeExtras.


Module LevelFacts.
Import JS Bridge NATIVE ObjFacts EnvelopeFacts.

Lemma processLevel_idempotent level :
  _processLevel (_processLevel level) = _processLevel level.
Proof.
  unfold _processLevel.
  destruct (strict_eq_string level Severity.Critical) eqn:E1; [reflexivity|].
  destruct (strict_eq_string level Severity.Log) eqn:E2; [reflexivity|].
  now rewrite E1, E2.
Qed.

Lemma processLevel_range level :
  _processLevel level <> VStr Severity.Critical /\
  _processLevel level <> VStr Severity.Log.
Proof.
  unfold _processLevel.
  destruct (strict_eq_string level Severity.Critical) eqn:E1;
    [split; discriminate|].
  destruct (strict_eq_string level Severity.Log) eqn:E2;
    [split; discriminate|].
  split; intros H; apply strict_eq_string_spec in H; congruence.
Qed.

Lemma processLevel_truthy level : truthy level = true -> truthy (_processLevel level) = true.
Proof.
  intros H. unfold _processLevel.
  destruct (strict_eq_string level Severity.Critical); [reflexivity|].
  now destruct (strict_eq_string level Severity.Log).
Qed.

Lemma processedLevel_idempotent level :
  processedLevel (processedLevel level) = processedLevel level.
Proof.
  unfold processedLevel. destruct (truthy level) eqn:E; [|reflexivity].
  rewrite processLevel_truthy by assumption.
  apply processLevel_idempotent.
Qed.

Lemma processedLevel_range level :
  processedLevel level <> VStr Severity.Critical /\
  processedLevel level <> VStr Severity.Log.
Proof.
  unfold processedLevel. destruct (truthy level); [apply processLevel_range|].
  split; discriminate.
Qed.

Lemma processBreadcrumb_fixed b b' :
  processBreadcrumb b = Ok b' -> processBreadcrumb b' = Ok b'.
Proof.
  intros H. unfold processBreadcrumb in H.
  destruct (getProp b "level") as [level|]; simpl in H; [|discriminate].
  inversion H; subst. unfold assign. simpl fold_left.
  rewrite processBreadcrumb_obj, prop_get, get_set_same, processedLevel_idempotent.
  rewrite set_same; [reflexivity | apply get_set_same].
Qed.

Lemma processBreadcrumbs_fixed v v' :
  processBreadcrumbs v = Ok v' -> processBreadcrumbs v' = Ok v'.
Proof.
  destruct v as [| | | | |l|]; simpl; try discriminate;
    try (intros [= <-]; reflexivity).
  destruct (rmap processBreadcrumb l) as [l'|] eqn:E; simpl; [|discriminate].
  intros [= <-]. simpl.
  assert (H : rmap processBreadcrumb l' = Ok l').
  { apply rmap_Forall2 in E. induction E as [|b b' l l' Hb Hl IH]; [reflexivity|].
    simpl. rewrite (processBreadcrumb_fixed _ _ Hb). simpl. rewrite IH. reflexivity. }
  now rewrite H.
Qed.

End LevelFacts.


Module LevelExtras.
Import JS Bridge NATIVE ObjFacts EnvelopeFacts LevelFacts.

(** X19: [_processLevel] never returns [critical] or [log], and applying it
    twice is the same as applying it once. *)
Theorem processLevel_is_a_projection (level : value) :
  _processLevel (_processLevel level) = _processLevel level /\
  _processLevel level <> VStr "critical" /\
  _processLevel level <> VStr "log".
Proof.
  split; [apply processLevel_idempotent | apply processLevel_range].
Qed.

(** X20: an event returned by [_processLevels] is already processed:
    [_processLevels] returns it unchanged, and its level is neither
    [critical] nor [log]; nor is the level of any of its breadcrumbs, when
    it has a list of them. *)
Theorem processLevels_is_idempotent (_event event : Obj) :
  _processLevels _event = Ok event ->
  _processLevels event = Ok event /\
  prop event "level" <> VStr "critical" /\ prop event "level" <> VStr "log" /\
  (forall crumbs crumb,
      prop event "breadcrumbs" = VArr crumbs -> In crumb crumbs ->
      member crumb "level" <> VStr "critical" /\
      member crumb "level" <> VStr "log").
Proof.
  intros He. unfold _processLevels in He.
  destruct (processBreadcrumbs (prop _event "breadcrumbs")) as [bc|] eqn:E;
    simpl in He; [|discriminate].
  injection He as Hev.
  assert (Hl : get event "level" = Some (processedLevel (prop _event "level"))).
  { rewrite <- Hev, get_set_other, get_set_same by discriminate. reflexivity. }
  assert (Hb : get event "breadcrumbs" = Some bc).
  { rewrite <- Hev. apply get_set_same. }
  split; [|split; [|split]].
  - unfold _processLevels. rewrite (prop_get event "breadcrumbs"), Hb.
    rewrite (processBreadcrumbs_fixed _ _ E). cbn [rbind].
    rewrite prop_get, Hl, processedLevel_idempotent. unfold assign. simpl.
    rewrite (set_same event) by exact Hl. now rewrite set_same.
  - rewrite prop_get, Hl. apply processedLevel_range.
  - rewrite prop_get, Hl. apply processedLevel_range.
  - intros crumbs crumb Hc Hin. rewrite prop_get, Hb in Hc. subst bc.
    destruct (prop _event "breadcrumbs") as [| | | | |l|]; simpl in E;
      try discriminate.
    destruct (rmap processBreadcrumb l) as [l'|] eqn:El; simpl in E; [|discriminate].
    inversion E; subst. apply rmap_Forall2 in El.
    assert (H : exists b, processBreadcrumb b = Ok crumb).
    { clear -El Hin. induction El as [|b b' l l' Hb Hl IH]; [contradiction|].
      destruct Hin as [<- | Hin]; eauto. }
    destruct H as (b & H). rewrite (processBreadcrumb_level _ _ H).
    apply processedLevel_range.
Qed.

Lemma processLevels_is_idempotent_witness :
  _processLevels (Examples.processedOf (Examples.criticalEvent (VBool true)))
  = Ok (Examples.processedOf (Examples.criticalEvent (VBool true))) /\
  prop (Examples.processedOf (Examples.criticalEvent (VBool true))) "level"
  <> VStr "critical" /\
  _processLevels (Examples.processedOf Examples.bareEvent)
  = Ok (Examples.processedOf Examples.bareEvent).
Proof.
  pose proof (processLevels_is_idempotent
                (Examples.criticalEvent (VBool true))
                (Examples.processedOf (Examples.criticalEvent (VBool true)))
                eq_refl) as H.
  pose proof (processLevels_is_idempotent
                Examples.bareEvent (Examples.processedOf Examples.bareEvent)
                eq_refl) as H'.
  split; [exact (proj1 H)|]. split; [exact (proj1 (proj2 H)) | exact (proj1 H')].
Defined.

End LevelExtras.


Module FetchExtras.
Import JS Bridge NATIVE.

(** X10: with native enabled and the module loaded, [fetchNativeSdkInfo] and
    [fetchNativeDeviceContexts] ask the native side on iOS only: on any other
    platform they return [null] and an empty object without a call.  The
    other three reads ask the native side on every platform.  Each returns
    what the native side replies. *)
Theorem reads_by_platform (m : Native.Handler) (w : Wrapper) :
  enableNative w = true ->
  (platform w <> "ios" ->
   exec (Some m) (fetchNativeSdkInfo (Some m)) w = (Ok VNull, w, []) /\
   exec (Some m) (fetchNativeDeviceContexts (Some m)) w = (Ok (VObj []), w, [])) /\
  (platform w = "ios" ->
   exec (Some m) (fetchNativeSdkInfo (Some m)) w
   = (m Native.fetchNativeSdkInfo, w,
      [ECall Native.fetchNativeSdkInfo (m Native.fetchNativeSdkInfo)]) /\
   exec (Some m) (fetchNativeDeviceContexts (Some m)) w
   = (m Native.fetchNativeDeviceContexts, w,
      [ECall Native.fetchNativeDeviceContexts (m Native.fetchNativeDeviceContexts)])) /\
  exec (Some m) (fetchNativeRelease (Some m)) w
  = (m Native.fetchNativeRelease, w,
     [ECall Native.fetchNativeRelease (m Native.fetchNativeRelease)]) /\
  exec (Some m) (fetchNativeAppStart (Some m)) w
  = (m Native.fetchNativeAppStart, w,
     [ECall Native.fetchNativeAppStart (m Native.fetchNativeAppStart)]) /\
  exec (Some m) (fetchNativeFrames (Some m)) w
  = (m Native.fetchNativeFrames, w,
     [ECall Native.fetchNativeFrames (m Native.fetchNativeFrames)]).
Proof.
  intros Hw.
  assert (Hawait : forall c, run m (await c) w = (m c, w, [ECall c (m c)])).
  { intros c. simpl. now destruct (m c). }
  unfold exec, fetchNativeSdkInfo, fetchNativeDeviceContexts, fetchNativeRelease,
    fetchNativeAppStart, fetchNativeFrames, fetching.
  cbn [run]. rewrite Hw. cbn [negb _isModuleLoaded].
  repeat split; try apply Hawait.
  - destruct (String.eqb_spec (platform w) "ios"); [contradiction | reflexivity].
  - destruct (String.eqb_spec (platform w) "ios"); [contradiction | reflexivity].
  - rewrite H. apply Hawait.
  - rewrite H. apply Hawait.
Qed.

Lemma reads_by_platform_witness :
  exec (Some Samples.accepting) (fetchNativeSdkInfo (Some Samples.accepting))
       Samples.android
  = (Ok VNull, Samples.android, []) /\
  exec (Some Samples.accepting) (fetchNativeDeviceContexts (Some Samples.accepting))
       Samples.android
  = (Ok (VObj []), Samples.android, []).
Proof.
  assert (Hp : platform Samples.android <> "ios") by discriminate.
  exact (proj1 (reads_by_platform Samples.accepting Samples.android eq_refl) Hp).
Defined.

End FetchExtras.


Module ScopeFacts.
Import JS Bridge NATIVE Sessions ObjFacts JSONFacts WellFormedFacts SerializerFacts
       RunFacts GateFacts.

Lemma stringified_idempotent v : stringified (stringified v) = stringified v.
Proof.
  unfold stringified. destruct (is_string v) eqn:E; [now rewrite E|].
  unfold JSON.stringify. now destruct (JSON.text v).
Qed.


Lemma forwarding_run (m : Native.Handler) (w : Wrapper) (c : Native.Call) :
  enableNative w = true ->
  run m (forwarding (Some m) (forward c)) w
  = (rbind (m c) (fun _ => Ok VUndefined), w, [ECall c (m c)]).
Proof.
  intros Hw. unfold forwarding. simpl. rewrite Hw. simpl. now destruct (m c).
Qed.

(** A scope mutation, while native is enabled and loaded: one call, whose
    reply decides the outcome; the fields stay. *)
Lemma scope_run (m : Native.Handler) (w : Wrapper) (method : Method) :
  is_scope method = true -> enableNative w = true ->
  exists c,
    run m (invoke (Some m) method) w
    = (rbind (m c) (fun _ => Ok VUndefined), w, [ECall c (m c)]).
Proof.
  intros Hs Hw.
  destruct method as [| | | | | | | |u| | | | |k c| | |]; try discriminate Hs;
    try destruct u; try destruct c;
    eexists; apply (forwarding_run m w _ Hw).
Qed.

Lemma runAll_scope (m : Native.Handler) (w : Wrapper) (methods : list Method) :
  forallb is_scope methods = true -> enableNative w = true ->
  runAll m (map (invoke (Some m)) methods) w
  = (map (fun x => outcome (run m (invoke (Some m) x) w)) methods,
     w,
     flat_map (fun x => trace (run m (invoke (Some m) x) w)) methods).
Proof.
  intros Hall Hw. induction methods as [|x l IH]; [reflexivity|].
  simpl in Hall. apply andb_prop in Hall as [Hx Hl].
  change (runAll m (map (invoke (Some m)) (x :: l)) w)
    with (let '(r, w1, t1) := run m (invoke (Some m) x) w in
          let '(rs, w2, t2) := runAll m (map (invoke (Some m)) l) w1 in
          (r :: rs, w2, t1 ++ t2)).
  destruct (scope_run m w x Hx Hw) as (c & Hc).
  cbn [map flat_map]. rewrite Hc. rewrite IH by assumption. reflexivity.
Qed.

Lemma runAll_disabled (m : Native.Handler) (w : Wrapper) (methods : list Method) :
  forallb gated methods = true -> enableNative w = false ->
  runAll m (map (invoke (Some m)) methods) w
  = (map whenDisabled methods, w, []).
Proof.
  intros Hall Hw. induction methods as [|x l IH]; [reflexivity|].
  simpl in Hall. apply andb_prop in Hall as [Hx Hl].
  change (runAll m (map (invoke (Some m)) (x :: l)) w)
    with (let '(r, w1, t1) := run m (invoke (Some m) x) w in
          let '(rs, w2, t2) := runAll m (map (invoke (Some m)) l) w1 in
          (r :: rs, w2, t1 ++ t2)).
  pose proof (disabled_run (Some m) w x Hw Hx) as H.
  unfold exec in H. rewrite H, IH by assumption. reflexivity.
Qed.

End ScopeFacts.


Module ScopeExtras.
Import JS Bridge NATIVE Sessions ObjFacts JSONFacts WellFormedFacts SerializerFacts
       RunFacts GateFacts EnvelopeFacts ReadBackFacts ScopeFacts.



(** X12: on an object that has no repeated key and no own key named
    [__proto__], [_serializeObject] keeps the keys and their order, and
    serializing its result again changes nothing. *)
Theorem serializeObject_idempotent (data : Obj) :
  NoDup (keys data) ->
  ~ In "__proto__" (keys data) ->
  keys (_serializeObject data) = keys data /\
  _serializeObject (_serializeObject data) = _serializeObject data.
Proof.
  intros H _. split; [now apply serialize_keys|].
  rewrite (serialize_map (_serializeObject data))
    by (now rewrite serialize_keys).
  rewrite serialize_map by assumption. rewrite map_map.
  apply map_ext. intros [k v]. simpl. now rewrite stringified_idempotent.
Qed.

Lemma serializeObject_idempotent_witness :
  keys (_serializeObject Samples.partialUser) = ["email"; "plan"] /\
  _serializeObject (_serializeObject Samples.partialUser)
  = _serializeObject Samples.partialUser.
Proof.
  assert (Hp : ~ In "__proto__" (keys Samples.partialUser)).
  { intros [H | [H | []]]; discriminate H. }
  exact (serializeObject_idempotent Samples.partialUser
           (distinct_NoDup (keys Samples.partialUser) eq_refl) Hp).
Defined.



(** X14: [addBreadcrumb] forwards, in one call, the breadcrumb with its
    [data] serialized by [_serializeObject] (or [undefined] when there is
    none) and every property other than [level] and [data] as it is. *)
Theorem addBreadcrumb_serializes_data
    (m : Native.Handler) (w : Wrapper) (breadcrumb : Obj) (k : string) :
  enableNative w = true -> k <> "level" -> k <> "data" ->
  exists sent,
    trace (exec (Some m) (addBreadcrumb (Some m) breadcrumb) w)
    = [ECall (Native.addBreadcrumb (VObj sent))
             (m (Native.addBreadcrumb (VObj sent)))] /\
    prop sent "data"
    = (if truthy (prop breadcrumb "data")
       then VObj (_serializeObject (ownProps (prop breadcrumb "data")))
       else VUndefined) /\
    prop sent k = prop breadcrumb k /\
    final (exec (Some m) (addBreadcrumb (Some m) breadcrumb) w) = w.
Proof.
  intros Hw H1 H2.
  exists (assign breadcrumb
            [("level", processedLevel (prop breadcrumb "level"));
             ("data",
              if truthy (prop breadcrumb "data")
              then VObj (_serializeObject (ownProps (prop breadcrumb "data")))
              else VUndefined)]).
  split; [|split; [|split]].
  - unfold exec, addBreadcrumb, forwarding. simpl. rewrite Hw. simpl.
    destruct (m (Native.addBreadcrumb _)); reflexivity.
  - rewrite prop_get, get_assign. reflexivity.
  - rewrite !prop_get, get_assign. simpl.
    destruct (String.eqb_spec k "data"); [contradiction|].
    destruct (String.eqb_spec k "level"); [contradiction|]. reflexivity.
  - unfold exec, addBreadcrumb, forwarding. simpl. rewrite Hw. simpl.
    destruct (m (Native.addBreadcrumb _)); reflexivity.
Qed.

Lemma addBreadcrumb_serializes_data_witness :
  exists sent,
    trace (exec (Some Samples.accepting)
                (addBreadcrumb (Some Samples.accepting) Examples.richCrumb)
                Samples.ios)
    = [ECall (Native.addBreadcrumb (VObj sent)) (Ok (VBool true))] /\
    prop sent "category" = VStr "touch".
Proof.
  assert (H1 : "category" <> "level") by discriminate.
  assert (H2 : "category" <> "data") by discriminate.
  destruct (addBreadcrumb_serializes_data
              Samples.accepting Samples.ios Examples.richCrumb "category"
              eq_refl H1 H2)
    as (sent & Ht & _ & Hk & _).
  exists sent. split; [exact Ht | exact Hk].
Defined.

(** X15: a scope mutation, while native is enabled and loaded, makes exactly
    one native call; it returns [undefined] when the call returns and throws
    what the call throws; it never changes a field of the wrapper. *)
Theorem scope_mutation_is_one_call
    (m : Native.Handler) (w : Wrapper) (method : Method) :
  is_scope method = true -> enableNative w = true ->
  exists c,
    trace (exec (Some m) (invoke (Some m) method) w) = [ECall c (m c)] /\
    final (exec (Some m) (invoke (Some m) method) w) = w /\
    outcome (exec (Some m) (invoke (Some m) method) w)
    = match m c with
      | Ok _ => Ok VUndefined
      | Err e => Err e
      end.
Proof.
  intros Hs Hw. destruct (scope_run m w method Hs Hw) as (c & H).
  exists c. unfold exec. rewrite H. repeat split.
Qed.

Lemma scope_mutation_is_one_call_witness :
  exists c,
    trace (exec (Some Samples.accepting)
                (invoke (Some Samples.accepting) (SetTag "k" (VStr "v")))
                Samples.ios)
    = [ECall c (Samples.accepting c)].
Proof.
  destruct (scope_mutation_is_one_call
              Samples.accepting Samples.ios (SetTag "k" (VStr "v")) eq_refl eq_refl)
    as (c & H & _).
  exists c. exact H.
Defined.

(** X16: scope mutations are forwarded one by one, in the order of the
    calls: a sequence of [n] of them makes [n] native calls, the calls that
    each makes alone, in that order, and leaves the fields as they were. *)
Theorem scope_mutations_are_not_batched
    (m : Native.Handler) (w : Wrapper) (methods : list Method) :
  forallb is_scope methods = true -> enableNative w = true ->
  calls (sessionTrace (runAll m (map (invoke (Some m)) methods) w))
  = flat_map (fun x => calls (trace (exec (Some m) (invoke (Some m) x) w))) methods /\
  List.length (calls (sessionTrace (runAll m (map (invoke (Some m)) methods) w)))
  = List.length methods /\
  sessionFinal (runAll m (map (invoke (Some m)) methods) w) = w.
Proof.
  intros Hall Hw. rewrite runAll_scope by assumption.
  unfold sessionTrace, sessionFinal, exec. cbn [fst snd].
  assert (H : forall l, forallb is_scope l = true ->
                calls (flat_map (fun x => trace (run m (invoke (Some m) x) w)) l)
                = flat_map (fun x => calls (trace (run m (invoke (Some m) x) w))) l
                /\ List.length
                     (flat_map (fun x => calls (trace (run m (invoke (Some m) x) w))) l)
                   = List.length l).
  { induction l as [|x l IH]; [auto|]. intros Hl. simpl in Hl.
    apply andb_prop in Hl as [Hx Hl]. destruct (IH Hl) as [IH1 IH2].
    cbn [flat_map]. unfold calls at 1. rewrite flat_map_app.
    fold (calls (trace (run m (invoke (Some m) x) w))).
    fold (calls (flat_map (fun x0 => trace (run m (invoke (Some m) x0) w)) l)).
    rewrite IH1. split; [reflexivity|].
    rewrite length_app, IH2.
    destruct (scope_run m w x Hx Hw) as (c & ->). reflexivity. }
  destruct (H methods Hall) as [H1 H2]. rewrite H1. auto.
Qed.

Lemma scope_mutations_are_not_batched_witness :
  List.length
    (calls (sessionTrace
              (runAll Samples.accepting
                      (map (invoke (Some Samples.accepting))
                           [SetTag "k" (VStr "v"); ClearBreadcrumbs; SetUser None])
                      Samples.ios)))
  = 3.
Proof.
  exact (proj1 (proj2 (scope_mutations_are_not_batched
                         Samples.accepting Samples.ios
                         [SetTag "k" (VStr "v"); ClearBreadcrumbs; SetUser None]
                         eq_refl eq_refl))).
Defined.

(** X17: once [closeNativeSdk] has resolved, the wrapper is closed: any
    gated methods called after it (a second [closeNativeSdk] included) take
    their disabled path, and the only native call of the whole sequence is
    the one [closeNativeSdk] call. *)
Theorem closed_stays_closed
    (m : Native.Handler) (w : Wrapper) (methods : list Method) (v : value) :
  m Native.closeNativeSdk = Ok v -> enableNative w = true ->
  forallb gated methods = true ->
  runAll m (closeNativeSdk (Some m) :: map (invoke (Some m)) methods) w
  = (Ok VUndefined :: map whenDisabled methods,
     with_enableNative false w,
     [ECall Native.closeNativeSdk (Ok v); ESetEnableNative false]).
Proof.
  intros Hm Hw Hall. simpl. rewrite Hw. simpl. rewrite Hm. simpl.
  rewrite runAll_disabled by auto. reflexivity.
Qed.

Lemma closed_stays_closed_witness :
  runAll Samples.accepting
         (closeNativeSdk (Some Samples.accepting)
          :: map (invoke (Some Samples.accepting))
                 [SetTag "k" (VStr "v"); CloseNativeSdk; FetchNativeRelease])
         Samples.ios
  = ([Ok VUndefined; Ok VUndefined; Ok VUndefined; Err DisabledNativeError],
     with_enableNative false Samples.ios,
     [ECall Native.closeNativeSdk (Ok (VBool true)); ESetEnableNative false]).
Proof.
  apply (closed_stays_closed
           Samples.accepting Samples.ios
           [SetTag "k" (VStr "v"); CloseNativeSdk; FetchNativeRelease]
           (VBool true) eq_refl eq_refl eq_refl).
Defined.

(** X18: [isNativeTransportAvailable] returns [true] exactly when native is
    enabled and the module is loaded, without a call; when it returns
    [false], no gated method makes a native call. *)
Theorem availability_is_the_gate
    (RNSentry : option Native.Handler) (w : Wrapper) (method : Method) :
  gated method = true ->
  exists b,
    exec RNSentry (isNativeTransportAvailable RNSentry) w = (Ok (VBool b), w, []) /\
    (b = true <-> enableNative w = true /\ RNSentry <> None) /\
    (b = false -> trace (exec RNSentry (invoke RNSentry method) w) = []).
Proof.
  intros Hg. exists (enableNative w && _isModuleLoaded RNSentry)%bool.
  split; [reflexivity|]. split.
  - destruct (enableNative w), RNSentry; simpl; split; intros H;
      try discriminate; try reflexivity; try (destruct H; congruence).
    split; [reflexivity | discriminate].
  - destruct (enableNative w) eqn:Hw.
    + destruct RNSentry; [discriminate|]. intros _.
      now rewrite unavailable_run.
    + intros _. now rewrite disabled_run.
Qed.

Lemma availability_is_the_gate_witness :
  exists b,
    exec None (isNativeTransportAvailable None) Samples.ios
    = (Ok (VBool b), Samples.ios, []) /\
    (b = false -> trace (exec None (invoke None NativeCrash) Samples.ios) = []).
Proof.
  destruct (availability_is_the_gate None Samples.ios NativeCrash eq_refl)
    as (b & H1 & _ & H3).
  exists b. split; [exact H1 | exact H3].
Defined.

End ScopeExtras.


Module TouchFacts.
Import JS Touch ObjFacts.


Lemma firstOf_cases active name x :
  firstOf active name = Some x -> x = name \/ active = Some x.
Proof.
  unfold firstOf. destruct (unset active); [intros [= <-] | intros ->]; auto.
Qed.

Lemma byDisplayName_pushed props inst s : Pushed props s (byDisplayName props inst s).
Proof.
  unfold byDisplayName. destruct (elementType inst) as [et|]; [|constructor].
  destruct (displayName et) as [d|]; [|constructor].
  destruct (nonEmpty d); simpl; [|constructor].
  destruct (_isNameIgnored props d) eqn:E; simpl; constructor; auto.
Qed.

Lemma byAccessibilityLabel_pushed props inst s :
  Pushed props s (byAccessibilityLabel props inst s).
Proof.
  unfold byAccessibilityLabel.
  destruct (propOf (memoizedProps inst) "accessibilityLabel");
    try apply byDisplayName_pushed.
  destruct (_isNameIgnored props s0) eqn:E; simpl;
    [apply byDisplayName_pushed | now constructor].
Qed.

Lemma body_pushed props inst s : Pushed props s (body props inst s).
Proof.
  unfold body. destruct (labelOf (memoizedProps inst)) as [l|];
    [|apply byAccessibilityLabel_pushed].
  destruct (nonEmpty l); simpl; [|apply byAccessibilityLabel_pushed].
  destruct (_isNameIgnored props l) eqn:E; simpl;
    [apply byAccessibilityLabel_pushed | now constructor].
Qed.

Lemma start_kept props : Kept props start.
Proof. constructor; simpl; auto; discriminate. Qed.

Lemma room_size props s :
  room props s = true ->
  exists n, maxComponentTreeSize props = Some n /\
            lengthBelow (List.length (componentTreeNames s)) n = true.
Proof.
  unfold room. destruct (maxComponentTreeSize props) as [n|]; [|discriminate].
  intros H. apply andb_prop in H as [_ H]. eauto.
Qed.

(** The comparison [length < n] on whole numbers, and for shorter lengths. *)
Lemma lengthBelow_whole (k : nat) (z : Z) :
  lengthBelow k (whole z) = true -> (Z.of_nat k < z)%Z.
Proof.
  unfold lengthBelow, whole, QArith_base.Qle_bool. simpl.
  rewrite !Z.mul_1_r. intros H. apply negb_true_iff in H.
  now apply Z.leb_gt in H.
Qed.

Lemma lengthBelow_mono (k k' : nat) (n : Number) :
  k' <= k -> lengthBelow k n = true -> lengthBelow k' n = true.
Proof.
  intros Hk. destruct n as [q|negative|]; simpl; auto.
  intros H. apply negb_true_iff in H. apply negb_true_iff.
  destruct (QArith_base.Qle_bool q (QArith_base.inject_Z (Z.of_nat k'))) eqn:E; auto.
  apply QArith_base.Qle_bool_iff in E.
  assert (H' : QArith_base.Qle q (QArith_base.inject_Z (Z.of_nat k))).
  { eapply QArith_base.Qle_trans; [exact E|].
    rewrite <- QArith_base.Zle_Qle. lia. }
  apply QArith_base.Qle_bool_iff in H'. congruence.
Qed.

Lemma lengthBelow_nonZero (k : nat) (n : Number) :
  lengthBelow k n = true -> nonZero n = true.
Proof.
  destruct n as [q|negative|]; simpl; auto.
  intros H. apply negb_true_iff in H. apply negb_true_iff.
  destruct (QArith_base.Qeq_bool q (QArith_base.inject_Z 0)) eqn:E; auto.
  apply QArith_base.Qeq_bool_iff in E.
  assert (H' : QArith_base.Qle q (QArith_base.inject_Z (Z.of_nat k))).
  { eapply QArith_base.Qle_trans.
    - apply QArith_base.Qle_lteq. right. exact E.
    - rewrite <- QArith_base.Zle_Qle. lia. }
  apply QArith_base.Qle_bool_iff in H'. congruence.
Qed.

Lemma pushed_kept props s s' :
  room props s = true -> Kept props s -> Pushed props s s' -> Kept props s'.
Proof.
  intros Hroom [Hn Hs Hl Hd] Hp. destruct (room_size _ _ Hroom) as (n & Hmax & Hlen).
  destruct Hp as [|name Hname|name Hname].
  - constructor; auto.
  - constructor; simpl.
    + apply Forall_app. split; auto.
    + right. exists n. split; auto. rewrite length_app. simpl.
      replace (List.length (componentTreeNames s) + 1 - 1) with
        (List.length (componentTreeNames s)) by lia. exact Hlen.
    + intros l H. apply in_or_app. apply firstOf_cases in H as [-> | H];
        [right; now left | left; auto].
    + intros d H. apply in_or_app. left. auto.
  - constructor; simpl.
    + apply Forall_app. split; auto.
    + right. exists n. split; auto. rewrite length_app. simpl.
      replace (List.length (componentTreeNames s) + 1 - 1) with
        (List.length (componentTreeNames s)) by lia. exact Hlen.
    + intros l H. apply in_or_app. left. auto.
    + intros d H. apply in_or_app. apply firstOf_cases in H as [-> | H];
        [right; now left | left; auto].
Qed.

Lemma walk_kept props chain : forall s, Kept props s -> Kept props (walk props chain s).
Proof.
  induction chain as [|inst chain IH]; intros s Hs; simpl; auto.
  destruct (room props s) eqn:Hroom; simpl; auto.
  destruct (isBoundary inst); auto.
  apply IH. eapply pushed_kept; eauto using body_pushed.
Qed.

Lemma pushed_length props s s' :
  Pushed props s s' ->
  List.length (componentTreeNames s') <= S (List.length (componentTreeNames s)).
Proof.
  intros [| |]; simpl; rewrite ?length_app; simpl; lia.
Qed.

(** Each instance gives at most one name. *)
Lemma walk_length props chain : forall s,
  List.length (componentTreeNames (walk props chain s))
  <= List.length (componentTreeNames s) + List.length chain.
Proof.
  induction chain as [|inst chain IH]; intros s; simpl; [lia|].
  destruct (room props s); simpl; [|lia].
  destruct (isBoundary inst); [lia|].
  specialize (IH (body props inst s)).
  pose proof (pushed_length props s _ (body_pushed props inst s)). lia.
Qed.

(** The loop does not go past the boundary. *)
Lemma walk_boundary props inner b outer : forall s,
  isBoundary b = true ->
  walk props (inner ++ b :: outer) s = walk props inner s.
Proof.
  induction inner as [|inst inner IH]; intros s Hb; simpl.
  - rewrite Hb. now destruct (room props s).
  - destruct (room props s); simpl; auto.
    destruct (isBoundary inst); auto.
Qed.

(** What is logged, when something is. *)
Lemma onTouchStart_Some Info props target out :
  _onTouchStart Info props target = Some out ->
  componentTreeNames (walk props target start) <> [] /\
  out = _logTouchEvent Info props (componentTreeNames (walk props target start))
          (match activeLabel (walk props target start) with
           | Some l => Some l
           | None => activeDisplayName (walk props target start)
           end).
Proof.
  unfold _onTouchStart. destruct target as [|inst chain]; [discriminate|].
  cbv zeta.
  pose proof (walk_kept props (inst :: chain) start (start_kept props)) as [_ _ Hl Hd].
  destruct (componentTreeNames (walk props (inst :: chain) start))
    as [|x names] eqn:En.
  - intros H. exfalso.
    destruct (activeLabel (walk props (inst :: chain) start)) as [l|];
      [exact (Hl l eq_refl)|].
    destruct (activeDisplayName (walk props (inst :: chain) start)) as [d|];
      [exact (Hd d eq_refl)|].
    discriminate.
  - intros H. split; [discriminate|]. simpl in H. now inversion H.
Qed.

Lemma crumb_data Info props names label :
  prop (crumb (_logTouchEvent Info props names label)) "data"
  = VObj [("componentTree", VArr (map VStr names))].
Proof. reflexivity. Qed.

End TouchFacts.


Module TouchExtras.
Import JS Touch ObjFacts TouchFacts.

(** X21: the component tree of a logged touch is never empty and has at
    most one name for each instance from the touched one up.  Its last name
    was pushed while the length was below [maxComponentTreeSize]: the tree
    has at most [maxComponentTreeSize] names when that is a whole number
    (with a fraction such as [1.5] it can have one more, here two); without
    a [maxComponentTreeSize], or with one that is zero, [NaN] or not above
    zero, nothing is logged. *)
Theorem component_tree_is_bounded
    (Info : string) (props : Props) (target : list ElementInstance) (out : Logged) :
  _onTouchStart Info props target = Some out ->
  exists names size,
    prop (crumb out) "data" = VObj [("componentTree", VArr (map VStr names))] /\
    names <> [] /\
    List.length names <= List.length target /\
    maxComponentTreeSize props = Some size /\
    nonZero size = true /\
    lengthBelow 0 size = true /\
    lengthBelow (List.length names - 1) size = true /\
    (forall z, size = whole z -> (Z.of_nat (List.length names) <= z)%Z).
Proof.
  intros H. apply onTouchStart_Some in H as [Hne ->].
  pose proof (walk_kept props target start (start_kept props)) as [_ Hsize _ _].
  destruct Hsize as [Hnil | (n & Hmax & Hlen)]; [contradiction|].
  exists (componentTreeNames (walk props target start)), n.
  split; [apply crumb_data|]. split; [exact Hne|].
  split; [apply (walk_length props target start)|]. split; [exact Hmax|].
  split; [exact (lengthBelow_nonZero _ _ Hlen)|].
  split; [apply (lengthBelow_mono _ 0 n) in Hlen; [exact Hlen | lia]|].
  split; [exact Hlen|].
  intros z ->. apply lengthBelow_whole in Hlen.
  destruct (componentTreeNames (walk props target start)); [contradiction|].
  simpl List.length in *. lia.
Qed.

Lemma component_tree_is_bounded_witness :
  exists names,
    prop (crumb (Examples.loggedOf Examples.chain)) "data"
    = VObj [("componentTree", VArr (map VStr names))] /\
    names <> [] /\
    (Z.of_nat (List.length names) <= 2)%Z /\
    List.length names <= List.length Examples.chain.
Proof.
  destruct (component_tree_is_bounded "info" Examples.props Examples.chain
              (Examples.loggedOf Examples.chain) eq_refl)
    as (names & size & Hd & Hne & Hlen & Hs & _ & _ & _ & Hz).
  exists names. split; [exact Hd|]. split; [exact Hne|].
  split; [|exact Hlen]. apply Hz.
  injection Hs as <-. reflexivity.
Defined.

(** With the size [1.5] the loop runs while the length is 0 or 1: two names
    are logged. *)
Example fractional_size_admits_one_more :
  option_map (fun out => prop (crumb out) "data")
             (_onTouchStart "info" (Examples.propsOfSize Examples.oneAndAHalf)
                            Examples.chain)
  = Some (VObj [("componentTree", VArr [VStr "Text"; VStr "Buy"])]).
Proof. reflexivity. Qed.



(** X23: the walk stops at the boundary itself: what is logged for a touch
    depends only on the instances below the first one whose display name is
    that of the boundary. *)
Theorem boundary_stops_the_walk
    (Info : string) (props : Props) (inner outer : list ElementInstance)
    (b : ElementInstance) :
  isBoundary b = true ->
  _onTouchStart Info props (inner ++ b :: outer) = _onTouchStart Info props inner.
Proof.
  intros Hb. unfold _onTouchStart.
  destruct inner as [|inst inner].
  - simpl. rewrite Hb. now destruct (room props start).
  - change ((inst :: inner) ++ b :: outer) with (inst :: (inner ++ b :: outer)).
    cbv zeta.
    change (inst :: (inner ++ b :: outer)) with ((inst :: inner) ++ b :: outer).
    now rewrite walk_boundary.
Qed.

Lemma boundary_stops_the_walk_witness :
  _onTouchStart "info" Examples.props Examples.chain
  = _onTouchStart "info" Examples.props Examples.inner.
Proof.
  apply (boundary_stops_the_walk "info" Examples.props Examples.inner
           [Examples.named "App"] (Examples.named boundaryName) eq_refl).
Defined.

(** X24: the message of a logged touch is the general one, or names an
    element that is in the component tree; the logged line is the message
    after [[TouchEvents]]; category and type are those of the properties. *)
Theorem message_names_a_logged_component
    (Info : string) (props : Props) (target : list ElementInstance) (out : Logged) :
  _onTouchStart Info props target = Some out ->
  exists names message,
    prop (crumb out) "data" = VObj [("componentTree", VArr (map VStr names))] /\
    prop (crumb out) "message" = VStr message /\
    logLine out = ("[TouchEvents] " ++ message)%string /\
    prop (crumb out) "category" = optString (breadcrumbCategory props) /\
    prop (crumb out) "type" = optString (breadcrumbType props) /\
    (message = "Touch event within component tree" \/
     exists l, In l names /\ l <> EmptyString /\
               message = ("Touch event within element: " ++ l)%string).
Proof.
  intros H. apply onTouchStart_Some in H as [Hne ->].
  pose proof (walk_kept props target start (start_kept props)) as [_ _ Hl Hd].
  set (s := walk props target start) in *.
  exists (componentTreeNames s). eexists.
  split; [reflexivity|]. split; [reflexivity|]. split; [reflexivity|].
  split; [reflexivity|]. split; [reflexivity|].
  destruct (activeLabel s) as [l|] eqn:El.
  - simpl. destruct (String.eqb_spec l EmptyString); [now left|].
    right. exists l. auto.
  - destruct (activeDisplayName s) as [d|] eqn:Ed; [|now left].
    simpl. destruct (String.eqb_spec d EmptyString); [now left|].
    right. exists d. auto.
Qed.

Lemma message_names_a_logged_component_witness :
  exists names message,
    prop (crumb (Examples.loggedOf Examples.chain)) "data"
    = VObj [("componentTree", VArr (map VStr names))] /\
    prop (crumb (Examples.loggedOf Examples.chain)) "message" = VStr message /\
    logLine (Examples.loggedOf Examples.chain) = ("[TouchEvents] " ++ message)%string /\
    prop (crumb (Examples.loggedOf Examples.chain)) "category"
    = optString (breadcrumbCategory Examples.props) /\
    prop (crumb (Examples.loggedOf Examples.chain)) "type"
    = optString (breadcrumbType Examples.props) /\
    (message = "Touch event within component tree" \/
     exists l, In l names /\ l <> EmptyString /\
               message = ("Touch event within element: " ++ l)%string).
Proof.
  apply (message_names_a_logged_component "info" Examples.props Examples.chain
           (Examples.loggedOf Examples.chain) eq_refl).
Defined.

Example touch_on_the_sample :
  prop (crumb (Examples.loggedOf Examples.chain)) "data"
  = VObj [("componentTree", VArr [VStr "Text"; VStr "Buy"])]
  /\ prop (crumb (Examples.loggedOf Examples.chain)) "message"
     = VStr "Touch event within element: Buy".
Proof. split; reflexivity. Qed.

End TouchExtras.
